(** * Window-dataset generator: scene randomisation, passes and keypoints

    A shallow embedding of the three Blender scripts of the repository

      - [data_generation_no_background.py]   (single camera, module [Single])
      - [data_generation_with_background.py] (single camera, module [Single],
                                              variant [WithBackground])
      - [data_generator.py]                  (multi camera, module [MultiCam])

    Conventions of the embedding.

    - Python floats are modelled as rationals [Q] with exact arithmetic;
      Python ints as [Z] (pixel coordinates) or [nat] (counts, loop bounds).
    - The seeded [random] module is an abstract generator state threaded
      through every sampling function by a small state monad.
    - Blender ([bpy], [mathutils], [bpy_extras]) is an external collaborator:
      its functions are the fields of the class [Engine].  An object's
      [matrix_world] is taken to be the engine's function of the object's
      current location, rotation and scale.
    - The renderer is an opaque function from the scene to an image. *)

From Stdlib Require Import Reals Qreals.
From Stdlib Require Lra.
From Stdlib Require Import ZArith QArith Qround Qabs Qminmax Lia Lqa Sorted.
From stdpp Require Import base list strings pretty.

Set Warnings "-abstract-large-number".

Local Open Scope Q_scope.

(* ================================================================== *)
(** * Numbers *)
(* ================================================================== *)

Module Num.

  (** [a < b] on floats, as a boolean. *)
Definition Qltb (a b : Q) : bool := negb (Qle_bool b a).

  (** Python's [round(x)] for a float: nearest integer, ties to even. *)
Definition py_round (q : Q) : Z :=
    let f := Qfloor q in
    match Qcompare (q - inject_Z f) (1 # 2) with
    | Lt => f
    | Gt => (f + 1)%Z
    | Eq => if Z.even f then f else (f + 1)%Z
    end.

  (** Python's [max(a, b, c)] on floats: the first maximal argument. *)
Definition max3 (a b c : Q) : Q :=
    let m := if Qltb a b then b else a in
    if Qltb m c then c else m.

Definition Vec3 : Type := Q * Q * Q.
Definition vx (p : Vec3) : Q := p.1.1.
Definition vy (p : Vec3) : Q := p.1.2.
Definition vz (p : Vec3) : Q := p.2.

Definition vadd (a b : Vec3) : Vec3 := (vx a + vx b, vy a + vy b, vz a + vz b).
Definition vsub (a b : Vec3) : Vec3 := (vx a - vx b, vy a - vy b, vz a - vz b).
Definition vscale (a : Vec3) (k : Q) : Vec3 := (vx a * k, vy a * k, vz a * k).
Definition vzero : Vec3 := (0, 0, 0).

  (** A pixel [(x, y)]. *)
Definition Px : Type := Z * Z.

End Num.
Export Num.

(* ================================================================== *)
(** * The seeded pseudo-random generator *)
(* ================================================================== *)

Module Rand.

  (** The two primitives of Python's [random.Random] everything else is
      built from: [random()] and [_randbelow(n)]. *)
Class PRNG (G : Type) := {
    seed : Z -> G;
    random : G -> Q * G;
    randbelow : Z -> G -> Z * G
  }.

  (** Computations that consume randomness. *)
Definition State (G A : Type) : Type := G -> A * G.

#[global] Instance state_ret {G} : MRet (State G) := fun A x g => (x, g).
#[global] Instance state_bind {G} : MBind (State G) :=
    fun A B f m g => let '(a, g') := m g in f a g'.

Section Draws.
Context {G : Type} `{PRNG G}.

    (** [random.uniform(a, b)] is [a + (b - a) * random()]. *)
Definition uniform (a b : Q) : State G Q :=
      r ← random; mret (a + (b - a) * r).

    (** [random.randint(a, b)] is [a + _randbelow(b - a + 1)]. *)
Definition randint (a b : Z) : State G Z :=
      k ← randbelow (b - a + 1)%Z; mret (a + k)%Z.

    (** [random.choice(seq)] is [seq[_randbelow(len(seq))]]. *)
Definition choice {A} (d : A) (l : list A) : State G A :=
      i ← randbelow (Z.of_nat (length l)); mret (nth (Z.to_nat i) l d).

    (** A [for] loop over a list whose body draws random numbers. *)
Fixpoint for_each {A S} (body : A -> S -> State G S) (l : list A) (s : S)
      : State G S :=
      match l with
      | [] => mret s
      | x :: l' => s' ← body x s; for_each body l' s'
      end.
End Draws.

End Rand.
Export Rand.

(* ================================================================== *)
(** * Scene objects and the engine *)
(* ================================================================== *)

Module Blender.

Inductive Material :=
  | Window_RGB_EmitTransp     (* single camera: textured frame, hollow centre *)
  | Window_MASK_Union         (* single camera: white frame, alpha blended *)
  | Black_Emission            (* single camera: occluders in the mask pass *)
  | Window_RGB_Mat            (* multi camera: true colour window *)
  | Window_MASK_Mat           (* multi camera: 1 where the texture is not white *)
  | BG_Mat (noise : Q) (c1 c2 : Vec3) (rough : Q)
  | Occ_Mat (nm : string) (base : Vec3).

Inductive ObjType := MESH | LIGHT | CAMERA.

Record Obj := mkObj {
    name : string;
    otype : ObjType;
    location : Vec3;
    rotation_euler : Vec3;
    scale : Vec3;
    materials : list Material;
    hide_render : bool;
    hide_viewport : bool;
    vertices : list Vec3
  }.

Record Camera := mkCamera {
    cam_name : string;
    cam_location : Vec3;
    cam_rotation_euler : Vec3;
    lens : Q
  }.

Definition set_location (v : Vec3) (o : Obj) : Obj :=
    mkObj (name o) (otype o) v (rotation_euler o) (scale o) (materials o)
          (hide_render o) (hide_viewport o) (vertices o).
Definition set_rotation_euler (v : Vec3) (o : Obj) : Obj :=
    mkObj (name o) (otype o) (location o) v (scale o) (materials o)
          (hide_render o) (hide_viewport o) (vertices o).
Definition set_scale (v : Vec3) (o : Obj) : Obj :=
    mkObj (name o) (otype o) (location o) (rotation_euler o) v (materials o)
          (hide_render o) (hide_viewport o) (vertices o).
Definition set_materials (m : list Material) (o : Obj) : Obj :=
    mkObj (name o) (otype o) (location o) (rotation_euler o) (scale o) m
          (hide_render o) (hide_viewport o) (vertices o).
Definition set_hide (hr hv : bool) (o : Obj) : Obj :=
    mkObj (name o) (otype o) (location o) (rotation_euler o) (scale o)
          (materials o) hr hv (vertices o).

  (** The pose of an object: what [matrix_world] is computed from. *)
Definition pose (o : Obj) : Vec3 * Vec3 * Vec3 :=
    (location o, rotation_euler o, scale o).

  (** The library functions the scripts call. *)
Class Engine := {
    (** [bpy_extras.object_utils.world_to_camera_view(scene, cam, p)]:
        normalised [(u, v, depth)] at the scene's fixed resolution. *)
    world_to_camera_view : Camera -> Vec3 -> Vec3;
    (** [ob.matrix_world @ co] for an object with the given pose. *)
    matrix_world : Vec3 * Vec3 * Vec3 -> Vec3 -> Vec3;
    (** [(ob.matrix_world.to_3x3() @ Vector((0,0,1))).normalized()]. *)
    normal_world : Vec3 * Vec3 * Vec3 -> Vec3;
    (** [Vector.normalized()]. *)
    normalized : Vec3 -> Vec3;
    (** [v.to_track_quat('-Z', 'Y').to_euler()]. *)
    track_euler : Vec3 -> Vec3;
    radians : Q -> Q;
    cos : Q -> Q;
    sin : Q -> Q;
    (** The four vertices [bmesh.ops.create_grid] makes for a grid of the
        given size with one segment each way, in mesh order. *)
    grid_vertices : Q -> list Vec3;
    (** The vertices of [bmesh.ops.create_cube(size=1.0)]. *)
    cube_vertices : list Vec3
  }.

End Blender.
Export Blender.

(* ================================================================== *)
(** * Geometry helpers shared by the scripts *)
(* ================================================================== *)

Module Geometry.

Section WithEngine.
Context `{Engine}.

    (** [plane_world_corners(ob)]. *)
Definition plane_world_corners (ob : Obj) : list Vec3 :=
      map (matrix_world (pose ob)) (take 4 (vertices ob)).

    (** The test of one corner in [all_corners_in_frame]. *)
Definition in_frame (uvw : Vec3) : bool :=
      Qle_bool 0 (vx uvw) && Qle_bool (vx uvw) 1 &&
      Qle_bool 0 (vy uvw) && Qle_bool (vy uvw) 1 &&
      Qltb 0 (vz uvw).

    (** [all_corners_in_frame(cam, corners)]. *)
Fixpoint all_corners_in_frame (cam : Camera) (corners : list Vec3) : bool :=
      match corners with
      | [] => true
      | wp :: rest =>
          if in_frame (world_to_camera_view cam wp)
          then all_corners_in_frame cam rest
          else false
      end.
End WithEngine.

  (** [max(0, min(hi, x))]. *)
Definition clamp0 (hi x : Z) : Z := Z.max 0 (Z.min hi x).

  (** The body of the loop of [project_to_pixels] (single camera). *)
Definition to_pixel (uvw : Vec3) (W Ht : Z) : Px :=
    let x := py_round (vx uvw * inject_Z (W - 1)) in
    let y := py_round ((1 - vy uvw) * inject_Z (Ht - 1)) in
    (clamp0 (W - 1) x, clamp0 (Ht - 1) y).

  (** The body of the loop of [project_pixels] (multi camera). *)
Definition to_pixel_mc (uvw : Vec3) (W Ht : Z) : Px :=
    let x := clamp0 (W - 1) (py_round (vx uvw * inject_Z (W - 1))) in
    let y := clamp0 (Ht - 1) (py_round (vy uvw * inject_Z (Ht - 1))) in
    (x, y).

Section Projection.
Context `{Engine}.

    (** [project_to_pixels(cam, world_points, W, H)]. *)
Definition project_to_pixels (cam : Camera) (world_points : list Vec3)
               (W Ht : Z) : list Px :=
      map (fun wp => to_pixel (world_to_camera_view cam wp) W Ht) world_points.

    (** [project_pixels(cam, wpts, W, H)] of the multi-camera script. *)
Definition project_pixels (cam : Camera) (wpts : list Vec3)
               (W Ht : Z) : list Px :=
      map (fun wp => to_pixel_mc (world_to_camera_view cam wp) W Ht) wpts.
End Projection.

  (** Python's [sorted(l, key=...)]: a stable sort.  [leb] compares keys. *)
Section Sorted.
Context {A K : Type} (leb : K -> K -> bool) (key : A -> K).

Fixpoint insert_sorted (x : A) (l : list A) : list A :=
      match l with
      | [] => [x]
      | y :: l' => if leb (key x) (key y) then x :: y :: l'
                   else y :: insert_sorted x l'
      end.

Definition sorted (l : list A) : list A := foldr insert_sorted [] l.
End Sorted.

  (** Tuples compare lexicographically. *)
Definition pair_leb (a b : Z * Z) : bool :=
    (a.1 <? b.1)%Z || ((a.1 =? b.1)%Z && (a.2 <=? b.2)%Z).

  (** [order_tl_tr_br_bl(pxpts)]; [None] where Python raises [IndexError]. *)
Definition order_tl_tr_br_bl (pxpts : list Px) : option (list Px) :=
    let s := sorted pair_leb (fun p : Px => ((- p.2)%Z, p.1)) pxpts in
    let top := sorted Z.leb (fun p : Px => p.1) (take 2 s) in
    let bot := sorted Z.leb (fun p : Px => p.1) (drop 2 s) in
    match top, bot with
    | [t0; t1], b0 :: b1 :: _ => Some [t0; t1; b1; b0]
    | _, _ => None
    end.

  (** The ordering as the specification words it: the two topmost points
      (smallest pixel [y]) first, each pair split left/right by [x]. *)
Definition top_first (out : list Px) : Prop :=
    match out with
    | [tl; tr; br; bl] =>
        (tl.2 <= br.2 /\ tl.2 <= bl.2 /\ tr.2 <= br.2 /\ tr.2 <= bl.2 /\
         tl.1 <= tr.1 /\ bl.1 <= br.1)%Z
    | _ => False
    end.

  (** What the sort key [(-y, x)] gives: the two largest [y] first. *)
Definition largest_y_first (out : list Px) : Prop :=
    match out with
    | [a; b; c; d] =>
        (c.2 <= a.2 /\ d.2 <= a.2 /\ c.2 <= b.2 /\ d.2 <= b.2 /\
         a.1 <= b.1 /\ d.1 <= c.1)%Z
    | _ => False
    end.

  (** The pixel mapping as the specification words it. *)
Definition clamp_into (lo hi x : Z) : Z :=
    if (x <? lo)%Z then lo else if (hi <? x)%Z then hi else x.

Definition to_pixel_spec (u v : Q) (W Ht : Z) : Px :=
    (clamp_into 0 (W - 1) (py_round (u * inject_Z (W - 1))),
     clamp_into 0 (Ht - 1) (py_round ((1 - v) * inject_Z (Ht - 1)))).

End Geometry.
Export Geometry.


(* ================================================================== *)
(** * The single-camera scripts *)
(* ================================================================== *)

Module Single.

(** [data_generation_no_background.py], or [data_generation_with_background.py]
    with the background files found in [BACKGROUND_DIR] at start-up. *)
Inductive Script := NoBackground | WithBackground (bg_files : list string).

Definition IMG_RES : Z * Z := (640, 648)%Z.
Definition CAMERA_DIST_MIN : Q := 3.8.
Definition CAMERA_DIST_MAX : Q := 6.2.
Definition CAMERA_LENS_MM : Q := 45.0.
Definition MAX_WINDOWS : Z := 5.
Definition WINDOW_SIZE_RANGE : Q * Q := (0.50, 1.10).
Definition MIN_SKEW_DEG : Q := 6.0.
Definition MAX_SKEW_DEG : Q := 15.0.
Definition BOARD_HALF_EXTENTS : Q * Q := (1.6, 1.2).
Definition NUM_OCCLUDERS_MIN : Z := 1.
Definition NUM_OCCLUDERS_MAX : Z := 4.
Definition OCCLUDER_SIZE_RANGE : Q * Q := (0.12, 0.40).
Definition OCCLUDER_Z_OFFSET : Q * Q := (0.3, 2.0).
Definition NUM_RANDOM_LIGHTS : nat := 4.
Definition LIGHT_ENERGY_RANGE : Q * Q := (500.0, 2200.0).
Definition LIGHT_SIZE_RANGE : Q * Q := (0.18, 0.70).
Definition NUM_BASE_IMAGES : nat := 2000.

(** The number of frames of the run. *)
Definition NUM_IMAGES (script : Script) : nat :=
  match script with NoBackground => 2000 | WithBackground _ => 12000 end.

Inductive LightType := POINT | AREA.

Record Light := mkLight {
  l_name : string;
  l_type : LightType;
  l_location : Vec3;
  l_energy : Q;
  l_size : option Q;
  l_color : Vec3
}.

Inductive ColorMode := BW | RGB | RGBA.

(** The part of Blender's scene the script reads and writes. *)
Record Scene := mkScene {
  cam_obj : Camera;
  coll_board : list Obj;        (* the board, then the pooled windows *)
  coll_lights : list Light;
  coll_occluder : list Obj;
  film_transparent : bool;
  color_mode : ColorMode;
  use_compositing : bool;
  bg_image : option string;     (* the compositor's background image *)
  filepath : string;
  world_color : option (Q * Q * Q * Q)  (* the world's background node *)
}.

Definition set_cam_obj (c : Camera) (s : Scene) : Scene :=
  mkScene c (coll_board s) (coll_lights s) (coll_occluder s) (film_transparent s)
    (color_mode s) (use_compositing s) (bg_image s) (filepath s) (world_color s).
Definition set_coll_board (b : list Obj) (s : Scene) : Scene :=
  mkScene (cam_obj s) b (coll_lights s) (coll_occluder s) (film_transparent s)
    (color_mode s) (use_compositing s) (bg_image s) (filepath s) (world_color s).
Definition set_coll_lights (l : list Light) (s : Scene) : Scene :=
  mkScene (cam_obj s) (coll_board s) l (coll_occluder s) (film_transparent s)
    (color_mode s) (use_compositing s) (bg_image s) (filepath s) (world_color s).
Definition set_coll_occluder (o : list Obj) (s : Scene) : Scene :=
  mkScene (cam_obj s) (coll_board s) (coll_lights s) o (film_transparent s)
    (color_mode s) (use_compositing s) (bg_image s) (filepath s) (world_color s).
Definition set_render (ft : bool) (cm : ColorMode) (s : Scene) : Scene :=
  mkScene (cam_obj s) (coll_board s) (coll_lights s) (coll_occluder s) ft
    cm (use_compositing s) (bg_image s) (filepath s) (world_color s).
Definition set_use_compositing (b : bool) (s : Scene) : Scene :=
  mkScene (cam_obj s) (coll_board s) (coll_lights s) (coll_occluder s)
    (film_transparent s) (color_mode s) b (bg_image s) (filepath s) (world_color s).
Definition set_bg_image (p : string) (s : Scene) : Scene :=
  mkScene (cam_obj s) (coll_board s) (coll_lights s) (coll_occluder s)
    (film_transparent s) (color_mode s) (use_compositing s) (Some p) (filepath s)
    (world_color s).
Definition set_filepath (p : string) (s : Scene) : Scene :=
  mkScene (cam_obj s) (coll_board s) (coll_lights s) (coll_occluder s)
    (film_transparent s) (color_mode s) (use_compositing s) (bg_image s) p
    (world_color s).
Definition set_world_color (c : Q * Q * Q * Q) (s : Scene) : Scene :=
  mkScene (cam_obj s) (coll_board s) (coll_lights s) (coll_occluder s)
    (film_transparent s) (color_mode s) (use_compositing s) (bg_image s)
    (filepath s) (Some c).

(** One entry of ["objects"] in the keypoint file. *)
Record KptRecord := mkKpt { object_name : string; keypoints : list Px }.

(** The keypoint file of a frame. *)
Record KptPayload := mkPayload {
  kp_frame : nat;
  kp_image : string;
  kp_mask : string;
  kp_resolution : Z * Z;
  kp_objects : list KptRecord
}.

(** [f"{f:04d}"]. *)
Definition fmt04 (f : nat) : string :=
  let s := pretty f in
  String.concat "" (replicate (4 - String.length s) "0") +:+ s.

(** What a frame writes: the two renders and the keypoint file ([None] when
    the keypoint pass raised and nothing was written). *)
Record FrameOut (Image : Type) := mkOut {
  out_img : Image;
  out_mask : Image;
  out_kpt : option KptPayload
}.
Arguments mkOut {Image}.
Arguments out_img {Image}.
Arguments out_mask {Image}.
Arguments out_kpt {Image}.

Section Program.
Context `{Engine} {G : Type} `{PRNG G}.

(** [create_board(size)]: the reference plane, never rendered. *)
Definition create_board (size : Q * Q) (nm : string) : Obj :=
  mkObj nm MESH (0.0, 0.0, 0.0) vzero (size.1 * 0.5, size.2 * 0.5, 1.0) []
        true false (grid_vertices 1.0).

Definition board : Obj :=
  create_board (BOARD_HALF_EXTENTS.1 * 2.4, BOARD_HALF_EXTENTS.2 * 2.4) "BoardPlane".

(** [create_window_plane(size, name)]. *)
Definition create_window_plane (size : Q) (nm : string) : Obj :=
  mkObj nm MESH vzero vzero (size * 0.5, size * 0.5, 1.0) [] false false
        (grid_vertices 1.0).

(** The scene when the render loop starts. *)
Definition initial_scene : Scene :=
  mkScene (mkCamera "Camera" vzero vzero CAMERA_LENS_MM) [board] [] []
          false RGBA false None "" None.

(** [place_camera_perpendicular(cam, board_obj, dist)]. *)
Definition place_camera_perpendicular (cam : Camera) (board_obj : Obj) (dist : Q)
  : Camera :=
  let target := location board_obj in
  let n := normal_world (pose board_obj) in
  let loc := vadd target (vscale n dist) in
  let forward := normalized (vsub target loc) in
  mkCamera (cam_name cam) loc (track_euler forward) (lens cam).

(** One iteration of the loop of [spawn_random_lights]. *)
Definition spawn_light (i : nat) (lights : list Light) : State G (list Light) :=
  ltype ← choice POINT [POINT; AREA];
  x ← uniform (-3.5) 3.5;
  y ← uniform (-3.5) 3.5;
  z ← uniform 0.6 3.8;
  energy ← uniform LIGHT_ENERGY_RANGE.1 LIGHT_ENERGY_RANGE.2;
  size ← match ltype with
          | AREA => sz ← uniform LIGHT_SIZE_RANGE.1 LIGHT_SIZE_RANGE.2; mret (Some sz)
          | POINT => mret None
          end;
  r ← uniform 0.85 1.0;
  g ← uniform 0.85 1.0;
  b ← uniform 0.85 1.0;
  mret (lights ++ [mkLight ("RndLight_" +:+ pretty i) ltype (x, y, z) energy size
                           (r, g, b)]).

(** [spawn_random_lights(n)]: the old lights are removed first. *)
Definition spawn_random_lights (n : nat) : State G (list Light) :=
  for_each spawn_light (seq 0 n) [].

(** One iteration of the loop of [spawn_occluders_random]. *)
Definition spawn_occluder (board_obj : Obj) (i : nat) (occ : list Obj)
  : State G (list Obj) :=
  let n := normal_world (pose board_obj) in
  let board_center := location board_obj in
  s ← uniform OCCLUDER_SIZE_RANGE.1 OCCLUDER_SIZE_RANGE.2;
  depth ← uniform OCCLUDER_Z_OFFSET.1 OCCLUDER_Z_OFFSET.2;
  let base_pos := vsub board_center (vscale n depth) in
  px ← uniform (- BOARD_HALF_EXTENTS.1) BOARD_HALF_EXTENTS.1;
  py ← uniform (- BOARD_HALF_EXTENTS.2) BOARD_HALF_EXTENTS.2;
  mret (occ ++ [mkObj ("Occ_" +:+ pretty i) MESH (px, py, vz base_pos) vzero
                      (s, s, s) [] false false cube_vertices]).

(** [spawn_occluders_random(board_obj, n_min, n_max)], into the collection
    [clear_occluders] has emptied. *)
Definition spawn_occluders_random (board_obj : Obj) (n_min n_max : Z)
  : State G (list Obj) :=
  count ← randint n_min n_max;
  for_each (spawn_occluder board_obj) (seq 0 (Z.to_nat count)) [].

(** [random_skew()], local to [sample_window_pose_and_size]. *)
Definition random_skew : State G Vec3 :=
  rx ← uniform (- MAX_SKEW_DEG) MAX_SKEW_DEG;
  ry ← uniform (- MAX_SKEW_DEG) MAX_SKEW_DEG;
  rz ← uniform (- MAX_SKEW_DEG) MAX_SKEW_DEG;
  if Qltb (max3 (Qabs rx) (Qabs ry) (Qabs rz)) MIN_SKEW_DEG then
    axis ← choice 0%Z [0; 1; 2]%Z;
    r ← random;
    let val := MIN_SKEW_DEG * (if Qltb 0.5 r then 1 else -1) in
    mret (if (axis =? 0)%Z then (val, ry, rz)
          else if (axis =? 1)%Z then (rx, val, rz)
          else (rx, ry, val))
  else mret (rx, ry, rz).

(** [sample_window_pose_and_size()]: size, centre, rotation in degrees. *)
Definition sample_window_pose_and_size : State G (Q * Vec3 * Vec3) :=
  size ← uniform WINDOW_SIZE_RANGE.1 WINDOW_SIZE_RANGE.2;
  rdeg ← random_skew;
  cx ← uniform (- BOARD_HALF_EXTENTS.1) BOARD_HALF_EXTENTS.1;
  cy ← uniform (- BOARD_HALF_EXTENTS.2) BOARD_HALF_EXTENTS.2;
  mret (size, (cx, cy, 0.0), rdeg).

(** The three assignments of [ensure_in_fov] to the window. *)
Definition apply_pose (size : Q) (loc rdeg : Vec3) (win_obj : Obj) : Obj :=
  set_rotation_euler (radians (vx rdeg), radians (vy rdeg), radians (vz rdeg))
    (set_location loc (set_scale (size * 0.5, size * 0.5, 1.0) win_obj)).

(** [ensure_in_fov(cam, win_obj, max_tries)]: the flag, the centre, and the
    window as the calls left it.  (The with-background script returns the
    flag alone; the loop is the same.) *)
Fixpoint ensure_in_fov (cam : Camera) (win_obj : Obj) (max_tries : nat)
  : State G (bool * (Q * Q) * Obj) :=
  match max_tries with
  | O => mret (false, (0.0, 0.0), win_obj)
  | S k =>
      '(size, loc, rdeg) ← sample_window_pose_and_size;
      let win_obj := apply_pose size loc rdeg win_obj in
      if all_corners_in_frame cam (plane_world_corners win_obj)
      then mret (true, (vx loc, vy loc), win_obj)
      else ensure_in_fov cam win_obj k
  end.

(** The objects of the board collection whose name starts with [Window_]. *)
Definition is_window (objs : list Obj) (i : nat) : bool :=
  match objs !! i with
  | Some o => String.prefix "Window_" (name o)
  | None => false
  end.

Definition window_indices (objs : list Obj) : list nat :=
  List.filter (is_window objs) (seq 0 (length objs)).

(** The [while] loop of [get_or_make_windows]; it runs
    [n_needed - len(existing)] times. *)
Fixpoint make_windows (k : nat) (objs : list Obj) (existing : list nat)
  : State G (list Obj * list nat) :=
  match k with
  | O => mret (objs, existing)
  | S k' =>
      size ← uniform WINDOW_SIZE_RANGE.1 WINDOW_SIZE_RANGE.2;
      let ob := create_window_plane size
                  ("Window_" +:+ pretty (length existing + 1)%nat) in
      let ob := set_materials [Window_RGB_EmitTransp] ob in
      make_windows k' (objs ++ [ob]) (existing ++ [length objs])
  end.

(** [get_or_make_windows(n_needed)].  The windows are references into the
    board collection: positions in [objs]. *)
Definition get_or_make_windows (n_needed : nat) (objs : list Obj)
  : State G (list Obj * list nat) :=
  let existing := window_indices objs in
  '(objs, existing) ← make_windows (n_needed - length existing) objs existing;
  mret (foldl (fun os i => alter (set_hide true true) i os) objs existing,
        existing).

(** The pose the render loop gives a window [ensure_in_fov] failed on. *)
Definition fallback_pose (w : Obj) : Obj :=
  set_rotation_euler (0.0, 0.0, 0.0)
    (set_location (0.0, 0.0, 0.0) (set_scale (0.35, 0.35, 1.0) w)).

(** The body of the loop over [windows[:n_windows]]. *)
Definition place_window (cam : Camera) (i : nat) (st : list Obj * list nat)
  : State G (list Obj * list nat) :=
  let '(objs, visible_windows) := st in
  match objs !! i with
  | None => mret st
  | Some w =>
      let w := set_hide false false w in
      '(ok, _center, w) ← ensure_in_fov cam w 140;
      let w := if ok : bool then w else fallback_pose w in
      mret (<[i := w]> objs, visible_windows ++ [i])
  end.

(** The randomisation of a frame: everything before the RGB pass.  Returns
    the scene and [visible_windows]. *)
Definition randomize (script : Script) (f : nat) (s : Scene)
  : State G (Scene * list nat) :=
  dist ← uniform CAMERA_DIST_MIN CAMERA_DIST_MAX;
  let s := set_cam_obj (place_camera_perpendicular (cam_obj s) board dist) s in
  lights ← spawn_random_lights NUM_RANDOM_LIGHTS;
  let s := set_coll_lights lights s in
  n_windows ← randint 1 MAX_WINDOWS;
  '(objs, windows) ← get_or_make_windows (Z.to_nat n_windows) (coll_board s);
  '(objs, visible_windows) ←
     for_each (place_window (cam_obj s)) (take (Z.to_nat n_windows) windows)
              (objs, []);
  let s := set_coll_board objs s in
  occ ← match script with
         | NoBackground =>
             spawn_occluders_random board NUM_OCCLUDERS_MIN NUM_OCCLUDERS_MAX
         | WithBackground _ =>
             if (f <=? NUM_BASE_IMAGES)%nat
             then spawn_occluders_random board NUM_OCCLUDERS_MIN NUM_OCCLUDERS_MAX
             else spawn_occluders_random board (NUM_OCCLUDERS_MIN + 1)
                                         (NUM_OCCLUDERS_MAX + 1)
         end;
  mret (set_coll_occluder occ s, visible_windows).

(** [for w in visible_windows: w.data.materials.clear(); .append(mat)]. *)
Definition swap_materials (mat : Material) (visible_windows : list nat)
           (objs : list Obj) : list Obj :=
  foldl (fun os i => alter (set_materials [mat]) i os) objs visible_windows.

(** Entering the RGB pass, up to the render call. *)
Definition rgb_pass (script : Script) (f : nat) (visible_windows : list nat)
           (s : Scene) : State G Scene :=
  let s := set_render true RGBA s in
  s ← match script with
       | NoBackground => mret s
       | WithBackground bg_files =>
           let s := set_use_compositing true s in
           match bg_files with
           | [] => mret s
           | p :: _ => path ← choice p bg_files; mret (set_bg_image path s)
           end
       end;
  let s := set_coll_board
             (swap_materials Window_RGB_EmitTransp visible_windows (coll_board s)) s in
  mret (set_filepath ("images/img_" +:+ fmt04 f +:+ ".png") s).

(** [for o in coll_occluder.objects: if o.type == 'MESH': ...]. *)
Definition blacken (o : Obj) : Obj :=
  match otype o with
  | MESH => set_materials [Black_Emission] o
  | _ => o
  end.

(** Entering the MASK pass, up to the render call. *)
Definition mask_pass (script : Script) (f : nat) (visible_windows : list nat)
           (s : Scene) : Scene :=
  let s := match script with
           | NoBackground => s
           | WithBackground _ => set_use_compositing false s
           end in
  let s := set_render true BW s in
  let s := set_world_color (0, 0, 0, 1) s in
  let s := set_coll_board
             (swap_materials Window_MASK_Union visible_windows (coll_board s)) s in
  let s := set_coll_occluder (map blacken (coll_occluder s)) s in
  set_filepath ("masks/mask_" +:+ fmt04 f +:+ ".png") s.

(** The keypoints of one window; [None] where Python raises. *)
Definition window_keypoints (cam : Camera) (w : Obj) : option KptRecord :=
  let corners_world := plane_world_corners w in
  let pxpts := project_to_pixels cam corners_world IMG_RES.1 IMG_RES.2 in
  pxpts ← order_tl_tr_br_bl pxpts;
  Some (mkKpt (name w) pxpts).

(** The KEYPOINTS pass: one record per visible window, in order. *)
Definition keypoints_pass (visible_windows : list nat) (s : Scene)
  : option (list KptRecord) :=
  mapM (fun i => w ← coll_board s !! i; window_keypoints (cam_obj s) w)
       visible_windows.

Definition kpt_payload (f : nat) (recs : list KptRecord) : KptPayload :=
  mkPayload f ("img_" +:+ fmt04 f +:+ ".png") ("mask_" +:+ fmt04 f +:+ ".png")
            IMG_RES recs.

(** Everything of a frame after the randomisation. *)
Definition capture {Image} (render : Scene -> Image) (script : Script) (f : nat)
           (visible_windows : list nat) (s : Scene)
  : State G (Scene * FrameOut Image) :=
  s ← rgb_pass script f visible_windows s;
  let img := render s in
  let s := mask_pass script f visible_windows s in
  let msk := render s in
  let kpt := kpt_payload f <$> keypoints_pass visible_windows s in
  mret (s, mkOut img msk kpt).

(** One iteration of the render loop. *)
Definition frame {Image} (render : Scene -> Image) (script : Script) (f : nat)
           (s : Scene) : State G (Scene * FrameOut Image) :=
  '(s, visible_windows) ← randomize script f s;
  capture render script f visible_windows s.

(** The render loop over the frames [fs]; it stops at a frame whose keypoint
    pass raised. *)
Fixpoint render_loop {Image} (render : Scene -> Image) (script : Script)
         (fs : list nat) (s : Scene) : State G (list (FrameOut Image)) :=
  match fs with
  | [] => mret []
  | f :: fs' =>
      '(s, o) ← frame render script f s;
      match out_kpt o with
      | None => mret [o]
      | Some _ => rest ← render_loop render script fs' s; mret (o :: rest)
      end
  end.

(** The whole run of the first [n] frames from [random.seed(sd)]. *)
Definition run {Image} (render : Scene -> Image) (script : Script) (sd : Z)
           (n : nat) : list (FrameOut Image) :=
  (render_loop render script (seq 1 n) initial_scene (seed sd)).1.

End Program.
End Single.


(* ================================================================== *)
(** * The multi-camera script *)
(* ================================================================== *)

Module MultiCam.

Definition IMG_RES : Z * Z := (640, 648)%Z.
Definition N_CAMERAS : nat := 3.
Definition MAX_WINDOWS : nat := 4.

Inductive ColorMode := BW | RGB.

(** The [exclude] flag of the five layer collections. *)
Record Excludes := mkExcl {
  lc_backdrop : bool;
  lc_occluders : bool;
  lc_windows_rgb : bool;
  lc_windows_msk : bool;
  lc_misc : bool
}.

Record Scene := mkScene {
  camera : nat;                   (* [scene.camera], a position in [cams] *)
  cams : list Camera;
  light : Vec3 * Q;               (* the key light: location, energy *)
  backdrop : Obj;
  pairs : list (Obj * Obj);       (* the RGB window and its MASK twin *)
  occluders : list Obj;
  excludes : Excludes;
  color_mode : ColorMode;
  filepath : string;
  frame_current : nat
}.

Definition set_camera (c : nat) (s : Scene) : Scene :=
  mkScene c (cams s) (light s) (backdrop s) (pairs s) (occluders s) (excludes s)
          (color_mode s) (filepath s) (frame_current s).
Definition set_cams (c : list Camera) (s : Scene) : Scene :=
  mkScene (camera s) c (light s) (backdrop s) (pairs s) (occluders s) (excludes s)
          (color_mode s) (filepath s) (frame_current s).
Definition set_light (l : Vec3 * Q) (s : Scene) : Scene :=
  mkScene (camera s) (cams s) l (backdrop s) (pairs s) (occluders s) (excludes s)
          (color_mode s) (filepath s) (frame_current s).
Definition set_backdrop (b : Obj) (s : Scene) : Scene :=
  mkScene (camera s) (cams s) (light s) b (pairs s) (occluders s) (excludes s)
          (color_mode s) (filepath s) (frame_current s).
Definition set_pairs (p : list (Obj * Obj)) (s : Scene) : Scene :=
  mkScene (camera s) (cams s) (light s) (backdrop s) p (occluders s) (excludes s)
          (color_mode s) (filepath s) (frame_current s).
Definition set_occluders (o : list Obj) (s : Scene) : Scene :=
  mkScene (camera s) (cams s) (light s) (backdrop s) (pairs s) o (excludes s)
          (color_mode s) (filepath s) (frame_current s).
Definition set_excludes (e : Excludes) (s : Scene) : Scene :=
  mkScene (camera s) (cams s) (light s) (backdrop s) (pairs s) (occluders s) e
          (color_mode s) (filepath s) (frame_current s).
Definition set_color_mode (m : ColorMode) (s : Scene) : Scene :=
  mkScene (camera s) (cams s) (light s) (backdrop s) (pairs s) (occluders s)
          (excludes s) m (filepath s) (frame_current s).
Definition set_filepath (p : string) (s : Scene) : Scene :=
  mkScene (camera s) (cams s) (light s) (backdrop s) (pairs s) (occluders s)
          (excludes s) (color_mode s) p (frame_current s).
Definition frame_set (f : nat) (s : Scene) : Scene :=
  mkScene (camera s) (cams s) (light s) (backdrop s) (pairs s) (occluders s)
          (excludes s) (color_mode s) (filepath s) f.

(** [set_excludes_for_rgb()]. *)
Definition set_excludes_for_rgb (s : Scene) : Scene :=
  set_excludes (mkExcl false false false true false) s.

(** [set_excludes_for_mask()]. *)
Definition set_excludes_for_mask (s : Scene) : Scene :=
  set_excludes (mkExcl false true true false true) s.

Record KptRecord := mkKpt { object_name : string; keypoints : list Px }.

Record KptPayload := mkPayload {
  kp_image : string;
  kp_mask : string;
  kp_resolution : Z * Z;
  kp_camera : string;
  kp_objects : list KptRecord
}.

(** [f"{f:05d}"]. *)
Definition fmt05 (f : nat) : string :=
  let s := pretty f in
  String.concat "" (replicate (5 - String.length s) "0") +:+ s.

(** The distance test of [sample_nonoverlap],
    [((c[0]-x)**2 + (c[1]-y)**2)**0.5 >= d], with the square root taken
    exactly: [sqrt q >= d] holds iff [d <= 0] or [d * d <= q]. *)
Definition sqdist (c p : Q * Q) : Q :=
  (c.1 - p.1) * (c.1 - p.1) + (c.2 - p.2) * (c.2 - p.2).

Definition dist_ge (d : Q) (c p : Q * Q) : bool :=
  Qle_bool d 0 || Qle_bool (d * d) (sqdist c p).

(** What the loop writes for one camera. *)
Record CamOut (Image : Type) := mkOut {
  out_img : Image;
  out_mask : Image;
  out_kpt : option KptPayload
}.
Arguments mkOut {Image}.
Arguments out_img {Image}.
Arguments out_mask {Image}.
Arguments out_kpt {Image}.

Section Program.
Context `{Engine} {G : Type} `{PRNG G}.

(** [bg_material()]. *)
Definition bg_material : State G Material :=
  sc ← uniform 4 18;
  r1 ← random; g1 ← random; b1 ← random;
  r2 ← random; g2 ← random; b2 ← random;
  rough ← uniform 0.6 1.0;
  mret (BG_Mat sc (r1, g1, b1) (r2, g2, b2) rough).

(** [create_plane(size, name)]. *)
Definition create_plane (size : Q) (nm : string) : Obj :=
  mkObj nm MESH vzero vzero (1, 1, 1) [] false false (grid_vertices size).

(** [make_window_pair(name)]. *)
Definition make_window_pair (nm : string) : Obj * Obj :=
  (mkObj (nm +:+ "_RGB") MESH vzero vzero (1, 1, 1) [Window_RGB_Mat] false false
         (grid_vertices 0.5),
   mkObj (nm +:+ "_MSK") MESH vzero vzero (1, 1, 1) [Window_MASK_Mat] false false
         (grid_vertices 0.5)).

(** The scene when the main loop starts. *)
Definition initial_scene : State G Scene :=
  m ← bg_material;
  let bd := set_materials [m] (set_location (0, 0, -1.0) (create_plane 5.0 "Backdrop")) in
  mret (mkScene 0
          (map (fun i => mkCamera ("Camera" +:+ pretty (i + 1)%nat) vzero vzero 50)
               (seq 0 N_CAMERAS))
          (vzero, 10) bd
          (map (fun i => make_window_pair ("window_" +:+ pretty (i + 1)%nat))
               (seq 0 MAX_WINDOWS))
          [] (mkExcl false false false false false) RGB "" 1%nat).

(** [refresh_backdrop()]. *)
Definition refresh_backdrop (s : Scene) : State G Scene :=
  m ← bg_material;
  mret (set_backdrop (set_materials [m] (backdrop s)) s).

(** [randomize_light()]. *)
Definition randomize_light (s : Scene) : State G Scene :=
  x ← uniform (-2.5) 2.5;
  y ← uniform (-2.5) 2.5;
  z ← uniform 1.5 3.5;
  e ← uniform 600 1600;
  mret (set_light ((x, y, z), e) s).

(** [set_cam_orbit(cam, dist, az, el)]. *)
Definition set_cam_orbit (cam : Camera) (dist az el : Q) : State G Camera :=
  let az := radians az in
  let el := radians el in
  let pos := (dist * cos el * cos az, dist * cos el * sin az, dist * sin el) in
  l ← uniform 35 60;
  mret (mkCamera (cam_name cam) pos (track_euler (vsub (0, 0, 0) pos)) l).

(** The loop of [randomize_cameras] over [enumerate(cams)]. *)
Fixpoint orbit_cameras (bd be ba step : Q) (i : nat) (cs : list Camera)
  : State G (list Camera) :=
  match cs with
  | [] => mret []
  | cam :: rest =>
      dd ← uniform (-0.2) 0.2;
      da ← uniform (-12) 12;
      de ← uniform (-6) 6;
      cam' ← set_cam_orbit cam (bd + dd) (ba + inject_Z (Z.of_nat i) * step + da)
                           (be + de);
      rest' ← orbit_cameras bd be ba step (S i) rest;
      mret (cam' :: rest')
  end.

(** [randomize_cameras()]. *)
Definition randomize_cameras (s : Scene) : State G Scene :=
  bd ← uniform 1.6 2.8;
  be ← uniform 20 55;
  ba ← uniform (-180) 180;
  let step := 360.0 / inject_Z (Z.of_nat N_CAMERAS) in
  cs ← orbit_cameras bd be ba step 0 (cams s);
  mret (set_cams cs s).

(** The [while] loop of [sample_nonoverlap]: [fuel] is [250 - tries]. *)
Fixpoint sample_loop (fuel n : nat) (d : Q) (pts : list (Q * Q))
  : State G (list (Q * Q)) :=
  match fuel with
  | O => mret pts
  | S k =>
      if (length pts <? n)%nat then
        cx ← uniform (-0.9) 0.9;
        cy ← uniform (-0.6) 0.6;
        let c := (cx, cy) in
        if forallb (dist_ge d c) pts
        then sample_loop k n d (pts ++ [c])
        else sample_loop k n d pts
      else mret pts
  end.

(** [sample_nonoverlap(n, d)]. *)
Definition sample_nonoverlap (n : nat) (d : Q) : State G (list (Q * Q)) :=
  sample_loop 250 n d [].

(** The body of the loop of [place_windows] for the pair at [idx]. *)
Definition place_pair (centers : list (Q * Q)) (idx : nat) (p : Obj * Obj)
  : State G (Obj * Obj) :=
  let '(r, m) := p in
  let vis := (idx <? length centers)%nat in
  let r := set_hide (negb vis) (negb vis) r in
  let m := set_hide (negb vis) (negb vis) m in
  if vis then
    a ← uniform (-25) 25; let rx := radians a in
    b ← uniform (-25) 25; let ry := radians b in
    c ← uniform 0 360;    let rz := radians c in
    s ← uniform 0.7 1.25;
    let r := set_scale (s, s, s) (set_rotation_euler (rx, ry, rz) r) in
    let ctr := nth idx centers (0, 0) in
    z ← uniform (-0.02) 0.02;
    mret (set_location (ctr.1, ctr.2, z) r, m)
  else mret (r, m).

Fixpoint place_loop (centers : list (Q * Q)) (idx : nat) (ps : list (Obj * Obj))
  : State G (list (Obj * Obj)) :=
  match ps with
  | [] => mret []
  | p :: rest =>
      p' ← place_pair centers idx p;
      rest' ← place_loop centers (S idx) rest;
      mret (p' :: rest')
  end.

(** [sync_twins()]. *)
Definition sync_twins (ps : list (Obj * Obj)) : list (Obj * Obj) :=
  map (fun p : Obj * Obj =>
         (p.1, set_scale (scale p.1)
                 (set_rotation_euler (rotation_euler p.1)
                    (set_location (location p.1) p.2)))) ps.

(** [place_windows(n)]. *)
Definition place_windows (n : nat) (s : Scene) : State G Scene :=
  centers ← sample_nonoverlap n 0.38;
  ps ← place_loop centers 0 (pairs s);
  mret (set_pairs (sync_twins ps) s).

(** [cleanup_occluders()]. *)
Definition cleanup_occluders (s : Scene) : Scene :=
  set_occluders
    (List.filter (fun o => negb (String.prefix "occ_" (name o))) (occluders s)) s.

(** [spawn_occluder()]. *)
Definition spawn_occluder (_ : nat) (s : Scene) : State G Scene :=
  k ← randint 0 1000000;
  let nm := "occ_" +:+ pretty k in
  sc ← uniform 0.05 0.30;
  x ← uniform (-0.9) 0.9;
  y ← uniform (-0.6) 0.6;
  z ← uniform (-0.2) 0.5;
  r ← random; g ← random; b ← random;
  mret (set_occluders
          (occluders s ++
           [mkObj nm MESH (x, y, z) vzero (sc, sc, sc) [Occ_Mat (nm +:+ "Mat") (r, g, b)]
                  false false cube_vertices]) s).

(** The randomisation of a frame: everything before the camera loop. *)
Definition randomize (f : nat) (s : Scene) : State G Scene :=
  let s := frame_set f s in
  s ← refresh_backdrop s;
  s ← randomize_light s;
  s ← randomize_cameras s;
  n ← randint 1 (Z.of_nat MAX_WINDOWS);
  s ← place_windows (Z.to_nat n) s;
  let s := cleanup_occluders s in
  k ← randint 0 2;
  for_each spawn_occluder (seq 0 (Z.to_nat k)) s.

(** The keypoints of one RGB window; [None] where Python raises. *)
Definition window_keypoints (cam : Camera) (r : Obj) : option KptRecord :=
  let px := project_pixels cam (plane_world_corners r) IMG_RES.1 IMG_RES.2 in
  px ← order_tl_tr_br_bl px;
  Some (mkKpt (name r) px).

(** The KEYPOINTS block: the pairs whose RGB window is not hidden. *)
Definition keypoints_pass (cam : Camera) (s : Scene) : option (list KptRecord) :=
  mapM (fun p : Obj * Obj => window_keypoints cam p.1)
       (List.filter (fun p : Obj * Obj => negb (hide_render p.1)) (pairs s)).

Definition stem (ci f : nat) : string := "c" +:+ pretty ci +:+ "_" +:+ fmt05 f.

(** Entering the RGB pass for camera number [ci], up to the render call. *)
Definition rgb_pass (ci f : nat) (s : Scene) : Scene :=
  let s := set_camera (ci - 1) s in
  let s := set_color_mode RGB s in
  let s := set_excludes_for_rgb s in
  set_filepath ("images/img_" +:+ stem ci f +:+ ".png") s.

(** Entering the MASK pass, up to the render call. *)
Definition mask_pass (ci f : nat) (s : Scene) : Scene :=
  let s := set_color_mode BW s in
  let s := set_excludes_for_mask s in
  set_filepath ("masks/mask_" +:+ stem ci f +:+ ".png") s.

(** The body of the loop over [enumerate(cams, start=1)]. *)
Definition camera_pass {Image} (render : Scene -> Image) (f : nat)
           (ci : nat) (cam : Camera) (s : Scene) : Scene * CamOut Image :=
  let s := rgb_pass ci f s in
  let img := render s in
  let s := mask_pass ci f s in
  let msk := render s in
  let kpt := (fun rec => mkPayload ("img_" +:+ stem ci f +:+ ".png")
                           ("mask_" +:+ stem ci f +:+ ".png") IMG_RES
                           ("Camera" +:+ pretty ci) rec)
             <$> keypoints_pass cam s in
  (s, mkOut img msk kpt).

(** The loop over [enumerate(cams, start=1)]; it stops at a camera whose
    keypoint block raised. *)
Fixpoint camera_loop {Image} (render : Scene -> Image) (f ci : nat)
         (cs : list Camera) (s : Scene) : Scene * list (CamOut Image) :=
  match cs with
  | [] => (s, [])
  | cam :: rest =>
      let '(s, o) := camera_pass render f ci cam s in
      match out_kpt o with
      | None => (s, [o])
      | Some _ => let '(s, os) := camera_loop render f (S ci) rest s in (s, o :: os)
      end
  end.

(** One iteration of the main loop. *)
Definition frame {Image} (render : Scene -> Image) (f : nat) (s : Scene)
  : State G (Scene * list (CamOut Image)) :=
  s ← randomize f s;
  mret (camera_loop render f 1 (cams s) s).

End Program.
End MultiCam.

(* ================================================================== *)
(** * A small concrete engine and generator, to run the model on *)
(* ================================================================== *)

Module Demo.

(** A generator that replays a tape of floats in [[0, 1)]; past its end it
    returns [0].  [_randbelow(n)] is [floor(n * r)]. *)
Definition Tape : Type := list Q.

#[global] Instance tape_prng : PRNG Tape := {|
  seed := fun _ => [];
  random := fun t => match t with [] => (0, []) | r :: t' => (r, t') end;
  randbelow := fun n t =>
    match t with [] => (0%Z, []) | r :: t' => (Qfloor (inject_Z n * r), t') end
|}.

(** An orthographic camera looking down [-Z] over an 8 by 8 metre field,
    and objects that are scaled and translated but never turned. *)
Definition ortho : Engine := {|
  world_to_camera_view := fun cam p =>
    (vx p / 8 + 0.5, vy p / 8 + 0.5, vz (cam_location cam) - vz p);
  matrix_world := fun ps v =>
    (vx ps.1.1 + vx ps.2 * vx v, vy ps.1.1 + vy ps.2 * vy v,
     vz ps.1.1 + vz ps.2 * vz v);
  normal_world := fun _ => (0, 0, 1);
  normalized := fun v => v;
  track_euler := fun _ => vzero;
  radians := fun a => a * (355 # 113) / 180;
  cos := fun _ => 1;
  sin := fun _ => 0;
  grid_vertices := fun s => [(- s, - s, 0); (s, - s, 0); (- s, s, 0); (s, s, 0)];
  cube_vertices := []
|}.

Definition demo_camera : Camera := mkCamera "Camera" (0, 0, 5) vzero 45.

Definition demo_window : Obj :=
  mkObj "Window_1" MESH vzero vzero (1, 1, 1) [Window_RGB_EmitTransp] true true
        [(-1, -1, 0); (1, -1, 0); (-1, 1, 0); (1, 1, 0)].

(** The same field seen from so far to the side that no window is in view. *)
Definition blind : Engine := {|
  world_to_camera_view := fun cam p => (vx p / 8 + 5, vy p / 8 + 0.5, 1);
  matrix_world := @matrix_world ortho;
  normal_world := @normal_world ortho;
  normalized := @normalized ortho;
  track_euler := @track_euler ortho;
  radians := @radians ortho;
  cos := @cos ortho;
  sin := @sin ortho;
  grid_vertices := @grid_vertices ortho;
  cube_vertices := @cube_vertices ortho
|}.

(** A multi-camera scene with one occluder, as [spawn_occluder] makes them. *)
Definition demo_occluder : Obj :=
  mkObj "occ_7" MESH (0.1, 0.1, 0.3) vzero (0.2, 0.2, 0.2)
        [Occ_Mat "occ_7Mat" (0.9, 0.1, 0.1)] false false [].

Definition demo_backdrop : Obj :=
  mkObj "Backdrop" MESH (0, 0, -1.0) vzero (1, 1, 1)
        [BG_Mat 9 (0.2, 0.4, 0.6) (0.8, 0.7, 0.1) 0.8] false false [].

Definition demo_mc_scene : MultiCam.Scene :=
  MultiCam.mkScene 0 [demo_camera] (vzero, 1000) demo_backdrop
    [(demo_window, demo_window)] [demo_occluder]
    (MultiCam.mkExcl false false false false false) MultiCam.RGB "" 1%nat.

End Demo.

(* ================================================================== *)
(** * Predicates the statements below are written with *)
(* ================================================================== *)

Module Props.

(** A pixel inside the [W] by [Ht] image. *)
Definition in_image (W Ht : Z) (p : Px) : Prop :=
  (0 <= p.1 <= W - 1 /\ 0 <= p.2 <= Ht - 1)%Z.

(** Visible, as the specification defines it. *)
Definition visible (uvw : Vec3) : Prop :=
  0 <= vx uvw /\ vx uvw <= 1 /\ 0 <= vy uvw /\ vy uvw <= 1 /\ 0 < vz uvw.

(** Where [to_pixel] would put a point without the clamp. *)
Definition unclamped (uvw : Vec3) (W Ht : Z) : Px :=
  (py_round (vx uvw * inject_Z (W - 1)),
   py_round ((1 - vy uvw) * inject_Z (Ht - 1))).

(** The pixel mapping of the multi-camera script, in the words of the
    specification but for the flip. *)
Definition to_pixel_noflip (u v : Q) (W Ht : Z) : Px :=
  (clamp_into 0 (W - 1) (py_round (u * inject_Z (W - 1))),
   clamp_into 0 (Ht - 1) (py_round (v * inject_Z (Ht - 1)))).

(** The occluders of the multi-camera scene are set to render black. *)
Definition occluders_black (s : MultiCam.Scene) : Prop :=
  Forall (fun o => materials o = [Black_Emission]) (MultiCam.occluders s).

(** The pose of a twin is the pose of its RGB window. *)
Definition twins_synced (ps : list (Obj * Obj)) : Prop :=
  Forall (fun p : Obj * Obj => pose p.2 = pose p.1) ps.

(** Every MASK twin carries the mask material. *)
Definition twins_masked (ps : list (Obj * Obj)) : Prop :=
  Forall (fun p : Obj * Obj => materials p.2 = [Window_MASK_Mat]) ps.

(** The centres are pairwise at least [d] apart, in Euclidean distance. *)
Definition separated (d : Q) (pts : list (Q * Q)) : Prop :=
  forall i j p q, i <> j -> pts !! i = Some p -> pts !! j = Some q ->
                  (Q2R d <= sqrt (Q2R (MultiCam.sqdist p q)))%R.

(** A pair is visible when its RGB window and its twin are shown. *)
Definition pair_visible (p : Obj * Obj) : bool :=
  negb (hide_render p.1) && negb (hide_viewport p.1) &&
  negb (hide_render p.2) && negb (hide_viewport p.2).

(** A pair is hidden when its RGB window and its twin are both hidden. *)
Definition pair_hidden (p : Obj * Obj) : bool :=
  hide_render p.1 && hide_viewport p.1 && hide_render p.2 && hide_viewport p.2.

(** Every later centre was tested against every earlier one. *)
Definition tested (d : Q) (pts : list (Q * Q)) : Prop :=
  forall i j p q, (i < j)%nat -> pts !! i = Some p -> pts !! j = Some q ->
                  MultiCam.dist_ge d q p = true.

(** A window the render loop has placed: shown, and either in the frame or
    in the fallback pose. *)
Definition placed `{Engine} (cam : Camera) (w : Obj) : Prop :=
  hide_render w = false /\ hide_viewport w = false /\
  (all_corners_in_frame cam (plane_world_corners w) = true \/
   pose w = ((0.0, 0.0, 0.0), (0.0, 0.0, 0.0), (0.35, 0.35, 1.0))).

(** The references into the board collection are distinct and valid. *)
Definition refs_ok (objs : list Obj) (l : list nat) : Prop :=
  NoDup l /\ Forall (fun i => (i < length objs)%nat) l.

End Props.
Export Props.

(* ================================================================== *)
(** * What the scripts take for granted of the libraries *)
(* ================================================================== *)

Module Laws.

(** Python's generator: [random()] is in [[0, 1)] and [_randbelow(n)] in
    [[0, n)]. *)
Definition lawful {G : Type} `{PRNG G} : Prop :=
  (forall g : G, 0 <= (random g).1 /\ (random g).1 < 1) /\
  (forall (n : Z) (g : G), (0 < n)%Z -> (0 <= (randbelow n g).1 < n)%Z).

(** The grid of one segment each way is a quad. *)
Definition quad_grid `{Engine} : Prop :=
  forall size : Q, length (grid_vertices size) = 4%nat.

(** A generator that always returns the least value. *)
Definition least_prng : PRNG unit := {|
  seed := fun _ => tt;
  random := fun g => (0, g);
  randbelow := fun _ g => (0%Z, g)
|}.

(** A value drawn by [random.uniform(a, b)] with [a <= b]. *)
Definition between (a b x : Q) : Prop := a <= x /\ x <= b.

(** The three angles of a rotation are within [MAX_SKEW_DEG]. *)
Definition skew_bounded (rdeg : Vec3) : Prop :=
  Qabs (vx rdeg) <= Single.MAX_SKEW_DEG /\
  Qabs (vy rdeg) <= Single.MAX_SKEW_DEG /\
  Qabs (vz rdeg) <= Single.MAX_SKEW_DEG.

(** A point of the board plane within [BOARD_HALF_EXTENTS]. *)
Definition on_board (loc : Vec3) : Prop :=
  between (- Single.BOARD_HALF_EXTENTS.1) Single.BOARD_HALF_EXTENTS.1 (vx loc) /\
  between (- Single.BOARD_HALF_EXTENTS.2) Single.BOARD_HALF_EXTENTS.2 (vy loc) /\
  vz loc = 0.0.

(** A centre within the placement bounds of the multi-camera script. *)
Definition in_field (c : Q * Q) : Prop :=
  between (-0.9) 0.9 c.1 /\ between (-0.6) 0.6 c.2.

(** Every object of the collection has four vertices or more. *)
Definition quads (objs : list Obj) : Prop :=
  Forall (fun o => (4 <= length (vertices o))%nat) objs.

(** The window the body of the placement loop writes back for [w]. *)
Definition placed_window `{Engine} {G : Type} `{PRNG G}
           (cam : Camera) (w : Obj) (g : G) : Obj :=
  let e := (Single.ensure_in_fov cam (set_hide false false w) 140 g).1 in
  if e.1.1 then e.2 else Single.fallback_pose e.2.

(** The object is one of the pooled windows, by its name. *)
Definition named_window (o : Obj) : bool := String.prefix "Window_" (name o).

(** The object is one of the spawned occluders, by its name. *)
Definition named_occluder (o : Obj) : bool := String.prefix "occ_" (name o).

(** The pair's RGB window is rendered. *)
Definition shown (p : Obj * Obj) : bool := negb (hide_render p.1).

(** A multi-camera scene whose one window pair is shown. *)
Definition shown_scene : MultiCam.Scene :=
  MultiCam.mkScene 0 [Demo.demo_camera] (vzero, 1000) Demo.demo_backdrop
    [(set_hide false false Demo.demo_window, set_hide false false Demo.demo_window)]
    [Demo.demo_occluder]
    (MultiCam.mkExcl false false false false false) MultiCam.RGB "" 1%nat.

End Laws.
Export Laws.

(* ================================================================== *)
(** * Basic facts *)
(* ================================================================== *)

Lemma Qltb_lt (a b : Q) : Qltb a b = true <-> a < b.
Proof.
  unfold Qltb. rewrite negb_true_iff. split.
  - intros Hf. apply Qnot_le_lt. intros Hle.
    apply Qle_bool_iff in Hle. congruence.
  - intros Hlt. destruct (Qle_bool b a) eqn:E; [|reflexivity].
    apply Qle_bool_iff in E. exfalso. eapply Qlt_not_le; eauto.
Qed.

Lemma Qltb_ge (a b : Q) : Qltb a b = false <-> b <= a.
Proof.
  unfold Qltb. rewrite negb_false_iff. apply Qle_bool_iff.
Qed.

Lemma clamp0_range (hi x : Z) : (0 <= hi -> 0 <= clamp0 hi x <= hi)%Z.
Proof. unfold clamp0. lia. Qed.

Lemma clamp0_clamp_into (hi x : Z) :
  (0 <= hi)%Z -> clamp0 hi x = clamp_into 0 hi x.
Proof.
  intros Hhi. unfold clamp0, clamp_into.
  destruct (Z.ltb_spec x 0); [lia|].
  destruct (Z.ltb_spec hi x); lia.
Qed.

Lemma in_frame_visible (uvw : Vec3) : in_frame uvw = true <-> visible uvw.
Proof.
  unfold in_frame, visible.
  rewrite !andb_true_iff, !Qle_bool_iff, Qltb_lt. tauto.
Qed.

(* ================================================================== *)
(** * The pixel mapping *)
(* ================================================================== *)

Lemma to_pixel_in_image (uvw : Vec3) (W Ht : Z) :
  (1 <= W)%Z -> (1 <= Ht)%Z -> in_image W Ht (to_pixel uvw W Ht).
Proof.
  intros HW HH. unfold in_image, to_pixel. simpl.
  split; apply clamp0_range; lia.
Qed.

Lemma to_pixel_mc_in_image (uvw : Vec3) (W Ht : Z) :
  (1 <= W)%Z -> (1 <= Ht)%Z -> in_image W Ht (to_pixel_mc uvw W Ht).
Proof.
  intros HW HH. unfold in_image, to_pixel_mc. simpl.
  split; apply clamp0_range; lia.
Qed.

Lemma to_pixel_is_spec (uvw : Vec3) (W Ht : Z) :
  (1 <= W)%Z -> (1 <= Ht)%Z ->
  to_pixel uvw W Ht = to_pixel_spec (vx uvw) (vy uvw) W Ht.
Proof.
  intros HW HH. unfold to_pixel, to_pixel_spec.
  rewrite !clamp0_clamp_into by lia. reflexivity.
Qed.

Lemma to_pixel_mc_is_noflip (uvw : Vec3) (W Ht : Z) :
  (1 <= W)%Z -> (1 <= Ht)%Z ->
  to_pixel_mc uvw W Ht = to_pixel_noflip (vx uvw) (vy uvw) W Ht.
Proof.
  intros HW HH. unfold to_pixel_mc, to_pixel_noflip.
  rewrite !clamp0_clamp_into by lia. reflexivity.
Qed.

(** C2, as the code has it.  In the single-camera scripts every projected
    point is mapped to [x = round(u (W-1))], [y = round((1-v) (H-1))], each
    clamped into the image.  The multi-camera script clamps the same way but
    maps [y = round(v (H-1))]: it does not flip the vertical axis. *)
Theorem pixel_mapping_by_script (W Ht : Z) (HW : (1 <= W)%Z) (HH : (1 <= Ht)%Z) :
  (forall (E : Engine) cam wpts,
      project_to_pixels cam wpts W Ht =
      map (fun wp => let uvw := world_to_camera_view cam wp in
                     to_pixel_spec (vx uvw) (vy uvw) W Ht) wpts) /\
  (forall (E : Engine) cam wpts,
      project_pixels cam wpts W Ht =
      map (fun wp => let uvw := world_to_camera_view cam wp in
                     to_pixel_noflip (vx uvw) (vy uvw) W Ht) wpts).
Proof.
  split; intros E cam wpts.
  - unfold project_to_pixels. apply map_ext. intros wp. simpl.
    apply to_pixel_is_spec; assumption.
  - unfold project_pixels. apply map_ext. intros wp. simpl.
    apply to_pixel_mc_is_noflip; assumption.
Qed.

Lemma pixel_mapping_by_script_witness :
  (forall (E : Engine) cam wpts,
      project_to_pixels cam wpts 640 648 =
      map (fun wp => let uvw := world_to_camera_view cam wp in
                     to_pixel_spec (vx uvw) (vy uvw) 640 648) wpts) /\
  (forall (E : Engine) cam wpts,
      project_pixels cam wpts 640 648 =
      map (fun wp => let uvw := world_to_camera_view cam wp in
                     to_pixel_noflip (vx uvw) (vy uvw) 640 648) wpts).
Proof. apply (pixel_mapping_by_script 640 648); lia. Defined.

(** C2 as stated fails: the multi-camera script maps the point at the
    bottom-left of the view, [(u, v) = (0, 0)], to the pixel [(0, 0)], where
    the flipped mapping gives [(0, 647)]. *)
Lemma project_pixels_does_not_flip :
  ~ (forall (E : Engine) cam wpts (W Ht : Z),
        (1 <= W)%Z -> (1 <= Ht)%Z ->
        project_pixels cam wpts W Ht =
        map (fun wp => let uvw := world_to_camera_view cam wp in
                       to_pixel_spec (vx uvw) (vy uvw) W Ht) wpts).
Proof.
  intros Hall.
  specialize (Hall Demo.ortho Demo.demo_camera [(-4, -4, 0)] 640%Z 648%Z).
  vm_compute in Hall.
  assert (H1 : (1 ?= 640)%Z = Gt -> False) by discriminate.
  assert (H2 : (1 ?= 648)%Z = Gt -> False) by discriminate.
  specialize (Hall H1 H2). discriminate Hall.
Qed.

(* ================================================================== *)
(** * The corner ordering *)
(* ================================================================== *)

Section SortedFacts.
Context {A K : Type} (leb : K -> K -> bool) (key : A -> K).
Hypothesis leb_total : forall a b, leb a b = true \/ leb b a = true.
Hypothesis leb_trans : forall a b c, leb a b = true -> leb b c = true -> leb a c = true.

Let le (x y : A) : Prop := leb (key x) (key y) = true.

Lemma insert_sorted_perm (x : A) (l : list A) :
  Permutation (insert_sorted leb key x l) (x :: l).
Proof.
  induction l as [|y l IH]; simpl; [reflexivity|].
  destruct (leb (key x) (key y)); [reflexivity|].
  rewrite IH. apply perm_swap.
Qed.

Lemma sorted_perm (l : list A) : Permutation (sorted leb key l) l.
Proof.
  induction l as [|x l IH]; simpl; [reflexivity|].
  unfold sorted in *. simpl. rewrite insert_sorted_perm. now rewrite IH.
Qed.

Lemma insert_sorted_ordered (x : A) (l : list A) :
  StronglySorted le l -> StronglySorted le (insert_sorted leb key x l).
Proof.
  induction 1 as [|y l Hs IH Hy]; simpl.
  - constructor; constructor.
  - destruct (leb (key x) (key y)) eqn:E.
    + constructor; [constructor; assumption|].
      constructor; [exact E|].
      eapply Forall_impl; [exact Hy|]. intros z Hz. unfold le in *.
      eapply leb_trans; eauto.
    + constructor; [assumption|].
      rewrite insert_sorted_perm. constructor; [|assumption].
      unfold le. destruct (leb_total (key x) (key y)); congruence.
Qed.

Lemma sorted_ordered (l : list A) : StronglySorted le (sorted leb key l).
Proof.
  induction l as [|x l IH]; [constructor|].
  unfold sorted in *. simpl. now apply insert_sorted_ordered.
Qed.

End SortedFacts.

Lemma pair_leb_total (a b : Z * Z) : pair_leb a b = true \/ pair_leb b a = true.
Proof.
  unfold pair_leb.
  destruct (Z.ltb_spec a.1 b.1), (Z.ltb_spec b.1 a.1),
           (Z.eqb_spec a.1 b.1), (Z.eqb_spec b.1 a.1),
           (Z.leb_spec a.2 b.2), (Z.leb_spec b.2 a.2); simpl; auto; lia.
Qed.

Lemma pair_leb_trans (a b c : Z * Z) :
  pair_leb a b = true -> pair_leb b c = true -> pair_leb a c = true.
Proof.
  unfold pair_leb.
  destruct (Z.ltb_spec a.1 b.1), (Z.ltb_spec b.1 c.1), (Z.ltb_spec a.1 c.1),
           (Z.eqb_spec a.1 b.1), (Z.eqb_spec b.1 c.1), (Z.eqb_spec a.1 c.1),
           (Z.leb_spec a.2 b.2), (Z.leb_spec b.2 c.2), (Z.leb_spec a.2 c.2);
    simpl; auto; try discriminate; lia.
Qed.

Lemma pair_leb_fst (a b : Z * Z) : pair_leb a b = true -> (a.1 <= b.1)%Z.
Proof.
  unfold pair_leb.
  destruct (Z.ltb_spec a.1 b.1), (Z.eqb_spec a.1 b.1); simpl;
    try discriminate; lia.
Qed.

(** Sorting two points by [x]. *)
Lemma sorted_by_x_two (p q : Px) :
  exists l r, sorted Z.leb (fun p : Px => p.1) [p; q] = [l; r] /\
              (l.1 <= r.1)%Z /\ Permutation [l; r] [p; q].
Proof.
  unfold sorted. simpl. destruct (Z.leb_spec p.1 q.1).
  - exists p, q. repeat split; [assumption|reflexivity].
  - exists q, p. repeat split; [lia|apply perm_swap].
Qed.

(** What [order_tl_tr_br_bl] does on four points: it returns them all, the
    two with the largest [y] first, each pair by ascending [x] with the
    second pair reversed. *)
Lemma order_largest_y_first (a b c d : Px) :
  exists out, order_tl_tr_br_bl [a; b; c; d] = Some out /\
              largest_y_first out /\ Permutation out [a; b; c; d].
Proof.
  unfold order_tl_tr_br_bl.
  set (key := fun p : Px => ((- p.2)%Z, p.1)).
  pose proof (sorted_perm pair_leb key [a; b; c; d]) as Hp.
  pose proof (sorted_ordered pair_leb key pair_leb_total pair_leb_trans
                             [a; b; c; d]) as Hs.
  pose proof (Permutation_length Hp) as Hl.
  destruct (sorted pair_leb key [a; b; c; d]) as [|s0 [|s1 [|s2 [|s3 [|? ?]]]]];
    try discriminate Hl.
  simpl take. simpl drop.
  destruct (sorted_by_x_two s0 s1) as (t0 & t1 & -> & Ht & Hpt).
  destruct (sorted_by_x_two s2 s3) as (b0 & b1 & -> & Hb & Hpb).
  exists [t0; t1; b1; b0]. split; [reflexivity|].
  inversion Hs as [|? ? Hs1 H0]; subst.
  inversion Hs1 as [|? ? Hs2 H1]; subst.
  inversion H0 as [|? ? H01 H0']; subst. inversion H0' as [|? ? H02 H0'']; subst.
  inversion H0'' as [|? ? H03 _]; subst.
  inversion H1 as [|? ? H12 H1']; subst. inversion H1' as [|? ? H13 _]; subst.
  apply pair_leb_fst in H02, H03, H12, H13. unfold key in *. simpl in *.
  assert (Hy : forall t bq, t ∈ [s0; s1] -> bq ∈ [s2; s3] -> (bq.2 <= t.2)%Z).
  { intros t bq Ht' Hb'. rewrite !elem_of_cons, elem_of_nil in Ht', Hb'.
    destruct Ht' as [->|[->|[]]], Hb' as [->|[->|[]]]; lia. }
  assert (Ht0 : t0 ∈ [s0; s1]) by (rewrite <- Hpt; apply elem_of_cons; auto).
  assert (Ht1 : t1 ∈ [s0; s1])
    by (rewrite <- Hpt; rewrite !elem_of_cons; auto).
  assert (Hb0 : b0 ∈ [s2; s3]) by (rewrite <- Hpb; apply elem_of_cons; auto).
  assert (Hb1 : b1 ∈ [s2; s3])
    by (rewrite <- Hpb; rewrite !elem_of_cons; auto).
  split.
  - unfold largest_y_first. repeat split; auto.
  - rewrite <- Hp.
    change [t0; t1; b1; b0] with ([t0; t1] ++ [b1; b0]).
    change [s0; s1; s2; s3] with ([s0; s1] ++ [s2; s3]).
    apply Permutation_app; [assumption|].
    rewrite <- Hpb. apply perm_swap.
Qed.

(** C3 at a frontal window.  The four corners of a window that faces the
    camera, as image pixels with [y] growing downward: the two at [y = 200]
    are the bottom ones.  The result starts with these two (the largest
    [y]): it is [BL, BR, TR, TL], not [TL, TR, BR, BL]. *)
Theorem order_puts_bottom_corners_first :
  order_tl_tr_br_bl [(100, 200); (200, 200); (100, 100); (200, 100)]%Z
  = Some [(100, 200); (200, 200); (200, 100); (100, 100)]%Z /\
  ~ top_first [(100, 200); (200, 200); (200, 100); (100, 100)]%Z /\
  largest_y_first [(100, 200); (200, 200); (200, 100); (100, 100)]%Z.
Proof.
  split; [reflexivity|]. split.
  - unfold top_first. simpl. lia.
  - unfold largest_y_first. simpl. lia.
Qed.

(* ================================================================== *)
(** * The emitted keypoints *)
(* ================================================================== *)

(** The ordering returns points of its argument. *)
Lemma order_elements (l out : list Px) :
  order_tl_tr_br_bl l = Some out -> Forall (fun p => p ∈ l) out.
Proof.
  unfold order_tl_tr_br_bl.
  set (s := sorted pair_leb _ l).
  assert (Hp : Permutation (sorted Z.leb (fun p : Px => p.1) (take 2 s) ++
                            sorted Z.leb (fun p : Px => p.1) (drop 2 s)) l).
  { rewrite !sorted_perm, take_drop. apply sorted_perm. }
  destruct (sorted Z.leb _ (take 2 s)) as [|t0 [|t1 [|? ?]]]; try discriminate.
  destruct (sorted Z.leb _ (drop 2 s)) as [|b0 [|b1 rest]]; try discriminate.
  intros Ho. injection Ho as <-.
  repeat constructor; rewrite <- Hp; rewrite !elem_of_app, !elem_of_cons; auto.
Qed.

Lemma single_keypoints_in_image `{Engine} (cam : Camera) (w : Obj)
      (r : Single.KptRecord) :
  Single.window_keypoints cam w = Some r ->
  Forall (in_image 640 648) (Single.keypoints r).
Proof.
  unfold Single.window_keypoints. intros Hr.
  destruct (order_tl_tr_br_bl _) as [out|] eqn:Eo; [|discriminate].
  simpl in Hr. injection Hr as <-. simpl.
  apply order_elements in Eo.
  eapply Forall_impl; [exact Eo|]. intros p Hp. simpl in Hp.
  unfold project_to_pixels in Hp. apply list_elem_of_In, in_map_iff in Hp.
  destruct Hp as (wp & <- & _).
  apply to_pixel_in_image; unfold Single.IMG_RES; simpl; lia.
Qed.

Lemma multicam_keypoints_in_image `{Engine} (cam : Camera) (w : Obj)
      (r : MultiCam.KptRecord) :
  MultiCam.window_keypoints cam w = Some r ->
  Forall (in_image 640 648) (MultiCam.keypoints r).
Proof.
  unfold MultiCam.window_keypoints. intros Hr.
  destruct (order_tl_tr_br_bl _) as [out|] eqn:Eo; [|discriminate].
  simpl in Hr. injection Hr as <-. simpl.
  apply order_elements in Eo.
  eapply Forall_impl; [exact Eo|]. intros p Hp. simpl in Hp.
  unfold project_pixels in Hp. apply list_elem_of_In, in_map_iff in Hp.
  destruct Hp as (wp & <- & _).
  apply to_pixel_mc_in_image; unfold MultiCam.IMG_RES; simpl; lia.
Qed.



(** The first frame of the no-background script on the demonstration
    engine: the record starts with the two corners of largest [y]. *)
Example demo_first_frame_keypoints :
  map (fun o => Single.kp_objects <$> Single.out_kpt o)
      (@Single.run Demo.ortho _ Demo.tape_prng unit (fun _ => tt)
                   Single.NoBackground 11 1)
  = [Some [Single.mkKpt "Window_1"
             [(172, 441); (212, 441); (212, 400); (172, 400)]%Z]].
Proof. vm_compute. reflexivity. Qed.

(* ================================================================== *)
(** * The in-FOV sampler *)
(* ================================================================== *)

Ltac run_state := unfold mbind, state_bind, mret, state_ret in *.

Lemma all_corners_in_frame_Forall `{Engine} (cam : Camera) (corners : list Vec3) :
  all_corners_in_frame cam corners = true <->
  Forall (fun wp => visible (world_to_camera_view cam wp)) corners.
Proof.
  induction corners as [|wp rest IH]; simpl.
  - split; [constructor|reflexivity].
  - destruct (in_frame (world_to_camera_view cam wp)) eqn:E.
    + rewrite IH. split.
      * intros Hr. constructor; [now apply in_frame_visible|assumption].
      * intros Hr. now inversion Hr.
    + split; [discriminate|]. intros Hr. inversion Hr as [|? ? Hv _]; subst.
      apply in_frame_visible in Hv. congruence.
Qed.

Section SamplerFacts.
Context `{Engine} {G : Type} `{PRNG G}.

Lemma ensure_in_fov_S (cam : Camera) (win : Obj) (k : nat) (g : G) :
  Single.ensure_in_fov cam win (S k) g =
  let r := Single.sample_window_pose_and_size g in
  let win' := Single.apply_pose r.1.1.1 r.1.1.2 r.1.2 win in
  if all_corners_in_frame cam (plane_world_corners win')
  then ((true, (vx r.1.1.2, vy r.1.1.2), win'), r.2)
  else Single.ensure_in_fov cam win' k r.2.
Proof.
  simpl. run_state.
  destruct (Single.sample_window_pose_and_size g) as [[[size loc] rdeg] g1].
  cbn [fst snd].
  destruct (all_corners_in_frame cam _); reflexivity.
Qed.

(** The window [ensure_in_fov] reports success on passed the frame test. *)
Lemma ensure_in_fov_sound (cam : Camera) (max_tries : nat) :
  forall (win : Obj) (g : G),
    let r := (Single.ensure_in_fov cam win max_tries g).1 in
    r.1.1 = true ->
    all_corners_in_frame cam (plane_world_corners r.2) = true /\
    r.1.2 = (vx (location r.2), vy (location r.2)).
Proof.
  induction max_tries as [|k IH]; intros win g.
  - simpl. discriminate.
  - rewrite ensure_in_fov_S. cbv zeta.
    destruct (all_corners_in_frame cam _) eqn:E.
    + simpl. intros _. split; [exact E|reflexivity].
    + apply IH.
Qed.

(** A failed call made [max_tries] attempts and every one failed the test
    (so the flag is [false] only when the budget is spent). *)
Lemma ensure_in_fov_fails (cam : Camera) (max_tries : nat) :
  forall (win : Obj) (g : G),
    let r := (Single.ensure_in_fov cam win max_tries g).1 in
    r.1.1 = false -> r.1.2 = (0.0, 0.0).
Proof.
  induction max_tries as [|k IH]; intros win g.
  - simpl. reflexivity.
  - rewrite ensure_in_fov_S. cbv zeta.
    destruct (all_corners_in_frame cam _) eqn:E.
    + simpl. discriminate.
    + apply IH.
Qed.

End SamplerFacts.



(* ================================================================== *)
(** * The minimum-skew floor *)
(* ================================================================== *)

Lemma max3_lt (a b c m : Q) :
  Qltb (max3 a b c) m = true <-> a < m /\ b < m /\ c < m.
Proof.
  unfold max3. rewrite Qltb_lt.
  destruct (Qltb a b) eqn:Eab;
    [apply Qltb_lt in Eab | apply Qltb_ge in Eab].
  - destruct (Qltb b c) eqn:Ebc;
      [apply Qltb_lt in Ebc | apply Qltb_ge in Ebc]; split; intros; lra.
  - destruct (Qltb a c) eqn:Eac;
      [apply Qltb_lt in Eac | apply Qltb_ge in Eac]; split; intros; lra.
Qed.

Lemma max3_ge (a b c m : Q) :
  Qltb (max3 a b c) m = false -> m <= a \/ m <= b \/ m <= c.
Proof.
  intros Hf. unfold max3 in Hf.
  destruct (Qltb a b); destruct (Qltb _ c) in Hf; apply Qltb_ge in Hf; auto.
Qed.

(** C7.  The rotation [sample_window_pose_and_size] returns has an axis of
    at least [MIN_SKEW_DEG] in absolute value.  With [rx0, ry0, rz0] the
    three angles first drawn: if one of them reaches the minimum they are
    returned as drawn; if all three are below it, the axis drawn by
    [random.choice([0, 1, 2])] is set to [+MIN_SKEW_DEG] or [-MIN_SKEW_DEG]
    and the other two are returned as drawn. *)
Theorem sampled_skew_reaches_minimum (G : Type) (P : PRNG G) (g : G) :
  let rdeg := (Single.sample_window_pose_and_size g).1.2 in
  let g1 := (uniform Single.WINDOW_SIZE_RANGE.1 Single.WINDOW_SIZE_RANGE.2 g).2 in
  let d1 := uniform (- Single.MAX_SKEW_DEG) Single.MAX_SKEW_DEG g1 in
  let d2 := uniform (- Single.MAX_SKEW_DEG) Single.MAX_SKEW_DEG d1.2 in
  let d3 := uniform (- Single.MAX_SKEW_DEG) Single.MAX_SKEW_DEG d2.2 in
  let rx0 := d1.1 in
  let ry0 := d2.1 in
  let rz0 := d3.1 in
  let axis := (choice 0%Z [0; 1; 2]%Z d3.2).1 in
  let below := Qabs rx0 < Single.MIN_SKEW_DEG /\
               Qabs ry0 < Single.MIN_SKEW_DEG /\
               Qabs rz0 < Single.MIN_SKEW_DEG in
  (Single.MIN_SKEW_DEG <= Qabs (vx rdeg) \/
   Single.MIN_SKEW_DEG <= Qabs (vy rdeg) \/
   Single.MIN_SKEW_DEG <= Qabs (vz rdeg)) /\
  (~ below -> rdeg = (rx0, ry0, rz0)) /\
  (below ->
   exists val,
     (val == Single.MIN_SKEW_DEG \/ val == - Single.MIN_SKEW_DEG) /\
     ((axis = 0%Z /\ rdeg = (val, ry0, rz0)) \/
      (axis = 1%Z /\ rdeg = (rx0, val, rz0)) \/
      (axis <> 0%Z /\ axis <> 1%Z /\ rdeg = (rx0, ry0, val)))).
Proof.
  cbv zeta.
  unfold Single.sample_window_pose_and_size, Single.random_skew. run_state.
  destruct (uniform _ _ g) as [size g1]. cbn [fst snd].
  destruct (uniform _ _ g1) as [rx0 g2]. cbn [fst snd].
  destruct (uniform _ _ g2) as [ry0 g3]. cbn [fst snd].
  destruct (uniform _ _ g3) as [rz0 g4]. cbn [fst snd].
  destruct (Qltb (max3 (Qabs rx0) (Qabs ry0) (Qabs rz0)) Single.MIN_SKEW_DEG)
    eqn:E.
  - pose proof (proj1 (max3_lt _ _ _ _) E) as Hb.
    destruct (choice 0%Z [0%Z; 1%Z; 2%Z] g4) as [axis g5]. cbn [fst snd].
    destruct (random g5) as [r g6].
    destruct (uniform _ _ g6) as [cx g7].
    destruct (uniform _ _ g7) as [cy g8]. cbn [fst snd].
    set (val := Single.MIN_SKEW_DEG * (if Qltb 0.5 r then 1 else -1)).
    assert (Hval : val == Single.MIN_SKEW_DEG \/ val == - Single.MIN_SKEW_DEG).
    { unfold val. destruct (Qltb 0.5 r); [left|right]; reflexivity. }
    assert (Habs : Single.MIN_SKEW_DEG <= Qabs val).
    { unfold val. destruct (Qltb 0.5 r); vm_compute; discriminate. }
    split; [|split].
    + destruct (Z.eqb_spec axis 0); [|destruct (Z.eqb_spec axis 1)];
        unfold vx, vy, vz; cbn [fst snd]; auto.
    + tauto.
    + intros _. exists val. split; [exact Hval|].
      destruct (Z.eqb_spec axis 0); [|destruct (Z.eqb_spec axis 1)]; auto.
  - destruct (uniform _ _ g4) as [cx g5].
    destruct (uniform _ _ g5) as [cy g6]. cbn [fst snd].
    split; [|split].
    + apply max3_ge in E. unfold vx, vy, vz. cbn [fst snd]. exact E.
    + reflexivity.
    + intros Hb. apply max3_lt in Hb. congruence.
Qed.

(* ================================================================== *)
(** * The passes of the single-camera scripts *)
(* ================================================================== *)

(** Split every pair a sampling step returned. *)
Ltac split_draws :=
  repeat match goal with
         | |- context [match ?e with pair _ _ => _ end] => destruct e eqn:?
         end.

Lemma map_alter_same {A B} (f : A -> B) (g : A -> A) (i : nat) (l : list A) :
  (forall x, f (g x) = f x) -> map f (alter g i l) = map f l.
Proof.
  intros Hfg. unfold alter. revert i.
  induction l as [|x l IH]; intros [|i]; simpl; try reflexivity.
  - now rewrite Hfg.
  - now rewrite IH.
Qed.

Lemma swap_materials_keeps {B} (f : Obj -> B) (mat : Material)
      (vis : list nat) (objs : list Obj) :
  (forall m o, f (set_materials m o) = f o) ->
  map f (Single.swap_materials mat vis objs) = map f objs.
Proof.
  intros Hf. unfold Single.swap_materials. revert objs.
  induction vis as [|i vis IH]; intros objs; simpl; [reflexivity|].
  rewrite IH. apply map_alter_same. intros x. apply Hf.
Qed.

Lemma swap_materials_lookup (mat : Material) (vis : list nat) (objs : list Obj)
      (i : nat) :
  Single.swap_materials mat vis objs !! i =
  if decide (i ∈ vis) then set_materials [mat] <$> objs !! i else objs !! i.
Proof.
  unfold Single.swap_materials. revert objs.
  induction vis as [|j vis IH]; intros objs; simpl.
  - destruct (decide (i ∈ [])) as [Hin|]; [|reflexivity].
    now apply elem_of_nil in Hin.
  - rewrite IH. rewrite list_lookup_alter.
    destruct (decide (j = i)) as [->|Hne].
    + destruct (decide (i ∈ i :: vis)) as [_|Hn];
        [|exfalso; apply Hn; apply elem_of_cons; auto].
      destruct (decide (i ∈ vis)); [|reflexivity].
      destruct (objs !! i); reflexivity.
    + destruct (decide (i ∈ vis)) as [Hin|Hn].
      * rewrite decide_True by (apply elem_of_cons; auto). reflexivity.
      * rewrite decide_False; [reflexivity|].
        rewrite elem_of_cons. intros [->|?]; congruence.
Qed.

Section PassFacts.
Context `{Engine} {G : Type} `{PRNG G}.

Lemma rgb_pass_board (script : Single.Script) (f : nat) (vis : list nat)
      (s : Single.Scene) (g : G) :
  Single.coll_board (Single.rgb_pass script f vis s g).1 =
  Single.swap_materials Window_RGB_EmitTransp vis (Single.coll_board s).
Proof.
  unfold Single.rgb_pass. run_state.
  destruct script as [|bg]; [reflexivity|].
  destruct bg as [|p bg]; [reflexivity|].
  destruct (choice p (p :: bg) g). reflexivity.
Qed.

Lemma rgb_pass_rest (script : Single.Script) (f : nat) (vis : list nat)
      (s : Single.Scene) (g : G) :
  let s1 := (Single.rgb_pass script f vis s g).1 in
  Single.cam_obj s1 = Single.cam_obj s /\
  Single.coll_occluder s1 = Single.coll_occluder s /\
  Single.coll_lights s1 = Single.coll_lights s.
Proof.
  unfold Single.rgb_pass. run_state.
  destruct script as [|bg]; [repeat split|].
  destruct bg as [|p bg]; [repeat split|].
  destruct (choice p (p :: bg) g). repeat split.
Qed.

Lemma mask_pass_board (script : Single.Script) (f : nat) (vis : list nat)
      (s : Single.Scene) :
  Single.coll_board (Single.mask_pass script f vis s) =
  Single.swap_materials Window_MASK_Union vis (Single.coll_board s).
Proof. destruct script; reflexivity. Qed.

Lemma mask_pass_rest (script : Single.Script) (f : nat) (vis : list nat)
      (s : Single.Scene) :
  let s2 := Single.mask_pass script f vis s in
  Single.cam_obj s2 = Single.cam_obj s /\
  Single.coll_occluder s2 = map Single.blacken (Single.coll_occluder s) /\
  Single.coll_lights s2 = Single.coll_lights s /\
  Single.world_color s2 = Some (0, 0, 0, 1) /\
  Single.color_mode s2 = Single.BW.
Proof. destruct script; repeat split. Qed.

Lemma window_keypoints_set_materials (cam : Camera) (m : list Material) (w : Obj) :
  Single.window_keypoints cam (set_materials m w) = Single.window_keypoints cam w.
Proof. reflexivity. Qed.

(** The keypoint pass reads the camera and, of the board collection, only
    what [swap_materials] leaves alone. *)
Lemma keypoints_pass_swap (vis vis' : list nat) (mat : Material)
      (s s' : Single.Scene) :
  Single.cam_obj s' = Single.cam_obj s ->
  Single.coll_board s' = Single.swap_materials mat vis' (Single.coll_board s) ->
  Single.keypoints_pass vis s' = Single.keypoints_pass vis s.
Proof.
  intros Hc Hb. unfold Single.keypoints_pass. rewrite Hc, Hb.
  apply mapM_ext. intros i. rewrite swap_materials_lookup.
  destruct (decide (i ∈ vis')); [|reflexivity].
  destruct (Single.coll_board s !! i); reflexivity.
Qed.

Lemma blacken_keeps_shape (o : Obj) :
  set_materials [] (Single.blacken o) = set_materials [] o.
Proof. unfold Single.blacken. destruct (otype o); reflexivity. Qed.

End PassFacts.

Lemma for_each_invariant {G A S : Type} (I : S -> Prop)
      (body : A -> S -> State G S) (l : list A) :
  (forall x s g, I s -> I (body x s g).1) ->
  forall s g, I s -> I (for_each body l s g).1.
Proof.
  intros Hbody. induction l as [|x l IH]; intros s g Hs; simpl.
  - exact Hs.
  - run_state. destruct (body x s g) as [s' g'] eqn:E.
    apply IH. specialize (Hbody x s g Hs). now rewrite E in Hbody.
Qed.

Lemma for_each_cons {G A S : Type} (body : A -> S -> State G S) (x : A)
      (l : list A) (s : S) (g : G) :
  for_each body (x :: l) s g = for_each body l (body x s g).1 (body x s g).2.
Proof. simpl. run_state. destruct (body x s g). reflexivity. Qed.

Section FrameFacts.
Context `{Engine} {G : Type} `{PRNG G}.

Lemma spawn_occluders_mesh (b : Obj) (n_min n_max : Z) (g : G) :
  Forall (fun o => otype o = MESH)
         (Single.spawn_occluders_random b n_min n_max g).1.
Proof.
  unfold Single.spawn_occluders_random. run_state.
  destruct (randint n_min n_max g) as [count g1].
  apply for_each_invariant; [|constructor].
  intros i occ g2 Hocc. unfold Single.spawn_occluder. run_state.
  split_draws. simpl. apply Forall_app. split; [assumption|].
  constructor; [reflexivity|constructor].
Qed.

(** The occluders a frame is rendered with are the cubes just spawned. *)
Lemma randomize_occluders (script : Single.Script) (f : nat) (s : Single.Scene)
      (g : G) :
  exists n_min n_max g',
    Single.coll_occluder (Single.randomize script f s g).1.1 =
    (Single.spawn_occluders_random Single.board n_min n_max g').1.
Proof.
  unfold Single.randomize. run_state. split_draws.
  destruct script as [|bg]; [|destruct (f <=? Single.NUM_BASE_IMAGES)%nat];
    match goal with
    | Hq : Single.spawn_occluders_random ?b ?x ?y ?gg = _ |- _ =>
        exists x, y, gg; rewrite Hq; reflexivity
    end.
Qed.

End FrameFacts.

(* ================================================================== *)
(** * The passes of the multi-camera script *)
(* ================================================================== *)

Section MultiCamFacts.
Context `{Engine} {G : Type} `{PRNG G}.

Lemma sync_twins_synced (ps : list (Obj * Obj)) :
  twins_synced (MultiCam.sync_twins ps).
Proof.
  unfold twins_synced, MultiCam.sync_twins. apply Forall_map, Forall_forall.
  intros [r m] _. reflexivity.
Qed.

Lemma place_windows_pairs (n : nat) (s : MultiCam.Scene) (g : G) :
  MultiCam.pairs (MultiCam.place_windows n s g).1 =
  MultiCam.sync_twins
    (MultiCam.place_loop (MultiCam.sample_nonoverlap n 0.38 g).1 0
                         (MultiCam.pairs s)
                         (MultiCam.sample_nonoverlap n 0.38 g).2).1.
Proof.
  unfold MultiCam.place_windows. run_state.
  destruct (MultiCam.sample_nonoverlap n 0.38 g) as [centers g1]. simpl.
  destruct (MultiCam.place_loop centers 0 (MultiCam.pairs s) g1). reflexivity.
Qed.

Lemma place_pair_twin_materials (centers : list (Q * Q)) (idx : nat)
      (p : Obj * Obj) (g : G) :
  materials (MultiCam.place_pair centers idx p g).1.2 = materials p.2.
Proof.
  unfold MultiCam.place_pair. destruct p as [r m]. run_state.
  destruct (idx <? length centers)%nat; [|reflexivity].
  split_draws. reflexivity.
Qed.

Lemma place_loop_twins_masked (centers : list (Q * Q)) (ps : list (Obj * Obj)) :
  forall (idx : nat) (g : G),
    twins_masked ps -> twins_masked (MultiCam.place_loop centers idx ps g).1.
Proof.
  unfold twins_masked.
  induction ps as [|p ps IH]; intros idx g Hps; simpl; [constructor|].
  run_state. inversion Hps as [|? ? Hp Hrest]; subst.
  pose proof (place_pair_twin_materials centers idx p g) as Hm.
  destruct (MultiCam.place_pair centers idx p g) as [p' g1].
  specialize (IH (S idx) g1 Hrest).
  destruct (MultiCam.place_loop centers (S idx) ps g1) as [rest g2].
  simpl in *. constructor; [congruence|assumption].
Qed.

Lemma sync_twins_masked (ps : list (Obj * Obj)) :
  twins_masked ps -> twins_masked (MultiCam.sync_twins ps).
Proof.
  unfold twins_masked, MultiCam.sync_twins. intros Hps.
  apply Forall_map. eapply Forall_impl; [exact Hps|].
  intros [r m] Hm. exact Hm.
Qed.

End MultiCamFacts.

(* ================================================================== *)
(** * Geometry is frozen across the passes *)
(* ================================================================== *)

(** C4.  From the end of the randomisation to the end of the keypoint
    computation, entering the RGB pass and entering the MASK pass change no
    location, rotation or scale: not of a window, not of an occluder, not of
    the camera.  In the single-camera scripts the objects change in their
    materials only; the multi-camera script leaves every object as it is and
    changes the scene's camera, colour mode, exclusion flags and file path.
    The renders are functions of the scene.  So the keypoints computed after
    the MASK pass are the keypoints of the scene of either render, and in the
    multi-camera script each MASK twin has the pose of its RGB window. *)
Theorem passes_freeze_geometry (E : Engine) (G : Type) (P : PRNG G) :
  (forall script f vis (s : Single.Scene) (g : G),
      let s1 := (Single.rgb_pass script f vis s g).1 in
      let s2 := Single.mask_pass script f vis s1 in
      map pose (Single.coll_board s1) = map pose (Single.coll_board s) /\
      map pose (Single.coll_board s2) = map pose (Single.coll_board s) /\
      map pose (Single.coll_occluder s1) = map pose (Single.coll_occluder s) /\
      map pose (Single.coll_occluder s2) = map pose (Single.coll_occluder s) /\
      Single.cam_obj s1 = Single.cam_obj s /\
      Single.cam_obj s2 = Single.cam_obj s /\
      map (set_materials []) (Single.coll_board s2)
        = map (set_materials []) (Single.coll_board s) /\
      map (set_materials []) (Single.coll_occluder s2)
        = map (set_materials []) (Single.coll_occluder s) /\
      Single.keypoints_pass vis s2 = Single.keypoints_pass vis s1 /\
      Single.keypoints_pass vis s2 = Single.keypoints_pass vis s) /\
  (forall ci f (s : MultiCam.Scene),
      let s1 := MultiCam.rgb_pass ci f s in
      let s2 := MultiCam.mask_pass ci f s1 in
      MultiCam.pairs s1 = MultiCam.pairs s /\
      MultiCam.pairs s2 = MultiCam.pairs s /\
      MultiCam.occluders s1 = MultiCam.occluders s /\
      MultiCam.occluders s2 = MultiCam.occluders s /\
      MultiCam.cams s2 = MultiCam.cams s /\
      MultiCam.backdrop s2 = MultiCam.backdrop s /\
      (forall cam, MultiCam.keypoints_pass cam s2 = MultiCam.keypoints_pass cam s1) /\
      (forall cam, MultiCam.keypoints_pass cam s2 = MultiCam.keypoints_pass cam s)) /\
  (forall n (s : MultiCam.Scene) (g : G),
      twins_synced (MultiCam.pairs (MultiCam.place_windows n s g).1)).
Proof.
  split; [|split].
  - intros script f vis s g s1 s2. subst s2.
    pose proof (rgb_pass_board script f vis s g) as Hb1.
    destruct (rgb_pass_rest script f vis s g) as (Hc1 & Ho1 & _).
    fold s1 in Hb1, Hc1, Ho1.
    pose proof (mask_pass_board script f vis s1) as Hb2.
    destruct (mask_pass_rest script f vis s1) as (Hc2 & Ho2 & _).
    assert (Hk1 : Single.keypoints_pass vis s1 = Single.keypoints_pass vis s)
      by (eapply keypoints_pass_swap; eauto).
    assert (Hk2 : Single.keypoints_pass vis (Single.mask_pass script f vis s1)
                  = Single.keypoints_pass vis s1)
      by (eapply keypoints_pass_swap; eauto).
    rewrite Hb2, Ho2, Hc2, Hb1, Ho1, Hc1, Hk2, Hk1.
    rewrite !swap_materials_keeps by reflexivity.
    rewrite !map_map.
    repeat split; try reflexivity; apply map_ext; intros o.
    + unfold Single.blacken. destruct (otype o); reflexivity.
    + apply blacken_keeps_shape.
  - intros ci f s. repeat split.
  - intros n s g. rewrite place_windows_pairs. apply sync_twins_synced.
Qed.

(* ================================================================== *)
(** * The MASK-pass configuration *)
(* ================================================================== *)

(** C8, as the code has it.  In the single-camera scripts the scene passed
    to the MASK render has the union mask material on every visible window,
    the black emission material on every occluder of the frame, and a black
    world background.  The multi-camera script swaps no material: its MASK
    pass excludes the occluder, RGB-window and light collections and keeps
    the backdrop and the MASK twins, every object as it was; the twins carry
    the mask material from their creation on. *)
Theorem mask_pass_configuration (E : Engine) (G : Type) (P : PRNG G) :
  (forall script f (s : Single.Scene) (g : G),
      let r := Single.randomize script f s g in
      let s1 := (Single.rgb_pass script f r.1.2 r.1.1 r.2).1 in
      let s2 := Single.mask_pass script f r.1.2 s1 in
      (forall i w, i ∈ r.1.2 -> Single.coll_board s2 !! i = Some w ->
                   materials w = [Window_MASK_Union]) /\
      Forall (fun o => materials o = [Black_Emission]) (Single.coll_occluder s2) /\
      Single.world_color s2 = Some (0, 0, 0, 1)) /\
  (forall ci f (s : MultiCam.Scene),
      let s2 := MultiCam.mask_pass ci f s in
      MultiCam.excludes s2 = MultiCam.mkExcl false true true false true /\
      MultiCam.occluders s2 = MultiCam.occluders s /\
      MultiCam.backdrop s2 = MultiCam.backdrop s /\
      MultiCam.pairs s2 = MultiCam.pairs s) /\
  (twins_masked (MultiCam.pairs (MultiCam.initial_scene (seed 42)).1) /\
   forall n (s : MultiCam.Scene) (g : G),
     twins_masked (MultiCam.pairs s) ->
     twins_masked (MultiCam.pairs (MultiCam.place_windows n s g).1)).
Proof.
  split; [|split].
  - intros script f s g r s1 s2.
    pose proof (mask_pass_board script f r.1.2 s1) as Hb2.
    destruct (mask_pass_rest script f r.1.2 s1) as (_ & Ho2 & _ & Hw & _).
    destruct (rgb_pass_rest script f r.1.2 r.1.1 r.2) as (_ & Ho1 & _).
    fold s1 in Ho1. fold s2 in Hb2, Ho2, Hw.
    split; [|split; [|exact Hw]].
    + intros i w Hi Hl. rewrite Hb2, swap_materials_lookup in Hl.
      rewrite decide_True in Hl by assumption.
      destruct (Single.coll_board s1 !! i); [|discriminate].
      simpl in Hl. injection Hl as <-. reflexivity.
    + rewrite Ho2, Ho1. subst r.
      destruct (randomize_occluders script f s g) as (a & b & g' & ->).
      apply Forall_map. eapply Forall_impl; [apply spawn_occluders_mesh|].
      intros o Ho. simpl. unfold Single.blacken. rewrite Ho. reflexivity.
  - intros ci f s. repeat split.
  - split.
    + unfold MultiCam.initial_scene. run_state.
      destruct (MultiCam.bg_material (seed 42)). simpl.
      unfold twins_masked. repeat constructor.
    + intros n s g Hs. rewrite place_windows_pairs.
      apply sync_twins_masked, place_loop_twins_masked, Hs.
Qed.

(** C8 as stated fails in the multi-camera script: an occluder of the scene
    keeps the material it was spawned with when the MASK pass is entered. *)
Lemma multicam_mask_pass_keeps_occluder_material :
  ~ (forall (s : MultiCam.Scene) (ci f : nat),
        occluders_black (MultiCam.mask_pass ci f s)).
Proof.
  intros Hall. specialize (Hall Demo.demo_mc_scene 1%nat 1%nat).
  unfold occluders_black in Hall. simpl in Hall.
  inversion Hall as [|? ? Hm _]. discriminate Hm.
Qed.

(* ================================================================== *)
(** * The fallback pose *)
(* ================================================================== *)

Section FallbackFacts.
Context `{Engine} {G : Type} `{PRNG G}.

Lemma window_keypoints_name (cam : Camera) (w : Obj) (r : Single.KptRecord) :
  Single.window_keypoints cam w = Some r -> Single.object_name r = name w.
Proof.
  unfold Single.window_keypoints. intros Hr.
  destruct (order_tl_tr_br_bl _); simpl in Hr; [|discriminate].
  injection Hr as <-. reflexivity.
Qed.

(** The keypoint file lists the visible windows, one record each, in order. *)
Lemma keypoints_pass_records (vis : list nat) (s : Single.Scene)
      (recs : list Single.KptRecord) :
  Single.keypoints_pass vis s = Some recs ->
  Forall2 (fun i r => exists w, Single.coll_board s !! i = Some w /\
                                Single.object_name r = name w) vis recs.
Proof.
  unfold Single.keypoints_pass. intros Hm. apply mapM_Some in Hm.
  eapply Forall2_impl; [exact Hm|]. intros i r Hir. simpl in Hir.
  destruct (Single.coll_board s !! i) as [w|]; [|discriminate].
  exists w. split; [reflexivity|]. eapply window_keypoints_name, Hir.
Qed.

Lemma place_window_result (cam : Camera) (i : nat) (objs : list Obj)
      (vis : list nat) (w : Obj) (g : G) :
  objs !! i = Some w ->
  let e := (Single.ensure_in_fov cam (set_hide false false w) 140 g).1 in
  (Single.place_window cam i (objs, vis) g).1 =
  (<[i := if e.1.1 then e.2 else Single.fallback_pose e.2]> objs, vis ++ [i]).
Proof.
  intros Hi. unfold Single.place_window. rewrite Hi. run_state.
  destruct (Single.ensure_in_fov cam (set_hide false false w) 140 g)
    as [[[ok c] w'] g']. reflexivity.
Qed.

(** [ensure_in_fov] changes the pose of the window and nothing else. *)
Lemma ensure_in_fov_keeps (cam : Camera) (max_tries : nat) :
  forall (win : Obj) (g : G),
    let w' := (Single.ensure_in_fov cam win max_tries g).1.2 in
    name w' = name win /\ hide_render w' = hide_render win /\
    hide_viewport w' = hide_viewport win /\ materials w' = materials win /\
    vertices w' = vertices win.
Proof.
  induction max_tries as [|k IH]; intros win g; [repeat split|].
  rewrite ensure_in_fov_S. cbv zeta.
  destruct (all_corners_in_frame cam _); [repeat split|].
  match goal with
  | |- context [Single.ensure_in_fov cam ?w k ?g'] =>
      destruct (IH w g') as (? & ? & ? & ? & ?)
  end.
  unfold Single.apply_pose in *. simpl in *.
  repeat split; congruence.
Qed.

End FallbackFacts.

(** C6, as the code has it.  When [ensure_in_fov] returns [False] for a
    window, the render loop sets the window's location and rotation to zero
    and its scale to [(0.35, 0.35, 1.0)], leaves it unhidden and appends it
    to [visible_windows].  Through both passes a visible window keeps its
    pose and its flags, and the keypoint file has a record under its name.
    The scale [0.35] makes a window of side [0.70]: it lies strictly inside
    the scales [0.25 .. 0.55] the sampler draws from [WINDOW_SIZE_RANGE]. *)
Theorem exhausted_window_gets_fallback_pose
        (E : Engine) (G : Type) (P : PRNG G)
        (cam : Camera) (objs : list Obj) (vis : list nat) (i : nat) (w : Obj)
        (g : G) :
  objs !! i = Some w ->
  (Single.ensure_in_fov cam (set_hide false false w) 140 g).1.1.1 = false ->
  let st := (Single.place_window cam i (objs, vis) g).1 in
  (exists w', st.1 !! i = Some w' /\
              location w' = (0.0, 0.0, 0.0) /\
              rotation_euler w' = (0.0, 0.0, 0.0) /\
              scale w' = (0.35, 0.35, 1.0) /\
              hide_render w' = false /\ hide_viewport w' = false /\
              name w' = name w) /\
  st.2 = vis ++ [i] /\
  (forall script f vis' (s : Single.Scene) (g' : G) w',
      i ∈ vis' -> Single.coll_board s !! i = Some w' ->
      let s2 := Single.mask_pass script f vis'
                  (Single.rgb_pass script f vis' s g').1 in
      (exists w2, Single.coll_board s2 !! i = Some w2 /\ pose w2 = pose w' /\
                  hide_render w2 = hide_render w' /\ name w2 = name w') /\
      (forall recs, Single.keypoints_pass vis' s2 = Some recs ->
                    exists r, r ∈ recs /\ Single.object_name r = name w')) /\
  (Single.WINDOW_SIZE_RANGE.1 * 0.5 < 0.35 /\
   0.35 < Single.WINDOW_SIZE_RANGE.2 * 0.5).
Proof.
  intros Hi Hfail st. subst st.
  rewrite (place_window_result cam i objs vis w g Hi). cbv zeta.
  rewrite Hfail. cbn [fst snd].
  destruct (ensure_in_fov_keeps cam 140 (set_hide false false w) g)
    as (Hn & Hr & Hv & _).
  split; [|split; [reflexivity|split]].
  - eexists. split.
    + apply list_lookup_insert_eq. eapply lookup_lt_Some, Hi.
    + repeat split; simpl; assumption.
  - intros script f vis' s g' w' Hin Hs.
    set (s2 := Single.mask_pass script f vis' _).
    assert (Hl : Single.coll_board s2 !! i
                 = Some (set_materials [Window_MASK_Union] w')).
    { subst s2. rewrite mask_pass_board, swap_materials_lookup.
      rewrite decide_True by assumption.
      rewrite rgb_pass_board, swap_materials_lookup.
      rewrite decide_True by assumption. rewrite Hs. reflexivity. }
    split.
    + eexists. split; [exact Hl|]. repeat split.
    + intros recs Hrecs. apply keypoints_pass_records in Hrecs.
      apply list_elem_of_lookup in Hin. destruct Hin as [k Hk].
      destruct (Forall2_lookup_l _ _ _ _ _ Hrecs Hk) as (r & Hr' & w2 & Hw2 & Hnm).
      exists r. split; [eapply list_elem_of_lookup_2, Hr'|].
      rewrite Hl in Hw2. injection Hw2 as <-. exact Hnm.
  - split; vm_compute; reflexivity.
Qed.

Lemma exhausted_window_gets_fallback_pose_witness :
  let st := (@Single.place_window Demo.blind _ Demo.tape_prng Demo.demo_camera 0
               ([Demo.demo_window], []) []).1 in
  exists w', st.1 !! 0%nat = Some w' /\ scale w' = (0.35, 0.35, 1.0).
Proof.
  destruct (exhausted_window_gets_fallback_pose Demo.blind _ Demo.tape_prng
              Demo.demo_camera [Demo.demo_window] [] 0 Demo.demo_window [])
    as ((w' & Hl & _ & _ & Hs & _) & _).
  - reflexivity.
  - vm_compute. reflexivity.
  - exists w'. split; assumption.
Defined.

(** C6 as stated fails: the fallback scale is not below the range the
    sampler draws from.  On the tape that starts with [0] the sampler
    accepts a window of size [0.50], whose scale [0.25] is smaller than the
    fallback's [0.35]. *)
Lemma fallback_scale_not_below_sampled_scales :
  ~ (forall (E : Engine) (G : Type) (P : PRNG G) (cam : Camera) (win : Obj)
            (max_tries : nat) (g : G),
        (Single.ensure_in_fov cam win max_tries g).1.1.1 = true ->
        vx (scale (Single.fallback_pose win)) <
        vx (scale (Single.ensure_in_fov cam win max_tries g).1.2)).
Proof.
  intros Hall.
  specialize (Hall Demo.ortho _ Demo.tape_prng Demo.demo_camera Demo.demo_window
                   140%nat [0; 0.5; 0.5; 0.5; 0.5; 0.99; 0.5; 0.5]).
  vm_compute in Hall. specialize (Hall eq_refl). discriminate Hall.
Qed.

(* ================================================================== *)
(** * The non-overlapping centres *)
(* ================================================================== *)

Lemma sqdist_nonneg (c p : Q * Q) : 0 <= MultiCam.sqdist c p.
Proof.
  unfold MultiCam.sqdist.
  generalize (c.1 - p.1) (c.2 - p.2). intros a b. nra.
Qed.

Lemma sqdist_sym (c p : Q * Q) : MultiCam.sqdist c p == MultiCam.sqdist p c.
Proof. unfold MultiCam.sqdist. ring. Qed.

(** The boolean test is the comparison of the exact square root with [d]. *)
Lemma dist_ge_sqrt (d : Q) (c p : Q * Q) :
  MultiCam.dist_ge d c p = true <->
  (Q2R d <= sqrt (Q2R (MultiCam.sqdist c p)))%R.
Proof.
  unfold MultiCam.dist_ge. pose proof (sqdist_nonneg c p) as Hs.
  set (s := MultiCam.sqdist c p) in *.
  rewrite orb_true_iff, !Qle_bool_iff.
  assert (Hz : Q2R 0 = 0%R) by (unfold Q2R; simpl; Lra.lra).
  assert (Hs' : (0 <= Q2R s)%R) by (rewrite <- Hz; now apply Qle_Rle).
  pose proof (sqrt_pos (Q2R s)) as Hsq.
  split.
  - intros [Hd|Hd].
    + apply Qle_Rle in Hd. Lra.lra.
    + apply Qle_Rle in Hd. rewrite Q2R_mult in Hd.
      destruct (Rle_dec (Q2R d) 0) as [Hn|Hp]; [Lra.lra|].
      apply Rnot_le_lt in Hp.
      rewrite <- (sqrt_square (Q2R d)) by Lra.lra.
      apply sqrt_le_1_alt. exact Hd.
  - intros Hd. destruct (Qlt_le_dec 0 d) as [Hp|Hn]; [right|left; exact Hn].
    apply Rle_Qle. rewrite Q2R_mult.
    assert (Hp' : (0 < Q2R d)%R) by (rewrite <- Hz; now apply Qlt_Rlt).
    rewrite <- (sqrt_sqrt (Q2R s)) by exact Hs'.
    apply Rmult_le_compat; Lra.lra.
Qed.

Lemma dist_ge_sym (d : Q) (c p : Q * Q) :
  MultiCam.dist_ge d c p = MultiCam.dist_ge d p c.
Proof.
  unfold MultiCam.dist_ge. f_equal.
  apply Qleb_comp; [reflexivity|apply sqdist_sym].
Qed.

Section NonOverlapFacts.
Context {G : Type} `{PRNG G}.

Lemma tested_snoc (d : Q) (pts : list (Q * Q)) (c : Q * Q) :
  tested d pts -> forallb (MultiCam.dist_ge d c) pts = true ->
  tested d (pts ++ [c]).
Proof.
  intros Ht Hc i j p q Hij Hi Hj.
  assert (Hjl : (j < length (pts ++ [c]))%nat) by (eapply lookup_lt_Some, Hj).
  rewrite length_app in Hjl. simpl in Hjl.
  rewrite lookup_app_l in Hi by lia.
  destruct (decide (j = length pts)) as [->|Hne].
  - rewrite list_lookup_middle in Hj by reflexivity. injection Hj as <-.
    rewrite forallb_forall in Hc. apply Hc.
    apply list_elem_of_In. eapply list_elem_of_lookup_2, Hi.
  - rewrite lookup_app_l in Hj by lia. exact (Ht i j p q Hij Hi Hj).
Qed.

Lemma sample_loop_inv (n : nat) (d : Q) (fuel : nat) :
  forall (pts : list (Q * Q)) (g : G),
    tested d pts -> (length pts <= n)%nat ->
    tested d (MultiCam.sample_loop fuel n d pts g).1 /\
    (length (MultiCam.sample_loop fuel n d pts g).1 <= n)%nat.
Proof.
  induction fuel as [|k IH]; intros pts g Ht Hl; simpl; [auto|].
  destruct (Nat.ltb_spec (length pts) n) as [Hlt|Hge]; [|auto].
  run_state.
  destruct (uniform (-0.9) 0.9 g) as [cx g1].
  destruct (uniform (-0.6) 0.6 g1) as [cy g2].
  destruct (forallb (MultiCam.dist_ge d (cx, cy)) pts) eqn:Ec.
  - apply IH; [now apply tested_snoc|]. rewrite length_app. simpl. lia.
  - apply IH; assumption.
Qed.

Lemma sample_nonoverlap_inv (n : nat) (d : Q) (g : G) :
  separated d (MultiCam.sample_nonoverlap n d g).1 /\
  (length (MultiCam.sample_nonoverlap n d g).1 <= n)%nat.
Proof.
  unfold MultiCam.sample_nonoverlap.
  destruct (sample_loop_inv n d 250 [] g) as [Ht Hl].
  - intros i j p q _ Hi. now rewrite lookup_nil in Hi.
  - simpl. lia.
  - split; [|exact Hl]. intros i j p q Hij Hi Hj.
    destruct (Nat.lt_total i j) as [Hlt|[Heq|Hgt]]; [| congruence |].
    + apply dist_ge_sqrt. rewrite dist_ge_sym. exact (Ht i j p q Hlt Hi Hj).
    + apply dist_ge_sqrt. exact (Ht j i q p Hgt Hj Hi).
Qed.

End NonOverlapFacts.

Lemma count_below (c : nat) (len : nat) :
  forall idx, length (List.filter (fun k => k <? c)%nat (seq idx len))
              = Nat.min (c - idx) len.
Proof.
  induction len as [|len IH]; intros idx; simpl; [lia|].
  destruct (Nat.ltb_spec idx c); simpl; rewrite IH; lia.
Qed.

Lemma length_filter_map {A} (f : A -> bool) (l : list A) :
  length (List.filter f l) = length (List.filter (fun b : bool => b) (map f l)).
Proof.
  induction l as [|x l IH]; simpl; [reflexivity|].
  destruct (f x); simpl; now rewrite IH.
Qed.

Section PlaceWindowsFacts.
Context `{Engine} {G : Type} `{PRNG G}.

Lemma place_pair_visible (centers : list (Q * Q)) (idx : nat) (p : Obj * Obj)
      (g : G) :
  pair_visible (MultiCam.place_pair centers idx p g).1
  = (idx <? length centers)%nat.
Proof.
  unfold MultiCam.place_pair. destruct p as [r m]. run_state.
  destruct (idx <? length centers)%nat; [|reflexivity].
  split_draws. reflexivity.
Qed.

Lemma place_pair_hidden (centers : list (Q * Q)) (idx : nat) (p : Obj * Obj)
      (g : G) :
  pair_hidden (MultiCam.place_pair centers idx p g).1
  = negb (idx <? length centers)%nat.
Proof.
  unfold MultiCam.place_pair. destruct p as [r m]. run_state.
  destruct (idx <? length centers)%nat; [|reflexivity].
  split_draws. reflexivity.
Qed.

Lemma place_loop_hidden (centers : list (Q * Q)) (ps : list (Obj * Obj)) :
  forall (idx : nat) (g : G),
    map pair_hidden (MultiCam.place_loop centers idx ps g).1
    = map (fun k => negb (k <? length centers)%nat) (seq idx (length ps)).
Proof.
  induction ps as [|p ps IH]; intros idx g; simpl; [reflexivity|].
  run_state.
  pose proof (place_pair_hidden centers idx p g) as Hp.
  destruct (MultiCam.place_pair centers idx p g) as [p' g1].
  specialize (IH (S idx) g1).
  destruct (MultiCam.place_loop centers (S idx) ps g1) as [rest g2].
  simpl in *. now rewrite Hp, IH.
Qed.

Lemma place_windows_hidden (n : nat) (s : MultiCam.Scene) (g : G) :
  map pair_hidden (MultiCam.pairs (MultiCam.place_windows n s g).1)
  = map (fun k => negb (k <? length (MultiCam.sample_nonoverlap n 0.38 g).1)%nat)
        (seq 0 (length (MultiCam.pairs s))).
Proof.
  rewrite place_windows_pairs.
  unfold MultiCam.sync_twins. rewrite map_map.
  rewrite <- (place_loop_hidden _ (MultiCam.pairs s) 0
                (MultiCam.sample_nonoverlap n 0.38 g).2).
  apply map_ext. intros [r m]. reflexivity.
Qed.

Lemma place_loop_visible (centers : list (Q * Q)) (ps : list (Obj * Obj)) :
  forall (idx : nat) (g : G),
    map pair_visible (MultiCam.place_loop centers idx ps g).1
    = map (fun k => k <? length centers)%nat (seq idx (length ps)).
Proof.
  induction ps as [|p ps IH]; intros idx g; simpl; [reflexivity|].
  run_state.
  pose proof (place_pair_visible centers idx p g) as Hp.
  destruct (MultiCam.place_pair centers idx p g) as [p' g1].
  specialize (IH (S idx) g1).
  destruct (MultiCam.place_loop centers (S idx) ps g1) as [rest g2].
  simpl in *. now rewrite Hp, IH.
Qed.

Lemma sync_twins_visible (ps : list (Obj * Obj)) :
  map pair_visible (MultiCam.sync_twins ps) = map pair_visible ps.
Proof.
  unfold MultiCam.sync_twins. rewrite map_map. apply map_ext.
  intros [r m]. reflexivity.
Qed.

Lemma place_windows_visible (n : nat) (s : MultiCam.Scene) (g : G) :
  map pair_visible (MultiCam.pairs (MultiCam.place_windows n s g).1)
  = map (fun k => k <? length (MultiCam.sample_nonoverlap n 0.38 g).1)%nat
        (seq 0 (length (MultiCam.pairs s))).
Proof.
  rewrite place_windows_pairs, sync_twins_visible. apply place_loop_visible.
Qed.

End PlaceWindowsFacts.


(* ================================================================== *)
(** * Determinism of the keypoint files *)
(* ================================================================== *)

Section RunFacts.
Context `{Engine} {G : Type} `{PRNG G}.
Context {Image1 Image2 : Type}.
Variable render1 : Single.Scene -> Image1.
Variable render2 : Single.Scene -> Image2.

(** The renderer's output reaches neither the scene, nor the generator, nor
    the keypoint file. *)
Lemma frame_ignores_renderer (script : Single.Script) (f : nat)
      (s : Single.Scene) (g : G) :
  let r1 := Single.frame render1 script f s g in
  let r2 := Single.frame render2 script f s g in
  r1.1.1 = r2.1.1 /\ r1.2 = r2.2 /\
  Single.out_kpt r1.1.2 = Single.out_kpt r2.1.2.
Proof.
  unfold Single.frame, Single.capture. run_state.
  destruct (Single.randomize script f s g) as [[s1 vis] g1].
  destruct (Single.rgb_pass script f vis s1 g1) as [s2 g2].
  repeat split.
Qed.

Lemma render_loop_ignores_renderer (script : Single.Script) (fs : list nat) :
  forall (s : Single.Scene) (g : G),
    map Single.out_kpt (Single.render_loop render1 script fs s g).1
    = map Single.out_kpt (Single.render_loop render2 script fs s g).1.
Proof.
  induction fs as [|f fs IH]; intros s g; simpl; [reflexivity|].
  run_state.
  destruct (frame_ignores_renderer script f s g) as (Hs & Hg & Hk).
  destruct (Single.frame render1 script f s g) as [[s1 o1] g1].
  destruct (Single.frame render2 script f s g) as [[s2 o2] g2].
  simpl in Hs, Hg, Hk. subst s2 g2. rewrite <- Hk.
  destruct (Single.out_kpt o1) eqn:Ek.
  - specialize (IH s1 g1).
    destruct (Single.render_loop render1 script fs s1 g1).
    destruct (Single.render_loop render2 script fs s1 g1).
    simpl in *. rewrite Ek, Hk, IH. reflexivity.
  - simpl. rewrite Ek, Hk. reflexivity.
Qed.

End RunFacts.


(* ================================================================== *)
(** * The windows of a frame *)
(* ================================================================== *)

Section WindowPoolFacts.
Context `{Engine} {G : Type} `{PRNG G}.

Lemma place_window_placed (cam : Camera) (i : nat) (objs : list Obj)
      (vis : list nat) (g : G) :
  (i < length objs)%nat ->
  let st := (Single.place_window cam i (objs, vis) g).1 in
  st.2 = vis ++ [i] /\ length st.1 = length objs /\
  (exists w, st.1 !! i = Some w /\ placed cam w) /\
  (forall j, j <> i -> st.1 !! j = objs !! j).
Proof.
  intros Hi. destruct (lookup_lt_is_Some_2 objs i Hi) as [w Hw].
  cbv zeta. rewrite (place_window_result cam i objs vis w g Hw). cbv zeta.
  cbn [fst snd]. split; [reflexivity|]. split; [apply length_insert|].
  split.
  - eexists. split; [apply list_lookup_insert_eq, Hi|].
    destruct (ensure_in_fov_keeps cam 140 (set_hide false false w) g)
      as (_ & Hr & Hv & _).
    pose proof (ensure_in_fov_sound cam 140 (set_hide false false w) g) as Hs.
    cbv zeta in Hs.
    destruct (Single.ensure_in_fov cam (set_hide false false w) 140 g).1.1.1.
    + destruct (Hs eq_refl) as [Hin _]. repeat split; auto.
    + repeat split; auto.
  - intros j Hj. apply list_lookup_insert_ne. congruence.
Qed.

Lemma place_windows_placed (cam : Camera) (l : list nat) :
  forall (objs : list Obj) (vis : list nat) (g : G),
    refs_ok objs l ->
    let st := (for_each (Single.place_window cam) l (objs, vis) g).1 in
    st.2 = vis ++ l /\ length st.1 = length objs /\
    (forall i, i ∈ l -> exists w, st.1 !! i = Some w /\ placed cam w) /\
    (forall j, j ∉ l -> st.1 !! j = objs !! j).
Proof.
  induction l as [|i l IH]; intros objs vis g [Hnd Hb].
  - simpl. rewrite app_nil_r. repeat split; auto.
    intros i Hi. now apply elem_of_nil in Hi.
  - inversion Hnd as [|? ? Hni Hnd']; subst.
    inversion Hb as [|? ? Hi Hb']; subst.
    rewrite for_each_cons. cbv zeta.
    destruct (place_window_placed cam i objs vis g Hi)
      as (Hv & Hlen & (w & Hw & Hp) & Hother).
    destruct (Single.place_window cam i (objs, vis) g) as [[objs1 vis1] g1].
    cbn [fst snd] in *. subst vis1.
    destruct (IH objs1 (vis ++ [i]) g1) as (Hv2 & Hlen2 & Hin2 & Hout2).
    { split; [assumption|]. rewrite Hlen. assumption. }
    split; [rewrite Hv2, <- app_assoc; reflexivity|].
    split; [congruence|]. split.
    + intros j Hj. apply elem_of_cons in Hj. destruct Hj as [->|Hj].
      * exists w. split; [|assumption]. rewrite Hout2; assumption.
      * apply Hin2, Hj.
    + intros j Hj. rewrite not_elem_of_cons in Hj. destruct Hj as [Hji Hjl].
      rewrite Hout2 by assumption. apply Hother, Hji.
Qed.

Lemma window_indices_ok (objs : list Obj) :
  refs_ok objs (Single.window_indices objs).
Proof.
  unfold Single.window_indices. split.
  - apply NoDup_ListNoDup, List.NoDup_filter, NoDup_ListNoDup, NoDup_seq.
  - apply Forall_forall. intros i Hi. apply list_elem_of_In in Hi.
    apply filter_In in Hi. destruct Hi as [Hi _].
    apply in_seq in Hi. lia.
Qed.

Lemma make_windows_ok (k : nat) :
  forall (objs : list Obj) (existing : list nat) (g : G),
    refs_ok objs existing ->
    let r := (Single.make_windows k objs existing g).1 in
    refs_ok r.1 r.2.
Proof.
  induction k as [|k IH]; intros objs existing g Hok; simpl; [exact Hok|].
  run_state. destruct (uniform _ _ g) as [size g1].
  apply IH. destruct Hok as [Hnd Hb]. split.
  - apply NoDup_app. split; [assumption|]. split; [|apply NoDup_singleton].
    intros i Hi Hi'. apply list_elem_of_singleton in Hi'. subst i.
    rewrite Forall_forall in Hb. specialize (Hb _ Hi). lia.
  - rewrite length_app. simpl. apply Forall_app. split.
    + eapply Forall_impl; [exact Hb|]. intros i Hi. simpl in Hi. lia.
    + constructor; [lia|constructor].
Qed.

Lemma hide_all_length (l : list nat) :
  forall objs : list Obj,
    length (foldl (fun os i => alter (set_hide true true) i os) objs l)
    = length objs.
Proof.
  induction l as [|i l IH]; intros objs; simpl; [reflexivity|].
  rewrite IH. apply length_alter.
Qed.

Lemma get_or_make_windows_ok (n_needed : nat) (objs : list Obj) (g : G) :
  let r := (Single.get_or_make_windows n_needed objs g).1 in
  refs_ok r.1 r.2.
Proof.
  unfold Single.get_or_make_windows. run_state.
  pose proof (make_windows_ok (n_needed - length (Single.window_indices objs))
                objs (Single.window_indices objs) g (window_indices_ok objs))
    as Hok.
  destruct (Single.make_windows _ objs (Single.window_indices objs) g)
    as [[objs1 existing] g1].
  cbv zeta in *. simpl in *. destruct Hok as [Hnd Hb].
  split; [assumption|]. rewrite hide_all_length. assumption.
Qed.

(** Every window a frame is rendered with is shown and is either wholly in
    the camera's frame or in the fallback pose. *)
Lemma randomize_places_windows (script : Single.Script) (f : nat)
      (s : Single.Scene) (g : G) :
  let r := (Single.randomize script f s g).1 in
  forall i, i ∈ r.2 ->
    exists w, Single.coll_board r.1 !! i = Some w /\
              placed (Single.cam_obj r.1) w.
Proof.
  unfold Single.randomize. run_state.
  destruct (uniform _ _ g) as [dist g1].
  destruct (Single.spawn_random_lights _ g1) as [lights g2].
  destruct (randint 1 Single.MAX_WINDOWS g2) as [n g3].
  match goal with
  | |- context [Single.get_or_make_windows ?a ?b ?c] =>
      pose proof (get_or_make_windows_ok a b c) as Hok;
      destruct (Single.get_or_make_windows a b c) as [[objs windows] g4]
  end.
  cbv zeta in Hok. simpl in Hok.
  match goal with
  | |- context [for_each (Single.place_window ?cam) ?l (objs, []) g4] =>
      pose proof (place_windows_placed cam l objs [] g4) as Hpl;
      destruct (for_each (Single.place_window cam) l (objs, []) g4)
        as [[objs2 vis] g5]
  end.
  cbv zeta in Hpl. simpl in Hpl.
  destruct Hpl as (Hv & _ & Hin & _).
  { destruct Hok as [Hnd Hb]. split.
    - eapply sublist_NoDup; [exact Hnd|apply sublist_take].
    - apply Forall_take, Hb. }
  subst vis.
  destruct script as [|bg]; [|destruct (f <=? Single.NUM_BASE_IMAGES)%nat];
    destruct (Single.spawn_occluders_random _ _ _ g5) as [occ g6];
    simpl; intros i Hi; apply Hin, Hi.
Qed.

End WindowPoolFacts.

(* ================================================================== *)
(** * More on rounding and the pixel mapping *)
(* ================================================================== *)

Lemma py_round_floor (q : Q) :
  py_round q = Qfloor q \/ py_round q = (Qfloor q + 1)%Z.
Proof.
  unfold py_round. destruct (Qcompare _ _); auto.
  destruct (Z.even (Qfloor q)); auto.
Qed.

Lemma py_round_mono (q q' : Q) : q <= q' -> (py_round q <= py_round q')%Z.
Proof.
  intros Hle. pose proof (Qfloor_resp_le q q' Hle) as Hf.
  destruct (Z.eq_dec (Qfloor q) (Qfloor q')) as [He|Hne].
  - unfold py_round. rewrite <- He.
    destruct (Qcompare_spec (q - inject_Z (Qfloor q)) (1 # 2)) as [E|E|E];
      destruct (Qcompare_spec (q' - inject_Z (Qfloor q)) (1 # 2)) as [E'|E'|E'];
      try destruct (Z.even (Qfloor q)); try lia; exfalso; lra.
  - destruct (py_round_floor q) as [->| ->],
             (py_round_floor q') as [->| ->]; lia.
Qed.

Lemma py_round_inject_Z (z : Z) : py_round (inject_Z z) = z.
Proof.
  unfold py_round. rewrite Qfloor_Z.
  destruct (Qcompare_spec (inject_Z z - inject_Z z) (1 # 2)) as [E|E|E];
    [exfalso; lra | reflexivity | exfalso; lra].
Qed.

Lemma py_round_eq (q : Q) (z : Z) : q == inject_Z z -> py_round q = z.
Proof.
  intros He.
  assert (H1 : q <= inject_Z z) by lra.
  assert (H2 : inject_Z z <= q) by lra.
  apply py_round_mono in H1, H2. rewrite py_round_inject_Z in H1, H2. lia.
Qed.

Lemma py_round_unit_range (u : Q) (n : Z) :
  (0 <= n)%Z -> 0 <= u -> u <= 1 -> (0 <= py_round (u * inject_Z n) <= n)%Z.
Proof.
  intros Hn H0 H1.
  assert (Hq : 0 <= inject_Z n)
    by (change 0 with (inject_Z 0); rewrite <- Zle_Qle; exact Hn).
  assert (Ha : inject_Z 0 <= u * inject_Z n)
    by (change (inject_Z 0) with 0; nra).
  assert (Hb : u * inject_Z n <= inject_Z n) by nra.
  apply py_round_mono in Ha, Hb. rewrite py_round_inject_Z in Ha, Hb. lia.
Qed.

(** X1.  For a point the frame test accepts, the clamp of the pixel mapping
    changes nothing: the pixel is the rounded projection itself, in both
    scripts, and lies inside the image. *)
Theorem visible_point_is_not_clamped (uvw : Vec3) (W Ht : Z) :
  (1 <= W)%Z -> (1 <= Ht)%Z -> in_frame uvw = true ->
  to_pixel uvw W Ht = unclamped uvw W Ht /\
  to_pixel_mc uvw W Ht
  = (py_round (vx uvw * inject_Z (W - 1)), py_round (vy uvw * inject_Z (Ht - 1))) /\
  in_image W Ht (unclamped uvw W Ht).
Proof.
  intros HW HH Hv. apply in_frame_visible in Hv.
  destruct Hv as (Hu0 & Hu1 & Hv0 & Hv1 & _).
  assert (Hx : (0 <= py_round (vx uvw * inject_Z (W - 1)) <= W - 1)%Z)
    by (apply py_round_unit_range; [lia|assumption..]).
  assert (Hy : (0 <= py_round ((1 - vy uvw) * inject_Z (Ht - 1)) <= Ht - 1)%Z)
    by (apply py_round_unit_range; [lia|lra..]).
  assert (Hy' : (0 <= py_round (vy uvw * inject_Z (Ht - 1)) <= Ht - 1)%Z)
    by (apply py_round_unit_range; [lia|assumption..]).
  unfold to_pixel, to_pixel_mc, unclamped, in_image, clamp0. simpl.
  repeat split; try lia; f_equal; lia.
Qed.

Lemma visible_point_is_not_clamped_witness :
  to_pixel (0.25, 0.5, 3) 640 648 = unclamped (0.25, 0.5, 3) 640 648.
Proof.
  apply (visible_point_is_not_clamped (0.25, 0.5, 3) 640 648);
    [lia | lia | reflexivity].
Defined.

(** X2.  The corners of the view go to the corners of the image: in the
    single-camera scripts [(u, v) = (0, 0)] is the bottom-left pixel
    [(0, H-1)] and [(1, 1)] the top-right pixel [(W-1, 0)]; the multi-camera
    script sends them to [(0, 0)] and [(W-1, H-1)]. *)
Theorem view_corners_to_image_corners (W Ht : Z) (d : Q) :
  (1 <= W)%Z -> (1 <= Ht)%Z ->
  to_pixel (0, 0, d) W Ht = (0, Ht - 1)%Z /\
  to_pixel (1, 1, d) W Ht = (W - 1, 0)%Z /\
  to_pixel_mc (0, 0, d) W Ht = (0, 0)%Z /\
  to_pixel_mc (1, 1, d) W Ht = (W - 1, Ht - 1)%Z.
Proof.
  intros HW HH. unfold to_pixel, to_pixel_mc, clamp0, vx, vy. simpl.
  rewrite (py_round_eq (0 * inject_Z (W - 1)) 0) by (change (inject_Z 0) with 0; ring).
  rewrite (py_round_eq (0 * inject_Z (Ht - 1)) 0) by (change (inject_Z 0) with 0; ring).
  rewrite (py_round_eq (1 * inject_Z (W - 1)) (W - 1)) by ring.
  rewrite (py_round_eq (1 * inject_Z (Ht - 1)) (Ht - 1)) by ring.
  rewrite (py_round_eq ((1 - 0) * inject_Z (Ht - 1)) (Ht - 1)) by ring.
  rewrite (py_round_eq ((1 - 1) * inject_Z (Ht - 1)) 0) by (change (inject_Z 0) with 0; ring).
  repeat split; f_equal; lia.
Qed.

Lemma view_corners_to_image_corners_witness :
  to_pixel (0, 0, 5) 640 648 = (0, 647)%Z.
Proof.
  apply (view_corners_to_image_corners 640 648 5); lia.
Defined.

(** X3.  The pixel mapping keeps the order of the points: a larger [u]
    never gives a smaller [x]; in the single-camera scripts a larger [v]
    never gives a larger [y] (the axis is flipped), in the multi-camera
    script never a smaller one. *)
Theorem pixel_mapping_is_monotone (p q : Vec3) (W Ht : Z) :
  (1 <= W)%Z -> (1 <= Ht)%Z ->
  (vx p <= vx q -> ((to_pixel p W Ht).1 <= (to_pixel q W Ht).1)%Z) /\
  (vy p <= vy q -> ((to_pixel q W Ht).2 <= (to_pixel p W Ht).2)%Z) /\
  (vx p <= vx q -> ((to_pixel_mc p W Ht).1 <= (to_pixel_mc q W Ht).1)%Z) /\
  (vy p <= vy q -> ((to_pixel_mc p W Ht).2 <= (to_pixel_mc q W Ht).2)%Z).
Proof.
  intros HW HH.
  assert (Hw : 0 <= inject_Z (W - 1))
    by (change 0 with (inject_Z 0); rewrite <- Zle_Qle; lia).
  assert (Hh : 0 <= inject_Z (Ht - 1))
    by (change 0 with (inject_Z 0); rewrite <- Zle_Qle; lia).
  unfold to_pixel, to_pixel_mc, clamp0. simpl.
  repeat split; intros Hle;
    match goal with
    | |- (Z.max 0 (Z.min _ (py_round ?a)) <= Z.max 0 (Z.min _ (py_round ?b)))%Z =>
        assert (Hm : (py_round a <= py_round b)%Z) by (apply py_round_mono; nra)
    end; lia.
Qed.

Lemma pixel_mapping_is_monotone_witness :
  ((to_pixel (0.2, 0.9, 1)%Q 640 648).1
   <= (to_pixel (0.7, 0.1, 1)%Q 640 648).1)%Z.
Proof.
  apply (proj1 (pixel_mapping_is_monotone (0.2, 0.9, 1) (0.7, 0.1, 1) 640 648
                  ltac:(lia) ltac:(lia))).
  vm_compute. discriminate.
Defined.

(* ================================================================== *)
(** * More on the corner ordering *)
(* ================================================================== *)

Lemma sorted_length {A K : Type} (leb : K -> K -> bool) (key : A -> K)
      (l : list A) : length (sorted leb key l) = length l.
Proof. apply Permutation_length, sorted_perm. Qed.

Lemma order_defined (l : list Px) :
  ((length l < 4)%nat -> order_tl_tr_br_bl l = None) /\
  ((4 <= length l)%nat ->
   exists out, order_tl_tr_br_bl l = Some out /\ length out = 4%nat /\
               Forall (fun p => p ∈ l) out).
Proof.
  pose proof (order_elements l) as Hel.
  unfold order_tl_tr_br_bl in *.
  set (s := sorted pair_leb _ l) in *.
  assert (Hs : length s = length l) by apply sorted_length.
  pose proof (sorted_length Z.leb (fun p : Px => p.1) (take 2 s)) as Ht.
  pose proof (sorted_length Z.leb (fun p : Px => p.1) (drop 2 s)) as Hb.
  rewrite length_take in Ht. rewrite length_drop in Hb.
  destruct (sorted Z.leb _ (take 2 s)) as [|t0 [|t1 [|? ?]]];
    destruct (sorted Z.leb _ (drop 2 s)) as [|b0 [|b1 rest]];
    cbn [length] in Ht, Hb; split; intros Hl; try reflexivity; try lia.
  eexists. split; [reflexivity|]. split; [reflexivity|].
  apply Hel. reflexivity.
Qed.

(** X5.  [order_tl_tr_br_bl] needs four points: on fewer it raises
    ([IndexError]); on four or more it returns exactly four points, each one
    of the points it was given. *)
Theorem corner_order_needs_four_points (l : list Px) :
  ((length l < 4)%nat -> order_tl_tr_br_bl l = None) /\
  ((4 <= length l)%nat ->
   exists out, order_tl_tr_br_bl l = Some out /\ length out = 4%nat /\
               Forall (fun p => p ∈ l) out).
Proof. apply order_defined. Qed.

(* ================================================================== *)
(** * More on the in-FOV sampler *)
(* ================================================================== *)

Lemma least_prng_lawful : @lawful unit least_prng.
Proof.
  split.
  - intros g. simpl. split; [apply Qle_refl|reflexivity].
  - intros n g Hn. simpl. lia.
Qed.

Section SamplerRanges.
Context `{Engine} {G : Type} `{PRNG G}.

Lemma uniform_between (a b : Q) (g : G) :
  lawful -> a <= b -> between a b (uniform a b g).1.
Proof.
  intros [Hr _] Hab. unfold uniform. run_state.
  specialize (Hr g). destruct (random g) as [r g1]. simpl in *.
  unfold between. split; nra.
Qed.

Lemma between_abs (m x : Q) : between (- m) m x -> Qabs x <= m.
Proof. unfold between. intros [Hlo Hhi]. apply Qabs_Qle_condition. auto. Qed.

Lemma sample_pose_ranges (g : G) :
  lawful ->
  let r := (Single.sample_window_pose_and_size g).1 in
  between Single.WINDOW_SIZE_RANGE.1 Single.WINDOW_SIZE_RANGE.2 r.1.1 /\
  on_board r.1.2 /\ skew_bounded r.2.
Proof.
  intros Hlaw. cbv zeta.
  unfold Single.sample_window_pose_and_size, Single.random_skew. run_state.
  pose proof (uniform_between Single.WINDOW_SIZE_RANGE.1
                Single.WINDOW_SIZE_RANGE.2 g Hlaw) as Hsz.
  destruct (uniform _ _ g) as [size g1].
  assert (Hsk : - Single.MAX_SKEW_DEG <= Single.MAX_SKEW_DEG)
    by (vm_compute; discriminate).
  pose proof (uniform_between _ _ g1 Hlaw Hsk) as Hx.
  destruct (uniform _ _ g1) as [rx g2].
  pose proof (uniform_between _ _ g2 Hlaw Hsk) as Hy.
  destruct (uniform _ _ g2) as [ry g3].
  pose proof (uniform_between _ _ g3 Hlaw Hsk) as Hz.
  destruct (uniform _ _ g3) as [rz g4].
  cbn [fst snd] in *.
  apply between_abs in Hx, Hy, Hz.
  assert (Hval : forall b : bool,
             Qabs (Single.MIN_SKEW_DEG * (if b then 1 else -1))
             <= Single.MAX_SKEW_DEG)
    by (intros [|]; vm_compute; discriminate).
  assert (Hbx : - Single.BOARD_HALF_EXTENTS.1 <= Single.BOARD_HALF_EXTENTS.1)
    by (vm_compute; discriminate).
  assert (Hby : - Single.BOARD_HALF_EXTENTS.2 <= Single.BOARD_HALF_EXTENTS.2)
    by (vm_compute; discriminate).
  destruct (Qltb (max3 (Qabs rx) (Qabs ry) (Qabs rz)) Single.MIN_SKEW_DEG).
  - destruct (choice 0%Z [0%Z; 1%Z; 2%Z] g4) as [axis g5].
    destruct (random g5) as [r g6].
    pose proof (uniform_between _ _ g6 Hlaw Hbx) as Hcx.
    destruct (uniform _ _ g6) as [cx g7].
    pose proof (uniform_between _ _ g7 Hlaw Hby) as Hcy.
    destruct (uniform _ _ g7) as [cy g8].
    cbn [fst snd] in *.
    split; [apply Hsz; vm_compute; discriminate|].
    split; [unfold on_board, vx, vy, vz; cbn [fst snd]; auto|].
    unfold skew_bounded.
    destruct (axis =? 0)%Z; [|destruct (axis =? 1)%Z];
      unfold vx, vy, vz; cbn [fst snd]; auto.
  - pose proof (uniform_between _ _ g4 Hlaw Hbx) as Hcx.
    destruct (uniform _ _ g4) as [cx g5].
    pose proof (uniform_between _ _ g5 Hlaw Hby) as Hcy.
    destruct (uniform _ _ g5) as [cy g6].
    cbn [fst snd] in *.
    split; [apply Hsz; vm_compute; discriminate|].
    split; [unfold on_board, vx, vy, vz; cbn [fst snd]; auto|].
    unfold skew_bounded, vx, vy, vz. cbn [fst snd]. auto.
Qed.

(** After one attempt or more, the flag [ensure_in_fov] returns is the
    frame test of the window as it is left. *)
Lemma ensure_in_fov_flag (cam : Camera) (k : nat) :
  forall (win : Obj) (g : G),
    let r := (Single.ensure_in_fov cam win (S k) g).1 in
    r.1.1 = all_corners_in_frame cam (plane_world_corners r.2).
Proof.
  induction k as [|k IH]; intros win g; rewrite ensure_in_fov_S; cbv zeta.
  - destruct (all_corners_in_frame cam _) eqn:E; simpl; congruence.
  - destruct (all_corners_in_frame cam _) eqn:E; [simpl; congruence|].
    apply IH.
Qed.

(** The pose [ensure_in_fov] leaves is a pose it sampled. *)
Lemma ensure_in_fov_pose (cam : Camera) (k : nat) :
  forall (win : Obj) (g : G),
    let w' := (Single.ensure_in_fov cam win (S k) g).1.2 in
    exists g0,
      let smp := (Single.sample_window_pose_and_size g0).1 in
      scale w' = (smp.1.1 * 0.5, smp.1.1 * 0.5, 1.0) /\
      location w' = smp.1.2 /\
      rotation_euler w'
      = (radians (vx smp.2), radians (vy smp.2), radians (vz smp.2)).
Proof.
  induction k as [|k IH]; intros win g; rewrite ensure_in_fov_S; cbv zeta.
  - exists g. destruct (all_corners_in_frame cam _); repeat split.
  - destruct (all_corners_in_frame cam _); [exists g; repeat split|].
    apply IH.
Qed.

End SamplerRanges.

(** X6.  [ensure_in_fov] writes the window's location, rotation and scale
    and nothing else: name, type, materials, vertices and both visibility
    flags are as they were, whatever the outcome. *)
Theorem ensure_in_fov_touches_pose_only
        (E : Engine) (G : Type) (P : PRNG G)
        (cam : Camera) (win : Obj) (max_tries : nat) (g : G) :
  let w' := (Single.ensure_in_fov cam win max_tries g).1.2 in
  name w' = name win /\ otype w' = otype win /\
  materials w' = materials win /\ vertices w' = vertices win /\
  hide_render w' = hide_render win /\ hide_viewport w' = hide_viewport win.
Proof.
  revert win g. induction max_tries as [|k IH]; intros win g; [repeat split|].
  rewrite ensure_in_fov_S. cbv zeta.
  destruct (all_corners_in_frame cam _); [repeat split|].
  match goal with
  | |- context [Single.ensure_in_fov cam ?w k ?g'] =>
      destruct (IH w g') as (? & ? & ? & ? & ? & ?)
  end.
  unfold Single.apply_pose in *. simpl in *.
  repeat split; congruence.
Qed.



(** X8.  With Python's generator, every candidate of
    [sample_window_pose_and_size] has its size within [WINDOW_SIZE_RANGE],
    its centre on the board plane within [BOARD_HALF_EXTENTS], and no
    rotation angle beyond [MAX_SKEW_DEG], the forced minimum skew
    included. *)
Theorem sampled_pose_within_ranges (G : Type) (P : PRNG G) (g : G) :
  lawful ->
  let r := (Single.sample_window_pose_and_size g).1 in
  between Single.WINDOW_SIZE_RANGE.1 Single.WINDOW_SIZE_RANGE.2 r.1.1 /\
  on_board r.1.2 /\ skew_bounded r.2.
Proof. intros Hlaw. apply sample_pose_ranges, Hlaw. Qed.

Lemma sampled_pose_within_ranges_witness :
  skew_bounded (@Single.sample_window_pose_and_size unit least_prng tt).1.2.
Proof.
  apply (sampled_pose_within_ranges unit least_prng tt least_prng_lawful).
Defined.

(** X9.  With Python's generator and one attempt or more, the window
    [ensure_in_fov] leaves, accepted or not, is a square of a side within
    [WINDOW_SIZE_RANGE] (scale [(size/2, size/2, 1)]) centred on the board
    within [BOARD_HALF_EXTENTS]. *)
Theorem ensure_in_fov_leaves_sampled_pose
        (E : Engine) (G : Type) (P : PRNG G)
        (cam : Camera) (win : Obj) (max_tries : nat) (g : G) :
  lawful -> (1 <= max_tries)%nat ->
  let w' := (Single.ensure_in_fov cam win max_tries g).1.2 in
  on_board (location w') /\
  exists size, between Single.WINDOW_SIZE_RANGE.1 Single.WINDOW_SIZE_RANGE.2 size /\
               scale w' = (size * 0.5, size * 0.5, 1.0).
Proof.
  intros Hlaw Hm. destruct max_tries as [|k]; [lia|]. cbv zeta.
  destruct (ensure_in_fov_pose cam k win g) as (g0 & Hsc & Hloc & _).
  destruct (sample_pose_ranges g0 Hlaw) as (Hsz & Hb & _).
  split; [rewrite Hloc; exact Hb|].
  eexists. split; [exact Hsz|exact Hsc].
Qed.

Lemma ensure_in_fov_leaves_sampled_pose_witness :
  on_board (location (@Single.ensure_in_fov Demo.ortho unit least_prng
                        Demo.demo_camera Demo.demo_window 2 tt).1.2).
Proof.
  apply (ensure_in_fov_leaves_sampled_pose Demo.ortho unit least_prng
           Demo.demo_camera Demo.demo_window 2 tt least_prng_lawful).
  lia.
Defined.

(* ================================================================== *)
(** * The window pool *)
(* ================================================================== *)

Lemma foldl_alter_lookup {A} (f : A -> A) (l : list nat) :
  (forall x, f (f x) = f x) ->
  forall (xs : list A) (i : nat),
    foldl (fun os j => alter f j os) xs l !! i
    = if decide (i ∈ l) then f <$> xs !! i else xs !! i.
Proof.
  intros Hf. induction l as [|j l IH]; intros xs i; simpl.
  - destruct (decide (i ∈ [])) as [Hin|]; [|reflexivity].
    now apply elem_of_nil in Hin.
  - rewrite IH, list_lookup_alter.
    destruct (decide (j = i)) as [->|Hne].
    + rewrite (decide_True (P := i ∈ i :: l)) by (apply elem_of_cons; auto).
      destruct (decide (i ∈ l)); [|reflexivity].
      destruct (xs !! i); simpl; [now rewrite Hf|reflexivity].
    + destruct (decide (i ∈ l)) as [Hin|Hn].
      * rewrite decide_True by (apply elem_of_cons; auto). reflexivity.
      * rewrite decide_False; [reflexivity|].
        rewrite elem_of_cons. intros [->|?]; congruence.
Qed.

Lemma prefix_Window (s : string) :
  String.prefix "Window_" ("Window_" +:+ s) = true.
Proof. destruct s; vm_compute; reflexivity. Qed.

Lemma is_window_named (objs : list Obj) (i : nat) :
  Single.is_window objs i = from_option named_window false (objs !! i).
Proof. unfold Single.is_window. destruct (objs !! i); reflexivity. Qed.

Lemma window_indices_elem (objs : list Obj) (i : nat) :
  i ∈ Single.window_indices objs <-> Single.is_window objs i = true.
Proof.
  unfold Single.window_indices. rewrite list_elem_of_In, filter_In, in_seq.
  split; [tauto|]. intros Hw. split; [|assumption].
  unfold Single.is_window in Hw.
  destruct (objs !! i) eqn:E; [|discriminate].
  apply lookup_lt_Some in E. lia.
Qed.

(** The window references depend on the names in the collection alone. *)
Lemma window_indices_names (l1 l2 : list Obj) :
  map name l1 = map name l2 ->
  Single.window_indices l1 = Single.window_indices l2.
Proof.
  intros Hn. unfold Single.window_indices.
  assert (Hlen : length l1 = length l2)
    by (rewrite <- (length_map name l1), Hn; apply length_map).
  rewrite Hlen. apply filter_ext. intros i.
  rewrite !is_window_named.
  assert (Hi : name <$> l1 !! i = name <$> l2 !! i)
    by (rewrite <- !list_lookup_fmap; change (map name l1 !! i = map name l2 !! i);
        now rewrite Hn).
  unfold named_window.
  destruct (l1 !! i), (l2 !! i); simpl in *; congruence.
Qed.

Lemma filter_seq_all (f : nat -> bool) (a k : nat) :
  (forall i, (a <= i < a + k)%nat -> f i = true) ->
  List.filter f (seq a k) = seq a k.
Proof.
  revert a. induction k as [|k IH]; intros a Hf; simpl; [reflexivity|].
  rewrite Hf by lia. f_equal. apply IH. intros i Hi. apply Hf. lia.
Qed.

Lemma window_indices_app (objs news : list Obj) :
  Forall (fun o => named_window o = true) news ->
  Single.window_indices (objs ++ news)
  = Single.window_indices objs ++ seq (length objs) (length news).
Proof.
  intros Hn. unfold Single.window_indices.
  rewrite length_app, List.seq_app, List.filter_app. simpl. f_equal.
  - apply filter_ext_in. intros i Hi. apply in_seq in Hi.
    unfold Single.is_window. rewrite lookup_app_l by lia. reflexivity.
  - apply filter_seq_all. intros i Hi.
    unfold Single.is_window. rewrite lookup_app_r by lia.
    destruct (news !! (i - length objs)%nat) as [o|] eqn:E.
    + rewrite Forall_forall in Hn. apply Hn.
      eapply list_elem_of_lookup_2, E.
    + apply lookup_ge_None in E. lia.
Qed.

Section PoolFacts.
Context `{Engine} {G : Type} `{PRNG G}.

(** What the [while] loop of [get_or_make_windows] appends. *)
Lemma make_windows_shape (k : nat) :
  forall (objs : list Obj) (existing : list nat) (g : G),
    let r := (Single.make_windows k objs existing g).1 in
    exists news,
      r.1 = objs ++ news /\ length news = k /\
      r.2 = existing ++ seq (length objs) k /\
      Forall (fun o => named_window o = true /\
                       materials o = [Window_RGB_EmitTransp] /\
                       vertices o = grid_vertices 1.0) news.
Proof.
  induction k as [|k IH]; intros objs existing g; simpl.
  - exists []. rewrite !app_nil_r. repeat split. constructor.
  - run_state. destruct (uniform _ _ g) as [size g1].
    match goal with
    | |- context [Single.make_windows k (objs ++ [?ob]) ?ex g1] =>
        destruct (IH (objs ++ [ob]) ex g1) as (news & Ho & Hl & He & Hf);
        exists (ob :: news)
    end.
    cbv zeta in *. rewrite Ho, He, length_app. simpl.
    rewrite <- !app_assoc. simpl.
    replace (length objs + 1)%nat with (S (length objs)) by lia.
    repeat split; [lia|]. constructor; [|assumption].
    split; [apply prefix_Window|]. split; reflexivity.
Qed.

Lemma make_windows_enough (objs : list Obj) (existing : list nat) (g : G) :
  Single.make_windows 0 objs existing g = ((objs, existing), g).
Proof. reflexivity. Qed.

End PoolFacts.

Lemma foldl_alter_map {A B} (f : A -> B) (g : A -> A) (l : list nat) :
  (forall x, f (g x) = f x) ->
  forall xs : list A, map f (foldl (fun os j => alter g j os) xs l) = map f xs.
Proof.
  intros Hfg. induction l as [|j l IH]; intros xs; simpl; [reflexivity|].
  rewrite IH. now apply map_alter_same.
Qed.

Section PoolTheorems.
Context `{Engine} {G : Type} `{PRNG G}.

Lemma get_or_make_windows_unfold (n : nat) (objs : list Obj) (g : G) :
  let ex := Single.window_indices objs in
  let k := (n - length ex)%nat in
  exists news,
    length news = k /\
    Forall (fun o => named_window o = true /\
                     materials o = [Window_RGB_EmitTransp] /\
                     vertices o = grid_vertices 1.0) news /\
    (Single.get_or_make_windows n objs g).1
    = (foldl (fun os i => alter (set_hide true true) i os) (objs ++ news)
             (ex ++ seq (length objs) k),
       ex ++ seq (length objs) k) /\
    (Single.get_or_make_windows n objs g).2
    = (Single.make_windows k objs ex g).2.
Proof.
  cbv zeta. unfold Single.get_or_make_windows. run_state.
  destruct (make_windows_shape (n - length (Single.window_indices objs)) objs
              (Single.window_indices objs) g) as (news & Ho & Hl & He & Hf).
  destruct (Single.make_windows _ objs (Single.window_indices objs) g)
    as [[objs1 ex1] g1].
  cbv zeta in *. simpl in Ho, He. subst objs1 ex1.
  exists news. repeat split; assumption.
Qed.

End PoolTheorems.

Lemma get_or_make_windows_facts
        (E : Engine) (G : Type) (P : PRNG G)
        (n : nat) (objs : list Obj) (g : G) :
  let r := Single.get_or_make_windows n objs g in
  let objs' := r.1.1 in
  let windows := r.1.2 in
  length windows = Nat.max n (length (Single.window_indices objs)) /\
  Single.window_indices objs' = windows /\
  (forall i, i ∈ windows ->
             exists o, objs' !! i = Some o /\
                       hide_render o = true /\ hide_viewport o = true) /\
  (forall i o, objs !! i = Some o ->
               objs' !! i = Some (if Single.is_window objs i
                                  then set_hide true true o else o)) /\
  ((n <= length (Single.window_indices objs))%nat ->
   r.2 = g /\ length objs' = length objs).
Proof.
  cbv zeta.
  destruct (get_or_make_windows_unfold n objs g) as (news & Hl & Hf & Hr & Hg).
  cbv zeta in *. rewrite Hr, Hg. cbn [fst snd].
  set (ex := Single.window_indices objs) in *.
  set (k := (n - length ex)%nat) in *.
  assert (Hnamed : Forall (fun o => named_window o = true) news)
    by (eapply Forall_impl; [exact Hf|]; intros o Ho; apply Ho).
  assert (Hex : forall i, i ∈ ex -> (i < length objs)%nat).
  { intros i Hi. destruct (window_indices_ok objs) as [_ Hb].
    rewrite Forall_forall in Hb. apply Hb, Hi. }
  split; [rewrite length_app, length_seq; lia|]. split; [|split; [|split]].
  - rewrite (window_indices_names _ (objs ++ news))
      by (apply foldl_alter_map; reflexivity).
    rewrite window_indices_app by assumption. now rewrite Hl.
  - intros i Hi. rewrite foldl_alter_lookup by reflexivity.
    rewrite decide_True by assumption.
    assert (Hlt : (i < length (objs ++ news))%nat).
    { rewrite length_app, Hl. apply elem_of_app in Hi.
      destruct Hi as [Hi|Hi]; [apply Hex in Hi; lia|].
      apply list_elem_of_In, in_seq in Hi. lia. }
    destruct (lookup_lt_is_Some_2 _ _ Hlt) as [o Ho]. rewrite Ho.
    eexists. split; [reflexivity|]. split; reflexivity.
  - intros i o Ho. rewrite foldl_alter_lookup by reflexivity.
    rewrite lookup_app_l by (eapply lookup_lt_Some, Ho). rewrite Ho.
    destruct (Single.is_window objs i) eqn:Ew.
    + rewrite decide_True; [reflexivity|].
      apply elem_of_app. left. now apply window_indices_elem.
    + rewrite decide_False; [reflexivity|].
      rewrite elem_of_app. intros [Hi|Hi].
      * apply window_indices_elem in Hi. congruence.
      * apply list_elem_of_In, in_seq in Hi.
        apply lookup_lt_Some in Ho. lia.
  - intros Hn. assert (Hk : k = 0%nat) by (subst k; lia).
    rewrite Hk in *. split; [reflexivity|].
    rewrite hide_all_length, length_app, Hl. lia.
Qed.

(** X10.  [get_or_make_windows(n)] reuses the pooled windows and creates
    only the missing ones.  It returns [max(n, windows already there)]
    references, which are again exactly the objects named [Window_...] of
    the collection; every returned window is hidden for render and
    viewport; an object that was in the collection stays in its place and
    is changed in its visibility flags only, and only if it is a window.
    When the pool is large enough nothing is created and no random number
    is drawn. *)
Theorem get_or_make_windows_reuses_pool
        (E : Engine) (G : Type) (P : PRNG G)
        (n : nat) (objs : list Obj) (g : G) :
  let r := Single.get_or_make_windows n objs g in
  let objs' := r.1.1 in
  let windows := r.1.2 in
  length windows = Nat.max n (length (Single.window_indices objs)) /\
  Single.window_indices objs' = windows /\
  (forall i, i ∈ windows ->
             exists o, objs' !! i = Some o /\
                       hide_render o = true /\ hide_viewport o = true) /\
  (forall i o, objs !! i = Some o ->
               objs' !! i = Some (if Single.is_window objs i
                                  then set_hide true true o else o)) /\
  ((n <= length (Single.window_indices objs))%nat ->
   r.2 = g /\ length objs' = length objs).
Proof. apply get_or_make_windows_facts. Qed.

(* ================================================================== *)
(** * The windows of a frame, in full *)
(* ================================================================== *)

Lemma map_insert_same {A B} (f : A -> B) (i : nat) (x y : A) (l : list A) :
  l !! i = Some x -> f y = f x -> map f (<[i := y]> l) = map f l.
Proof.
  revert i. induction l as [|z l IH]; intros [|i] Hl Hf; simpl in *;
    try discriminate.
  - injection Hl as ->. now rewrite Hf.
  - f_equal. unfold insert in *. now apply IH.
Qed.

Lemma randint_range {G : Type} `{PRNG G} (a b : Z) (g : G) :
  lawful -> (a <= b)%Z -> (a <= (randint a b g).1 <= b)%Z.
Proof.
  intros [_ Hb] Hab. unfold randint. run_state.
  specialize (Hb (b - a + 1)%Z g ltac:(lia)).
  destruct (randbelow (b - a + 1) g) as [k g1]. simpl in *. lia.
Qed.

Section FrameWindows.
Context `{Engine} {G : Type} `{PRNG G}.

Lemma placed_window_props (cam : Camera) (w0 : Obj) (g : G) :
  let w := placed_window cam w0 g in
  placed cam w /\ name w = name w0 /\ vertices w = vertices w0 /\
  (lawful -> on_board (location w)).
Proof.
  cbv zeta. unfold placed_window.
  destruct (ensure_in_fov_keeps cam 140 (set_hide false false w0) g)
    as (Hn & Hr & Hv & _ & Hvt).
  pose proof (ensure_in_fov_sound cam 140 (set_hide false false w0) g) as Hs.
  destruct (ensure_in_fov_pose cam 139 (set_hide false false w0) g)
    as (g0 & _ & Hloc & _).
  cbv zeta in *.
  destruct (Single.ensure_in_fov cam (set_hide false false w0) 140 g).1.1.1.
  - destruct (Hs eq_refl) as [Hin _].
    split; [repeat split; auto|]. split; [exact Hn|]. split; [exact Hvt|].
    intros Hlaw. rewrite Hloc. apply (sample_pose_ranges g0 Hlaw).
  - split; [repeat split; auto|]. split; [exact Hn|]. split; [exact Hvt|].
    intros _. unfold on_board, between, vx, vy, vz. simpl.
    repeat split; vm_compute; discriminate.
Qed.

Lemma place_window_step (cam : Camera) (i : nat) (objs : list Obj)
      (vis : list nat) (g : G) :
  (i < length objs)%nat ->
  exists w0, objs !! i = Some w0 /\
             (Single.place_window cam i (objs, vis) g).1
             = (<[i := placed_window cam w0 g]> objs, vis ++ [i]).
Proof.
  intros Hi. destruct (lookup_lt_is_Some_2 objs i Hi) as [w Hw].
  exists w. split; [assumption|].
  apply (place_window_result cam i objs vis w g Hw).
Qed.

(** The placement loop writes each referenced window once and leaves the
    other objects alone. *)
Lemma place_windows_each (cam : Camera) (l : list nat) :
  forall (objs : list Obj) (vis : list nat) (g : G),
    refs_ok objs l ->
    let st := (for_each (Single.place_window cam) l (objs, vis) g).1 in
    st.2 = vis ++ l /\ map name st.1 = map name objs /\
    (forall i, i ∈ l -> exists w0 g0, objs !! i = Some w0 /\
                                      st.1 !! i = Some (placed_window cam w0 g0)) /\
    (forall j, j ∉ l -> st.1 !! j = objs !! j).
Proof.
  induction l as [|i l IH]; intros objs vis g [Hnd Hb].
  - simpl. rewrite app_nil_r. repeat split; auto.
    intros i Hi. now apply elem_of_nil in Hi.
  - inversion Hnd as [|? ? Hni Hnd']; subst.
    inversion Hb as [|? ? Hi Hb']; subst.
    rewrite for_each_cons. cbv zeta.
    destruct (place_window_step cam i objs vis g Hi) as (w0 & Hw0 & Hst).
    destruct (Single.place_window cam i (objs, vis) g) as [[objs1 vis1] g1].
    cbn [fst snd] in *. injection Hst as -> ->.
    destruct (placed_window_props cam w0 g) as (_ & Hnm & _).
    destruct (IH (<[i := placed_window cam w0 g]> objs) (vis ++ [i]) g1)
      as (Hv2 & Hn2 & Hin2 & Hout2).
    { split; [assumption|]. rewrite length_insert. assumption. }
    split; [rewrite Hv2, <- app_assoc; reflexivity|].
    split; [rewrite Hn2; eapply map_insert_same; eauto|]. split.
    + intros j Hj. apply elem_of_cons in Hj. destruct Hj as [->|Hj].
      * exists w0, g. split; [assumption|]. rewrite Hout2 by assumption.
        apply list_lookup_insert_eq, Hi.
      * destruct (Hin2 j Hj) as (w1 & g' & Hw1 & Hs1).
        exists w1, g'. split; [|assumption].
        rewrite list_lookup_insert_ne in Hw1; [assumption|].
        intros ->. contradiction.
    + intros j Hj. rewrite not_elem_of_cons in Hj. destruct Hj as [Hji Hjl].
      rewrite Hout2 by assumption. apply list_lookup_insert_ne. congruence.
Qed.

(** The randomisation of a frame, opened up to the board collection. *)
Lemma randomize_board (script : Single.Script) (f : nat) (s : Single.Scene)
      (g : G) :
  exists (g2 g3 g4 : G),
    let cam := Single.place_camera_perpendicular (Single.cam_obj s) Single.board
                 (uniform Single.CAMERA_DIST_MIN Single.CAMERA_DIST_MAX g).1 in
    let n := Z.to_nat (randint 1 Single.MAX_WINDOWS g2).1 in
    let pool := (Single.get_or_make_windows n (Single.coll_board s) g3).1 in
    let st := (for_each (Single.place_window cam) (take n pool.2) (pool.1, []) g4).1 in
    g3 = (randint 1 Single.MAX_WINDOWS g2).2 /\
    g4 = (Single.get_or_make_windows n (Single.coll_board s) g3).2 /\
    Single.cam_obj (Single.randomize script f s g).1.1 = cam /\
    Single.coll_board (Single.randomize script f s g).1.1 = st.1 /\
    (Single.randomize script f s g).1.2 = st.2.
Proof.
  unfold Single.randomize. run_state.
  destruct (uniform _ _ g) as [dist g1].
  destruct (Single.spawn_random_lights _ g1) as [lights g2].
  exists g2. destruct (randint 1 Single.MAX_WINDOWS g2) as [n g3].
  exists g3. cbn [fst snd].
  change (Single.coll_board
            (Single.set_coll_lights lights
               (Single.set_cam_obj
                  (Single.place_camera_perpendicular (Single.cam_obj s)
                     Single.board dist) s)))
    with (Single.coll_board s).
  destruct (Single.get_or_make_windows (Z.to_nat n) (Single.coll_board s) g3)
    as [[objs windows] g4].
  exists g4. cbn [fst snd].
  change (Single.cam_obj
            (Single.set_coll_lights lights
               (Single.set_cam_obj
                  (Single.place_camera_perpendicular (Single.cam_obj s)
                     Single.board dist) s)))
    with (Single.place_camera_perpendicular (Single.cam_obj s) Single.board dist).
  destruct (for_each _ (take (Z.to_nat n) windows) (objs, []) g4)
    as [[objs2 vis] g5].
  destruct script as [|bg]; [|destruct (f <=? Single.NUM_BASE_IMAGES)%nat];
    destruct (Single.spawn_occluders_random _ _ _ g5) as [occ g6];
    repeat split.
Qed.

End FrameWindows.



(** X12.  With Python's generator, a frame shows between one and
    [MAX_WINDOWS] windows, no window twice; and every pooled window of the
    board collection that is not in [visible_windows] is hidden for render
    and viewport. *)
Theorem frame_shows_one_to_five_windows
        (E : Engine) (G : Type) (P : PRNG G)
        (script : Single.Script) (f : nat) (s : Single.Scene) (g : G) :
  lawful ->
  let r := (Single.randomize script f s g).1 in
  (1 <= length r.2 <= 5)%nat /\ NoDup r.2 /\
  (forall i, Single.is_window (Single.coll_board r.1) i = true -> i ∉ r.2 ->
             exists o, Single.coll_board r.1 !! i = Some o /\
                       hide_render o = true /\ hide_viewport o = true).
Proof.
  intros Hlaw. cbv zeta.
  destruct (randomize_board script f s g) as (g2 & g3 & g4 & Hrb).
  cbv zeta in Hrb. destruct Hrb as (-> & -> & _ & -> & ->).
  pose proof (randint_range 1 Single.MAX_WINDOWS g2 Hlaw ltac:(vm_compute; discriminate))
    as Hn.
  set (z := (randint 1 Single.MAX_WINDOWS g2).1) in *.
  unfold Single.MAX_WINDOWS in Hn.
  set (n := Z.to_nat z) in *.
  assert (Hn' : (1 <= n <= 5)%nat) by (subst n; lia).
  set (g3 := (randint 1 Single.MAX_WINDOWS g2).2) in *.
  destruct (get_or_make_windows_facts E G P n (Single.coll_board s) g3)
    as (Hlen & Hwi & Hhid & _).
  pose proof (get_or_make_windows_ok n (Single.coll_board s) g3) as Hok.
  cbv zeta in Hlen, Hwi, Hhid, Hok.
  set (pool := (Single.get_or_make_windows n (Single.coll_board s) g3).1) in *.
  set (cam := Single.place_camera_perpendicular _ _ _).
  assert (Hrefs : refs_ok pool.1 (take n pool.2)).
  { destruct Hok as [Hnd Hb]. split.
    - eapply sublist_NoDup; [exact Hnd|apply sublist_take].
    - apply Forall_take, Hb. }
  destruct (place_windows_each cam (take n pool.2) pool.1 []
              (Single.get_or_make_windows n (Single.coll_board s) g3).2 Hrefs)
    as (Hv & Hnames & _ & Hout).
  rewrite Hv. simpl. split; [|split].
  - rewrite length_take_le by lia. exact Hn'.
  - apply Hrefs.
  - intros i Hw Hni.
    apply window_indices_elem in Hw.
    rewrite (window_indices_names _ pool.1 Hnames), Hwi in Hw.
    rewrite (Hout i Hni). apply Hhid, Hw.
Qed.

Lemma frame_shows_one_to_five_windows_witness :
  (1 <= length (@Single.randomize Demo.ortho unit least_prng Single.NoBackground
                  1 (@Single.initial_scene Demo.ortho) tt).1.2 <= 5)%nat.
Proof.
  apply (frame_shows_one_to_five_windows Demo.ortho unit least_prng
           Single.NoBackground 1 (@Single.initial_scene Demo.ortho) tt
           least_prng_lawful).
Defined.

(* ================================================================== *)
(** * Lights and occluders of a frame *)
(* ================================================================== *)

(** A loop over [range(k)] whose body appends one element. *)
Lemma for_each_seq_append {G A : Type} (Q : nat -> A -> Prop)
      (body : nat -> list A -> State G (list A)) :
  (forall i acc g, exists x, (body i acc g).1 = acc ++ [x] /\ Q i x) ->
  forall (k a : nat) (acc : list A) (g : G),
    exists xs, (for_each body (seq a k) acc g).1 = acc ++ xs /\
               length xs = k /\
               (forall j x, xs !! j = Some x -> Q (a + j)%nat x).
Proof.
  intros Hbody. induction k as [|k IH]; intros a acc g.
  - exists []. simpl. rewrite app_nil_r. repeat split.
    intros j x Hj. now rewrite lookup_nil in Hj.
  - simpl seq. rewrite for_each_cons.
    destruct (Hbody a acc g) as (x & Hx & Hq). rewrite Hx.
    destruct (IH (S a) (acc ++ [x]) (body a acc g).2) as (xs & Hxs & Hl & Hqs).
    exists (x :: xs). rewrite Hxs, <- app_assoc. simpl.
    repeat split; [lia|]. intros [|j] y Hj; simpl in Hj.
    + injection Hj as <-. now rewrite Nat.add_0_r.
    + replace (a + S j)%nat with (S a + j)%nat by lia. now apply Hqs.
Qed.

Section LightFacts.
Context `{Engine} {G : Type} `{PRNG G}.

Lemma spawn_light_appends (i : nat) (lights : list Single.Light) (g : G) :
  exists l, (Single.spawn_light i lights g).1 = lights ++ [l] /\
            Single.l_name l = "RndLight_" +:+ pretty i /\
            (Single.l_size l = None <-> Single.l_type l = Single.POINT) /\
            (lawful ->
             between (-3.5) 3.5 (vx (Single.l_location l)) /\
             between (-3.5) 3.5 (vy (Single.l_location l)) /\
             between 0.6 3.8 (vz (Single.l_location l)) /\
             between Single.LIGHT_ENERGY_RANGE.1 Single.LIGHT_ENERGY_RANGE.2
                     (Single.l_energy l) /\
             (forall sz, Single.l_size l = Some sz ->
                         between Single.LIGHT_SIZE_RANGE.1
                                 Single.LIGHT_SIZE_RANGE.2 sz) /\
             between 0.85 1.0 (vx (Single.l_color l)) /\
             between 0.85 1.0 (vy (Single.l_color l)) /\
             between 0.85 1.0 (vz (Single.l_color l))).
Proof.
  unfold Single.spawn_light. run_state.
  destruct (choice Single.POINT [Single.POINT; Single.AREA] g) as [ltype g1].
  pose proof (fun Hl => uniform_between (-3.5) 3.5 g1 Hl ltac:(vm_compute; discriminate)) as Hx.
  destruct (uniform (-3.5) 3.5 g1) as [x g2].
  pose proof (fun Hl => uniform_between (-3.5) 3.5 g2 Hl ltac:(vm_compute; discriminate)) as Hy.
  destruct (uniform (-3.5) 3.5 g2) as [y g3].
  pose proof (fun Hl => uniform_between 0.6 3.8 g3 Hl ltac:(vm_compute; discriminate)) as Hz.
  destruct (uniform 0.6 3.8 g3) as [z g4].
  pose proof (fun Hl => uniform_between Single.LIGHT_ENERGY_RANGE.1
                          Single.LIGHT_ENERGY_RANGE.2 g4 Hl
                          ltac:(vm_compute; discriminate)) as He.
  destruct (uniform _ _ g4) as [e g5].
  assert (Hc : 0.85 <= 1.0) by (vm_compute; discriminate).
  destruct ltype;
    [|pose proof (fun Hl => uniform_between Single.LIGHT_SIZE_RANGE.1
                              Single.LIGHT_SIZE_RANGE.2 g5 Hl
                              ltac:(vm_compute; discriminate)) as Hs;
      destruct (uniform Single.LIGHT_SIZE_RANGE.1 Single.LIGHT_SIZE_RANGE.2 g5)
        as [sz g5']];
    (match goal with
     | |- context [uniform 0.85 1.0 ?gg] =>
         pose proof (fun Hl => uniform_between 0.85 1.0 gg Hl Hc) as Hr;
         destruct (uniform 0.85 1.0 gg) as [r g7]
     end);
    pose proof (fun Hl => uniform_between 0.85 1.0 g7 Hl Hc) as Hg;
    destruct (uniform 0.85 1.0 g7) as [gr g8];
    pose proof (fun Hl => uniform_between 0.85 1.0 g8 Hl Hc) as Hb;
    destruct (uniform 0.85 1.0 g8) as [b g9];
    (eexists; split; [reflexivity|]; simpl;
     split; [reflexivity|]; split; [split; congruence|];
     intros Hl; unfold vx, vy, vz; simpl;
     split; [exact (Hx Hl)|]; split; [exact (Hy Hl)|];
     split; [exact (Hz Hl)|]; split; [exact (He Hl)|];
     split; [intros sz' Hsz;
             first [discriminate | injection Hsz as <-; exact (Hs Hl)]|];
     split; [exact (Hr Hl)|]; split; [exact (Hg Hl)|exact (Hb Hl)]).
Qed.

Lemma spawn_occluder_appends (b : Obj) (i : nat) (occ : list Obj) (g : G) :
  exists o, (Single.spawn_occluder b i occ g).1 = occ ++ [o] /\
            name o = "Occ_" +:+ pretty i /\ otype o = MESH /\
            materials o = [] /\ hide_render o = false /\
            rotation_euler o = vzero /\
            (exists s, scale o = (s, s, s) /\
                       (lawful -> between Single.OCCLUDER_SIZE_RANGE.1
                                          Single.OCCLUDER_SIZE_RANGE.2 s)) /\
            (lawful ->
             between (- Single.BOARD_HALF_EXTENTS.1) Single.BOARD_HALF_EXTENTS.1
                     (vx (location o)) /\
             between (- Single.BOARD_HALF_EXTENTS.2) Single.BOARD_HALF_EXTENTS.2
                     (vy (location o))).
Proof.
  unfold Single.spawn_occluder. run_state.
  pose proof (fun Hl => uniform_between Single.OCCLUDER_SIZE_RANGE.1
                          Single.OCCLUDER_SIZE_RANGE.2 g Hl
                          ltac:(vm_compute; discriminate)) as Hs.
  destruct (uniform _ _ g) as [s g1].
  destruct (uniform _ _ g1) as [depth g2].
  pose proof (fun Hl => uniform_between (- Single.BOARD_HALF_EXTENTS.1)
                          Single.BOARD_HALF_EXTENTS.1 g2 Hl
                          ltac:(vm_compute; discriminate)) as Hx.
  destruct (uniform _ _ g2) as [px g3].
  pose proof (fun Hl => uniform_between (- Single.BOARD_HALF_EXTENTS.2)
                          Single.BOARD_HALF_EXTENTS.2 g3 Hl
                          ltac:(vm_compute; discriminate)) as Hy.
  destruct (uniform _ _ g3) as [py g4].
  eexists. split; [reflexivity|]. simpl.
  split; [reflexivity|]. split; [reflexivity|]. split; [reflexivity|].
  split; [reflexivity|]. split; [reflexivity|].
  split; [exists s; split; [reflexivity|exact Hs]|].
  intros Hl. unfold vx, vy. simpl. split; [exact (Hx Hl)|exact (Hy Hl)].
Qed.

End LightFacts.

(** X13.  [spawn_random_lights(n)] replaces the lights by exactly [n] new
    ones, named [RndLight_0 .. RndLight_(n-1)] in order; a light has a size
    exactly when it is an area light; and with Python's generator every
    position, energy, size and colour channel is within its configured
    range. *)
Theorem spawn_random_lights_makes_n_lights
        (G : Type) (P : PRNG G) (n : nat) (g : G) :
  let lights := (Single.spawn_random_lights n g).1 in
  length lights = n /\
  (forall j l, lights !! j = Some l ->
     Single.l_name l = "RndLight_" +:+ pretty j /\
     (Single.l_size l = None <-> Single.l_type l = Single.POINT) /\
     (lawful ->
      between (-3.5) 3.5 (vx (Single.l_location l)) /\
      between (-3.5) 3.5 (vy (Single.l_location l)) /\
      between 0.6 3.8 (vz (Single.l_location l)) /\
      between Single.LIGHT_ENERGY_RANGE.1 Single.LIGHT_ENERGY_RANGE.2
              (Single.l_energy l) /\
      (forall sz, Single.l_size l = Some sz ->
                  between Single.LIGHT_SIZE_RANGE.1 Single.LIGHT_SIZE_RANGE.2 sz) /\
      between 0.85 1.0 (vx (Single.l_color l)) /\
      between 0.85 1.0 (vy (Single.l_color l)) /\
      between 0.85 1.0 (vz (Single.l_color l)))).
Proof.
  cbv zeta. unfold Single.spawn_random_lights.
  destruct (for_each_seq_append _ Single.spawn_light
              (fun i acc g0 => spawn_light_appends i acc g0) n 0 [] g)
    as (xs & Hxs & Hl & Hq).
  rewrite Hxs. simpl. split; [exact Hl|]. intros j l Hj. apply (Hq j l Hj).
Qed.

(** X14.  [spawn_occluders_random(board, n_min, n_max)] fills the emptied
    collection with as many cubes as [random.randint(n_min, n_max)] returned,
    named [Occ_0, Occ_1, ...]: mesh objects without a material, unrotated,
    scaled equally on the three axes.  With Python's generator and
    [0 <= n_min <= n_max] their number is between [n_min] and [n_max], the
    scale is within [OCCLUDER_SIZE_RANGE], and [x], [y] are within
    [BOARD_HALF_EXTENTS]. *)
Theorem spawn_occluders_random_makes_cubes
        (E : Engine) (G : Type) (P : PRNG G)
        (b : Obj) (n_min n_max : Z) (g : G) :
  let occ := (Single.spawn_occluders_random b n_min n_max g).1 in
  length occ = Z.to_nat (randint n_min n_max g).1 /\
  (lawful -> (0 <= n_min <= n_max)%Z ->
   (n_min <= Z.of_nat (length occ) <= n_max)%Z) /\
  (forall j o, occ !! j = Some o ->
     name o = "Occ_" +:+ pretty j /\ otype o = MESH /\ materials o = [] /\
     hide_render o = false /\ rotation_euler o = vzero /\
     (exists s, scale o = (s, s, s) /\
                (lawful -> between Single.OCCLUDER_SIZE_RANGE.1
                                   Single.OCCLUDER_SIZE_RANGE.2 s)) /\
     (lawful ->
      between (- Single.BOARD_HALF_EXTENTS.1) Single.BOARD_HALF_EXTENTS.1
              (vx (location o)) /\
      between (- Single.BOARD_HALF_EXTENTS.2) Single.BOARD_HALF_EXTENTS.2
              (vy (location o)))).
Proof.
  cbv zeta. unfold Single.spawn_occluders_random. run_state.
  pose proof (fun Hl Hr => randint_range n_min n_max g Hl Hr) as Hc.
  destruct (randint n_min n_max g) as [count g1]. cbn [fst snd] in *.
  destruct (for_each_seq_append _ (Single.spawn_occluder b)
              (fun i acc g0 => spawn_occluder_appends b i acc g0)
              (Z.to_nat count) 0 [] g1) as (xs & Hxs & Hl & Hq).
  rewrite Hxs. simpl. split; [exact Hl|]. split.
  - intros Hlaw Hn. specialize (Hc Hlaw ltac:(lia)). rewrite Hl. lia.
  - intros j o Hj. apply (Hq j o Hj).
Qed.

(* ================================================================== *)
(** * More on the non-overlapping centres *)
(* ================================================================== *)

Section NonOverlapMore.
Context {G : Type} `{PRNG G}.

Lemma sample_loop_extends (n : nat) (d : Q) (fuel : nat) :
  forall (pts : list (Q * Q)) (g : G),
    exists more, (MultiCam.sample_loop fuel n d pts g).1 = pts ++ more.
Proof.
  induction fuel as [|k IH]; intros pts g; simpl.
  - exists []. now rewrite app_nil_r.
  - destruct (length pts <? n)%nat; [|exists []; now rewrite app_nil_r].
    run_state.
    destruct (uniform (-0.9) 0.9 g) as [cx g1].
    destruct (uniform (-0.6) 0.6 g1) as [cy g2].
    destruct (forallb (MultiCam.dist_ge d (cx, cy)) pts).
    + destruct (IH (pts ++ [(cx, cy)]) g2) as [more Hm].
      exists ((cx, cy) :: more). rewrite Hm, <- app_assoc. reflexivity.
    + apply IH.
Qed.

Lemma sample_loop_first (n : nat) (d : Q) (fuel : nat) (g : G) :
  (1 <= n)%nat ->
  exists c g', MultiCam.sample_loop (S fuel) n d [] g
               = MultiCam.sample_loop fuel n d [c] g'.
Proof.
  intros Hn. simpl. destruct (Nat.ltb_spec 0 n) as [_|Hge]; [|lia].
  run_state.
  destruct (uniform (-0.9) 0.9 g) as [cx g1].
  destruct (uniform (-0.6) 0.6 g1) as [cy g2].
  exists (cx, cy), g2. reflexivity.
Qed.

Lemma sample_loop_in_field (n : nat) (d : Q) (fuel : nat) :
  lawful ->
  forall (pts : list (Q * Q)) (g : G),
    Forall in_field pts ->
    Forall in_field (MultiCam.sample_loop fuel n d pts g).1.
Proof.
  intros Hlaw. induction fuel as [|k IH]; intros pts g Hp; simpl; [exact Hp|].
  destruct (length pts <? n)%nat; [|exact Hp]. run_state.
  pose proof (uniform_between (-0.9) 0.9 g Hlaw ltac:(vm_compute; discriminate))
    as Hx.
  destruct (uniform (-0.9) 0.9 g) as [cx g1].
  pose proof (uniform_between (-0.6) 0.6 g1 Hlaw ltac:(vm_compute; discriminate))
    as Hy.
  destruct (uniform (-0.6) 0.6 g1) as [cy g2].
  destruct (forallb (MultiCam.dist_ge d (cx, cy)) pts); apply IH; [|exact Hp].
  apply Forall_app. split; [exact Hp|]. constructor; [|constructor].
  split; assumption.
Qed.

Lemma sample_loop_no_separation (n : nat) (d : Q) (fuel : nat) :
  d <= 0 ->
  forall (pts : list (Q * Q)) (g : G),
    (length pts <= n)%nat ->
    length (MultiCam.sample_loop fuel n d pts g).1
    = Nat.min n (length pts + fuel).
Proof.
  intros Hd. induction fuel as [|k IH]; intros pts g Hl; simpl; [lia|].
  destruct (Nat.ltb_spec (length pts) n) as [Hlt|Hge]; run_state;
    [|simpl; lia].
  destruct (uniform (-0.9) 0.9 g) as [cx g1].
  destruct (uniform (-0.6) 0.6 g1) as [cy g2].
  assert (Hall : forallb (MultiCam.dist_ge d (cx, cy)) pts = true).
  { apply forallb_forall. intros p _. unfold MultiCam.dist_ge.
    apply orb_true_iff. left. now apply Qle_bool_iff. }
  rewrite Hall, IH by (rewrite length_app; simpl; lia).
  rewrite length_app. simpl. lia.
Qed.

End NonOverlapMore.

(** X15.  [sample_nonoverlap(n, d)]: asked for one centre or more it
    returns at least one, since the first candidate is compared with
    nothing; with a separation [d <= 0] every candidate passes and it
    returns exactly [min(n, 250)]; and with Python's generator every centre
    lies within the placement bounds [-0.9 .. 0.9] by [-0.6 .. 0.6]. *)
Theorem sample_nonoverlap_yield (G : Type) (P : PRNG G) (n : nat) (d : Q) (g : G) :
  let pts := (MultiCam.sample_nonoverlap n d g).1 in
  ((1 <= n)%nat -> (1 <= length pts)%nat) /\
  (d <= 0 -> length pts = Nat.min n 250) /\
  (lawful -> Forall in_field pts).
Proof.
  cbv zeta. unfold MultiCam.sample_nonoverlap. split; [|split].
  - intros Hn.
    destruct (sample_loop_first n d 249 g Hn) as (c & g' & Hc).
    change 250%nat with (S 249). rewrite Hc.
    destruct (sample_loop_extends n d 249 [c] g') as [more ->].
    rewrite length_app. cbn [length]. lia.
  - intros Hd.
    rewrite sample_loop_no_separation; [reflexivity|exact Hd|simpl; lia].
  - intros Hlaw. apply sample_loop_in_field; [exact Hlaw|constructor].
Qed.

(* ================================================================== *)
(** * Where the multi-camera script puts its windows *)
(* ================================================================== *)

Lemma nth_lookup_some {A} (l : list A) (i : nat) (d x : A) :
  l !! i = Some x -> nth i l d = x.
Proof.
  revert i. induction l as [|y l IH]; intros [|i] Hl; simpl in *;
    try discriminate.
  - now injection Hl.
  - now apply IH.
Qed.

Lemma lookup_map {A B} (f : A -> B) (l : list A) (k : nat) :
  map f l !! k = f <$> l !! k.
Proof.
  revert k. induction l as [|x l IH]; intros [|k]; simpl; auto.
Qed.

Section PlaceWindowsMore.
Context `{Engine} {G : Type} `{PRNG G}.

(** What the body of the loop of [place_windows] does to one pair. *)
Lemma place_pair_result (centers : list (Q * Q)) (idx : nat) (r0 m0 : Obj)
      (g : G) :
  let p := (MultiCam.place_pair centers idx (r0, m0) g).1 in
  name p.1 = name r0 /\ materials p.1 = materials r0 /\
  vertices p.1 = vertices r0 /\
  p.2 = set_hide (negb (idx <? length centers)%nat)
                 (negb (idx <? length centers)%nat) m0 /\
  match centers !! idx with
  | Some c =>
      vx (location p.1) = c.1 /\ vy (location p.1) = c.2 /\
      (lawful -> between (-0.02) 0.02 (vz (location p.1))) /\
      exists sc, scale p.1 = (sc, sc, sc) /\ (lawful -> between 0.7 1.25 sc)
  | None => pose p.1 = pose r0
  end.
Proof.
  cbv zeta. unfold MultiCam.place_pair. run_state.
  destruct (centers !! idx) as [c|] eqn:Ec.
  - assert (Hlt : (idx <? length centers)%nat = true)
      by (apply Nat.ltb_lt; eapply lookup_lt_Some, Ec).
    rewrite Hlt, (nth_lookup_some centers idx (0, 0) c Ec).
    destruct (uniform (-25) 25 g) as [a g1].
    destruct (uniform (-25) 25 g1) as [b g2].
    destruct (uniform 0 360 g2) as [cc g3].
    pose proof (fun Hl => uniform_between 0.7 1.25 g3 Hl
                            ltac:(vm_compute; discriminate)) as Hs.
    destruct (uniform 0.7 1.25 g3) as [sc g4].
    pose proof (fun Hl => uniform_between (-0.02) 0.02 g4 Hl
                            ltac:(vm_compute; discriminate)) as Hz.
    destruct (uniform (-0.02) 0.02 g4) as [z g5].
    simpl. split; [reflexivity|]. split; [reflexivity|].
    split; [reflexivity|]. split; [reflexivity|].
    split; [reflexivity|]. split; [reflexivity|]. split; [exact Hz|].
    exists sc. split; [reflexivity|exact Hs].
  - assert (Hge : (idx <? length centers)%nat = false)
      by (apply Nat.ltb_ge; now apply lookup_ge_None).
    rewrite Hge. simpl. repeat split.
Qed.

Lemma place_loop_lookup (centers : list (Q * Q)) (ps : list (Obj * Obj)) :
  forall (idx : nat) (g : G),
    let out := (MultiCam.place_loop centers idx ps g).1 in
    length out = length ps /\
    (forall k p', out !! k = Some p' ->
       exists p g', ps !! k = Some p /\
                    p' = (MultiCam.place_pair centers (idx + k) p g').1).
Proof.
  induction ps as [|p ps IH]; intros idx g; simpl.
  - split; [reflexivity|]. intros k p' Hk. now rewrite lookup_nil in Hk.
  - run_state.
    destruct (MultiCam.place_pair centers idx p g) as [p1 g1] eqn:Ep.
    destruct (IH (S idx) g1) as [Hl Hk].
    destruct (MultiCam.place_loop centers (S idx) ps g1) as [rest g2].
    simpl in *. split; [now rewrite Hl|].
    intros [|k] p' Hp'; simpl in Hp'.
    + injection Hp' as <-. exists p, g. rewrite Nat.add_0_r, Ep. auto.
    + destruct (Hk k p' Hp') as (q & g' & Hq & ->).
      exists q, g'. replace (idx + S k)%nat with (S idx + k)%nat by lia. auto.
Qed.

End PlaceWindowsMore.

(** X16.  [place_windows(n)] keeps the pool of pairs as it is in number,
    names, materials and meshes.  The RGB window at position [k] is moved to
    centre [k] of [sample_nonoverlap] when there is one, with the same scale
    on its three axes, and keeps its pose when there is none; its twin gets
    the same pose either way.  With Python's generator the scale is within
    [0.7 .. 1.25] and the height within [-0.02 .. 0.02]. *)
Theorem place_windows_puts_windows_at_centres
        (E : Engine) (G : Type) (P : PRNG G)
        (n : nat) (s : MultiCam.Scene) (g : G) :
  let centers := (MultiCam.sample_nonoverlap n 0.38 g).1 in
  let ps := MultiCam.pairs (MultiCam.place_windows n s g).1 in
  length ps = length (MultiCam.pairs s) /\
  (forall k r m, ps !! k = Some (r, m) ->
     exists r0 m0,
       MultiCam.pairs s !! k = Some (r0, m0) /\
       name r = name r0 /\ materials r = materials r0 /\
       vertices r = vertices r0 /\
       name m = name m0 /\ materials m = materials m0 /\
       vertices m = vertices m0 /\
       pose m = pose r /\
       match centers !! k with
       | Some c =>
           vx (location r) = c.1 /\ vy (location r) = c.2 /\
           (lawful -> between (-0.02) 0.02 (vz (location r))) /\
           exists sc, scale r = (sc, sc, sc) /\ (lawful -> between 0.7 1.25 sc)
       | None => pose r = pose r0
       end).
Proof.
  cbv zeta. rewrite place_windows_pairs.
  set (centers := (MultiCam.sample_nonoverlap n 0.38 g).1).
  destruct (place_loop_lookup centers (MultiCam.pairs s) 0
              (MultiCam.sample_nonoverlap n 0.38 g).2) as [Hl Hk].
  cbv zeta in *. unfold MultiCam.sync_twins. split.
  - rewrite length_map. exact Hl.
  - intros k r m Hrm.
    rewrite lookup_map in Hrm.
    destruct ((MultiCam.place_loop centers 0 (MultiCam.pairs s) _).1 !! k)
      as [[r1 m1]|] eqn:E1; [|discriminate].
    simpl in Hrm. injection Hrm as Hr1 Hm1. subst r m.
    destruct (Hk k (r1, m1) E1) as ([r0 m0] & g' & Hp & Hpp).
    change (0 + k)%nat with k in Hpp.
    destruct (place_pair_result centers k r0 m0 g') as (Hn & Hm & Hv & Htw & Hc).
    rewrite <- Hpp in Hn, Hm, Hv, Htw, Hc. cbn [fst snd] in Hn, Hm, Hv, Htw, Hc.
    exists r0, m0. split; [exact Hp|].
    split; [exact Hn|]. split; [exact Hm|]. split; [exact Hv|].
    subst m1. repeat split; try reflexivity. exact Hc.
Qed.

(* ================================================================== *)
(** * The keypoint pass *)
(* ================================================================== *)

Section KeypointFacts.
Context `{Engine}.

Lemma corners_length (w : Obj) :
  length (plane_world_corners w) = Nat.min 4 (length (vertices w)).
Proof. unfold plane_world_corners. now rewrite length_map, length_take. Qed.

Lemma single_window_keypoints_some (cam : Camera) (w : Obj) :
  is_Some (Single.window_keypoints cam w) <-> (4 <= length (vertices w))%nat.
Proof.
  unfold Single.window_keypoints.
  set (px := project_to_pixels cam (plane_world_corners w) _ _).
  assert (Hl : length px = Nat.min 4 (length (vertices w)))
    by (unfold px, project_to_pixels; now rewrite length_map, corners_length).
  destruct (order_defined px) as [Hlt Hge]. split.
  - intros [r Hr]. destruct (Nat.le_gt_cases 4 (length (vertices w))); [auto|].
    rewrite Hlt in Hr by lia. discriminate.
  - intros H4. destruct Hge as (out & -> & _); [lia|]. simpl. eauto.
Qed.

Lemma single_window_keypoints_four (cam : Camera) (w : Obj)
      (r : Single.KptRecord) :
  Single.window_keypoints cam w = Some r ->
  Single.object_name r = name w /\ length (Single.keypoints r) = 4%nat.
Proof.
  unfold Single.window_keypoints.
  set (px := project_to_pixels cam (plane_world_corners w) _ _).
  destruct (order_defined px) as [Hlt Hge].
  destruct (Nat.le_gt_cases 4 (length px)) as [H4|H4].
  - destruct (Hge H4) as (out & -> & Hlen & _). simpl.
    intros Hr. injection Hr as <-. auto.
  - rewrite (Hlt H4). discriminate.
Qed.

Lemma multicam_window_keypoints_some (cam : Camera) (w : Obj) :
  is_Some (MultiCam.window_keypoints cam w) <-> (4 <= length (vertices w))%nat.
Proof.
  unfold MultiCam.window_keypoints.
  set (px := project_pixels cam (plane_world_corners w) _ _).
  assert (Hl : length px = Nat.min 4 (length (vertices w)))
    by (unfold px, project_pixels; now rewrite length_map, corners_length).
  destruct (order_defined px) as [Hlt Hge]. split.
  - intros [r Hr]. destruct (Nat.le_gt_cases 4 (length (vertices w))); [auto|].
    rewrite Hlt in Hr by lia. discriminate.
  - intros H4. destruct Hge as (out & -> & _); [lia|]. simpl. eauto.
Qed.

Lemma multicam_window_keypoints_four (cam : Camera) (w : Obj)
      (r : MultiCam.KptRecord) :
  MultiCam.window_keypoints cam w = Some r ->
  MultiCam.object_name r = name w /\ length (MultiCam.keypoints r) = 4%nat.
Proof.
  unfold MultiCam.window_keypoints.
  set (px := project_pixels cam (plane_world_corners w) _ _).
  destruct (order_defined px) as [Hlt Hge].
  destruct (Nat.le_gt_cases 4 (length px)) as [H4|H4].
  - destruct (Hge H4) as (out & -> & Hlen & _). simpl.
    intros Hr. injection Hr as <-. auto.
  - rewrite (Hlt H4). discriminate.
Qed.

Lemma single_keypoints_pass_some (vis : list nat) (s : Single.Scene) :
  is_Some (Single.keypoints_pass vis s) <->
  Forall (fun i => exists w, Single.coll_board s !! i = Some w /\
                             (4 <= length (vertices w))%nat) vis.
Proof.
  unfold Single.keypoints_pass. rewrite mapM_is_Some.
  apply Forall_iff. intros i. simpl.
  destruct (Single.coll_board s !! i) as [w|]; simpl.
  - rewrite single_window_keypoints_some. split; [eauto|].
    intros (w' & Hw & H4). now injection Hw as ->.
  - split; [intros [? ?]; discriminate|intros (? & ? & _); discriminate].
Qed.

End KeypointFacts.

(** X17.  The keypoint pass of the single-camera scripts succeeds exactly
    when every visible window is in the board collection with four vertices
    or more (otherwise it raises).  When it succeeds it has one record per
    visible window, in the order of [visible_windows], under the window's
    name, with exactly four pixels, all inside the 640 by 648 image. *)
Theorem keypoints_pass_lists_visible_windows
        (E : Engine) (vis : list nat) (s : Single.Scene) :
  (is_Some (Single.keypoints_pass vis s) <->
   Forall (fun i => exists w, Single.coll_board s !! i = Some w /\
                              (4 <= length (vertices w))%nat) vis) /\
  (forall recs, Single.keypoints_pass vis s = Some recs ->
     Forall2 (fun i r => exists w,
                  Single.coll_board s !! i = Some w /\
                  Single.object_name r = name w /\
                  length (Single.keypoints r) = 4%nat /\
                  Forall (in_image 640 648) (Single.keypoints r)) vis recs).
Proof.
  split; [apply single_keypoints_pass_some|].
  intros recs Hm. unfold Single.keypoints_pass in Hm. apply mapM_Some in Hm.
  eapply Forall2_impl; [exact Hm|]. intros i r Hir. simpl in Hir.
  destruct (Single.coll_board s !! i) as [w|]; [|discriminate].
  simpl in Hir. exists w. split; [reflexivity|].
  destruct (single_window_keypoints_four _ _ _ Hir) as [Hn H4].
  split; [exact Hn|]. split; [exact H4|].
  eapply single_keypoints_in_image, Hir.
Qed.

(* ================================================================== *)
(** * The run writes one keypoint file per frame *)
(* ================================================================== *)

Lemma quads_by_vertices (l1 l2 : list Obj) :
  map vertices l1 = map vertices l2 -> quads l1 -> quads l2.
Proof.
  unfold quads. revert l2. induction l1 as [|x l1 IH]; intros [|y l2] Hm Hq;
    simpl in Hm; try discriminate; [constructor|].
  injection Hm as Hxy Hm. inversion Hq as [|? ? Hx Hq']; subst.
  constructor; [now rewrite <- Hxy|]. now apply IH.
Qed.

Section RunLength.
Context `{Engine} {G : Type} `{PRNG G}.

Lemma place_windows_vertices (cam : Camera) (l : list nat) :
  forall (objs : list Obj) (vis : list nat) (g : G),
    refs_ok objs l ->
    map vertices (for_each (Single.place_window cam) l (objs, vis) g).1.1
    = map vertices objs.
Proof.
  induction l as [|i l IH]; intros objs vis g [Hnd Hb]; [reflexivity|].
  inversion Hnd as [|? ? Hni Hnd']; subst.
  inversion Hb as [|? ? Hi Hb']; subst.
  rewrite for_each_cons.
  destruct (place_window_step cam i objs vis g Hi) as (w0 & Hw0 & Hst).
  destruct (Single.place_window cam i (objs, vis) g) as [[objs1 vis1] g1].
  cbn [fst snd] in *. injection Hst as -> ->.
  destruct (placed_window_props cam w0 g) as (_ & _ & Hvt & _).
  rewrite IH.
  - eapply map_insert_same; eauto.
  - split; [assumption|]. rewrite length_insert. assumption.
Qed.

Lemma get_or_make_windows_quads (n : nat) (objs : list Obj) (g : G) :
  quad_grid -> quads objs ->
  quads (Single.get_or_make_windows n objs g).1.1.
Proof.
  intros Hq Hobjs.
  destruct (get_or_make_windows_unfold n objs g) as (news & _ & Hf & Hr & _).
  cbv zeta in Hr. rewrite Hr. cbn [fst snd].
  eapply (quads_by_vertices (objs ++ news)).
  - symmetry. apply foldl_alter_map. reflexivity.
  - unfold quads. apply Forall_app. split; [exact Hobjs|].
    eapply Forall_impl; [exact Hf|]. intros o (_ & _ & Hv). simpl.
    rewrite Hv, Hq. lia.
Qed.

(** After the randomisation the board collection still holds quads, and the
    visible windows are in it. *)
Lemma randomize_quads (script : Single.Script) (f : nat) (s : Single.Scene)
      (g : G) :
  quad_grid -> quads (Single.coll_board s) ->
  let r := (Single.randomize script f s g).1 in
  quads (Single.coll_board r.1) /\
  Forall (fun i => is_Some (Single.coll_board r.1 !! i)) r.2.
Proof.
  intros Hq Hs. cbv zeta.
  destruct (randomize_board script f s g) as (g2 & g3 & g4 & Hrb).
  cbv zeta in Hrb. destruct Hrb as (-> & -> & _ & -> & ->).
  set (n := Z.to_nat (randint 1 Single.MAX_WINDOWS g2).1) in *.
  set (g3 := (randint 1 Single.MAX_WINDOWS g2).2) in *.
  pose proof (get_or_make_windows_ok n (Single.coll_board s) g3) as Hok.
  pose proof (get_or_make_windows_quads n (Single.coll_board s) g3 Hq Hs) as Hpq.
  cbv zeta in Hok.
  set (pool := (Single.get_or_make_windows n (Single.coll_board s) g3).1) in *.
  set (cam := Single.place_camera_perpendicular _ _ _).
  assert (Hrefs : refs_ok pool.1 (take n pool.2)).
  { destruct Hok as [Hnd Hb]. split.
    - eapply sublist_NoDup; [exact Hnd|apply sublist_take].
    - apply Forall_take, Hb. }
  pose proof (place_windows_vertices cam (take n pool.2) pool.1 []
                (Single.get_or_make_windows n (Single.coll_board s) g3).2 Hrefs)
    as Hvt.
  destruct (place_windows_each cam (take n pool.2) pool.1 []
              (Single.get_or_make_windows n (Single.coll_board s) g3).2 Hrefs)
    as (Hv & _ & Hin & _).
  split.
  - eapply quads_by_vertices; [symmetry; exact Hvt|exact Hpq].
  - rewrite Hv. simpl. apply Forall_forall. intros i Hi.
    destruct (Hin i Hi) as (w0 & g0 & _ & Hw). rewrite Hw. eauto.
Qed.

Lemma frame_writes_keypoints {Image} (render : Single.Scene -> Image)
      (script : Single.Script) (f : nat) (s : Single.Scene) (g : G) :
  quad_grid -> quads (Single.coll_board s) ->
  let r := (Single.frame render script f s g).1 in
  quads (Single.coll_board r.1) /\
  exists recs, Single.out_kpt r.2 = Some (Single.kpt_payload f recs).
Proof.
  intros Hq Hs. cbv zeta.
  pose proof (randomize_quads script f s g Hq Hs) as Hr. cbv zeta in Hr.
  unfold Single.frame, Single.capture. run_state.
  destruct (Single.randomize script f s g) as [[s1 vis] g1].
  cbn [fst snd] in Hr. destruct Hr as [Hq1 Hvis].
  pose proof (rgb_pass_board script f vis s1 g1) as Hb1.
  destruct (rgb_pass_rest script f vis s1 g1) as (Hc1 & _).
  destruct (Single.rgb_pass script f vis s1 g1) as [s2 g2].
  cbn [fst snd] in *.
  pose proof (mask_pass_board script f vis s2) as Hb2.
  destruct (mask_pass_rest script f vis s2) as (Hc2 & _).
  assert (Hk : Single.keypoints_pass vis (Single.mask_pass script f vis s2)
               = Single.keypoints_pass vis s1).
  { rewrite (keypoints_pass_swap vis vis Window_MASK_Union s2 _ Hc2 Hb2).
    apply (keypoints_pass_swap vis vis Window_RGB_EmitTransp s1 _ Hc1 Hb1). }
  split.
  - rewrite Hb2, Hb1. eapply quads_by_vertices; [|exact Hq1].
    symmetry. rewrite !swap_materials_keeps by reflexivity. reflexivity.
  - rewrite Hk.
    assert (Hsome : is_Some (Single.keypoints_pass vis s1)).
    { apply single_keypoints_pass_some. apply Forall_forall. intros i Hi.
      rewrite Forall_forall in Hvis. destruct (Hvis i Hi) as [w Hw].
      exists w. split; [exact Hw|].
      unfold quads in Hq1. rewrite Forall_forall in Hq1. apply Hq1.
      eapply list_elem_of_lookup_2, Hw. }
    destruct Hsome as [recs ->]. exists recs. reflexivity.
Qed.

Lemma render_loop_writes_all {Image} (render : Single.Scene -> Image)
      (script : Single.Script) (fs : list nat) :
  quad_grid ->
  forall (s : Single.Scene) (g : G),
    quads (Single.coll_board s) ->
    Forall2 (fun f o => exists recs,
                 Single.out_kpt o = Some (Single.kpt_payload f recs))
            fs (Single.render_loop render script fs s g).1.
Proof.
  intros Hq. induction fs as [|f fs IH]; intros s g Hs; simpl; [constructor|].
  run_state.
  destruct (frame_writes_keypoints render script f s g Hq Hs) as (Hs1 & recs & Hk).
  destruct (Single.frame render script f s g) as [[s1 o] g1].
  cbn [fst snd] in *. rewrite Hk.
  specialize (IH s1 g1 Hs1).
  destruct (Single.render_loop render script fs s1 g1) as [rest g2].
  simpl in *. constructor; [eauto|exact IH].
Qed.

End RunLength.

Lemma ortho_quad_grid : @quad_grid Demo.ortho.
Proof. intros size. reflexivity. Qed.

(** X18.  When the engine's one-segment grid is a quad, the keypoint pass
    never raises: a run of [n] frames writes [n] outputs, and the output at
    position [k] carries the keypoint file of frame [k + 1], named after
    [img_] and [mask_] with the frame number padded to four digits, at the
    resolution 640 by 648. *)
Theorem run_writes_every_frame
        (E : Engine) (G : Type) (P : PRNG G) (Image : Type)
        (render : Single.Scene -> Image) (script : Single.Script)
        (sd : Z) (n : nat) :
  quad_grid ->
  let outs := Single.run render script sd n in
  length outs = n /\
  (forall k o, outs !! k = Some o ->
     exists p, Single.out_kpt o = Some p /\
               Single.kp_frame p = S k /\
               Single.kp_image p = "img_" +:+ Single.fmt04 (S k) +:+ ".png" /\
               Single.kp_mask p = "mask_" +:+ Single.fmt04 (S k) +:+ ".png" /\
               Single.kp_resolution p = (640, 648)%Z).
Proof.
  intros Hq. cbv zeta. unfold Single.run.
  assert (Hinit : quads (Single.coll_board Single.initial_scene)).
  { unfold quads. constructor; [|constructor]. simpl. rewrite Hq. lia. }
  pose proof (render_loop_writes_all render script (seq 1 n) Hq
                Single.initial_scene (seed sd) Hinit) as Hall.
  split.
  - rewrite <- (Forall2_length _ _ _ Hall). apply length_seq.
  - intros k o Ho.
    destruct (Forall2_lookup_r _ _ _ _ _ Hall Ho) as (f & Hf & recs & Hk).
    apply lookup_seq in Hf. destruct Hf as [-> _].
    eexists. split; [exact Hk|]. repeat split.
Qed.

Lemma run_writes_every_frame_witness :
  length (@Single.run Demo.ortho _ Demo.tape_prng unit (fun _ => tt)
            Single.NoBackground 11 3) = 3%nat.
Proof.
  apply (run_writes_every_frame Demo.ortho _ Demo.tape_prng unit (fun _ => tt)
           Single.NoBackground 11 3 ortho_quad_grid).
Defined.

(* ================================================================== *)
(** * The occluders and the camera loop of the multi-camera script *)
(* ================================================================== *)

Lemma prefix_occ (s : string) : String.prefix "occ_" ("occ_" +:+ s) = true.
Proof. destruct s; vm_compute; reflexivity. Qed.

Lemma filter_none {A} (f : A -> bool) (l : list A) :
  Forall (fun x => f x = false) l -> List.filter f l = [].
Proof.
  induction 1 as [|x l Hx _ IH]; simpl; [reflexivity|]. now rewrite Hx.
Qed.

Section MultiCamFrame.
Context `{Engine} {G : Type} `{PRNG G}.

Lemma spawn_occluders_mc (l : list nat) :
  forall (s : MultiCam.Scene) (g : G),
    let s' := (for_each MultiCam.spawn_occluder l s g).1 in
    MultiCam.pairs s' = MultiCam.pairs s /\
    MultiCam.cams s' = MultiCam.cams s /\
    exists news,
      MultiCam.occluders s' = MultiCam.occluders s ++ news /\
      length news = length l /\
      Forall (fun o => named_occluder o = true /\ otype o = MESH /\
                       (exists m, materials o = [m]) /\
                       (exists sc, scale o = (sc, sc, sc))) news.
Proof.
  induction l as [|i l IH]; intros s g.
  - simpl. repeat split. exists []. rewrite app_nil_r. repeat split. constructor.
  - rewrite for_each_cons. cbv zeta.
    assert (Hstep : exists o,
               MultiCam.pairs (MultiCam.spawn_occluder i s g).1 = MultiCam.pairs s /\
               MultiCam.cams (MultiCam.spawn_occluder i s g).1 = MultiCam.cams s /\
               MultiCam.occluders (MultiCam.spawn_occluder i s g).1
               = MultiCam.occluders s ++ [o] /\
               named_occluder o = true /\ otype o = MESH /\
               (exists m, materials o = [m]) /\
               (exists sc, scale o = (sc, sc, sc))).
    { unfold MultiCam.spawn_occluder. run_state. split_draws.
      eexists. split; [reflexivity|]. split; [reflexivity|].
      split; [reflexivity|]. simpl.
      split; [apply prefix_occ|]. split; [reflexivity|]. split; eauto. }
    destruct Hstep as (o & Hp & Hc & Ho & Hprops).
    destruct (IH (MultiCam.spawn_occluder i s g).1
                 (MultiCam.spawn_occluder i s g).2)
      as (Hp2 & Hc2 & news & Hn & Hl & Hf).
    cbv zeta in *. rewrite Hp2, Hc2, Hn, Ho, Hp, Hc, <- app_assoc.
    split; [reflexivity|]. split; [reflexivity|].
    exists (o :: news). split; [reflexivity|]. simpl. split; [now rewrite Hl|].
    constructor; assumption.
Qed.

Lemma place_windows_rest (n : nat) (s : MultiCam.Scene) (g : G) :
  MultiCam.occluders (MultiCam.place_windows n s g).1 = MultiCam.occluders s /\
  MultiCam.cams (MultiCam.place_windows n s g).1 = MultiCam.cams s.
Proof.
  unfold MultiCam.place_windows. run_state.
  destruct (MultiCam.sample_nonoverlap n 0.38 g) as [centers g1].
  destruct (MultiCam.place_loop centers 0 (MultiCam.pairs s) g1). split; reflexivity.
Qed.

Lemma orbit_cameras_length (bd be ba step : Q) (cs : list Camera) :
  forall (i : nat) (g : G),
    map cam_name (MultiCam.orbit_cameras bd be ba step i cs g).1 = map cam_name cs.
Proof.
  induction cs as [|c cs IH]; intros i g; simpl; [reflexivity|].
  run_state.
  destruct (uniform (-0.2) 0.2 g) as [dd g1].
  destruct (uniform (-12) 12 g1) as [da g2].
  destruct (uniform (-6) 6 g2) as [de g3].
  unfold MultiCam.set_cam_orbit. run_state.
  destruct (uniform 35 60 g3) as [l g4].
  specialize (IH (S i) g4).
  destruct (MultiCam.orbit_cameras bd be ba step (S i) cs g4) as [rest g5].
  simpl in *. now rewrite IH.
Qed.

(** The randomisation of a frame, as far as the occluders go. *)
Lemma randomize_mc_occluders (f : nat) (s : MultiCam.Scene) (g : G) :
  exists g',
    MultiCam.occluders (MultiCam.randomize f s g).1
    = MultiCam.occluders
        (for_each MultiCam.spawn_occluder
           (seq 0 (Z.to_nat (randint 0 2 g').1))
           (MultiCam.cleanup_occluders
              (MultiCam.set_occluders (MultiCam.occluders s) s))
           (randint 0 2 g').2).1.
Proof.
  unfold MultiCam.randomize. run_state.
  unfold MultiCam.refresh_backdrop, MultiCam.randomize_light,
    MultiCam.randomize_cameras. run_state.
  destruct (MultiCam.bg_material g) as [m g1].
  destruct (uniform (-2.5) 2.5 g1) as [x g2].
  destruct (uniform (-2.5) 2.5 g2) as [y g3].
  destruct (uniform 1.5 3.5 g3) as [z g4].
  destruct (uniform 600 1600 g4) as [e g5].
  destruct (uniform 1.6 2.8 g5) as [bd g6].
  destruct (uniform 20 55 g6) as [be g7].
  destruct (uniform (-180) 180 g7) as [ba g8].
  destruct (MultiCam.orbit_cameras _ _ _ _ 0 _ g8) as [cs g9].
  destruct (randint 1 (Z.of_nat MultiCam.MAX_WINDOWS) g9) as [n g10].
  match goal with
  | |- context [MultiCam.place_windows ?a ?b g10] =>
      destruct (place_windows_rest a b g10) as [Ho _];
      destruct (MultiCam.place_windows a b g10) as [s5 g11]
  end.
  cbn [fst snd] in Ho. simpl in Ho.
  exists g11. destruct (randint 0 2 g11) as [k g12]. cbn [fst snd].
  destruct (spawn_occluders_mc (seq 0 (Z.to_nat k))
              (MultiCam.cleanup_occluders s5) g12) as (_ & _ & n1 & Hn1 & _).
  destruct (spawn_occluders_mc (seq 0 (Z.to_nat k))
              (MultiCam.cleanup_occluders
                 (MultiCam.set_occluders (MultiCam.occluders s) s)) g12)
    as (_ & _ & n2 & Hn2 & _).
  cbv zeta in *.
  assert (Hsame : forall (sa sb : MultiCam.Scene) (l : list nat) (gg : G),
             MultiCam.occluders sa = MultiCam.occluders sb ->
             MultiCam.occluders (for_each MultiCam.spawn_occluder l sa gg).1
             = MultiCam.occluders (for_each MultiCam.spawn_occluder l sb gg).1).
  { intros sa sb l. revert sa sb. induction l as [|i l IH]; intros sa sb gg Hab.
    - exact Hab.
    - rewrite !for_each_cons.
      assert (Hg : (MultiCam.spawn_occluder i sa gg).2
                   = (MultiCam.spawn_occluder i sb gg).2).
      { unfold MultiCam.spawn_occluder. run_state. split_draws. reflexivity. }
      rewrite Hg. apply IH.
      unfold MultiCam.spawn_occluder. run_state. split_draws. simpl.
      now rewrite Hab. }
  apply Hsame. unfold MultiCam.cleanup_occluders. simpl. now rewrite Ho.
Qed.

End MultiCamFrame.

(** X19.  Every frame of the multi-camera script starts its occluders
    afresh: the objects named [occ_...] are removed, the others kept in
    order, and as many cubes as [random.randint(0, 2)] returned are
    appended, each a mesh named [occ_...] with one material of its own and
    the same scale on its three axes.  With Python's generator that is at
    most two; and when all occluders carried such a name, the new ones are
    all there is, so occluders never pile up from frame to frame. *)
Theorem multicam_frame_respawns_occluders
        (E : Engine) (G : Type) (P : PRNG G)
        (f : nat) (s : MultiCam.Scene) (g : G) :
  let occ' := MultiCam.occluders (MultiCam.randomize f s g).1 in
  exists news,
    occ' = List.filter (fun o => negb (named_occluder o)) (MultiCam.occluders s)
           ++ news /\
    Forall (fun o => named_occluder o = true /\ otype o = MESH /\
                     (exists m, materials o = [m]) /\
                     (exists sc, scale o = (sc, sc, sc))) news /\
    (lawful -> (length news <= 2)%nat) /\
    (Forall (fun o => named_occluder o = true) (MultiCam.occluders s) ->
     occ' = news /\ Forall (fun o => named_occluder o = true) occ').
Proof.
  cbv zeta. destruct (randomize_mc_occluders f s g) as [g' ->].
  pose proof (fun Hl => randint_range 0 2 g' Hl ltac:(lia)) as Hk.
  destruct (spawn_occluders_mc (seq 0 (Z.to_nat (randint 0 2 g').1))
              (MultiCam.cleanup_occluders
                 (MultiCam.set_occluders (MultiCam.occluders s) s))
              (randint 0 2 g').2) as (_ & _ & news & -> & Hl & Hf).
  exists news. split; [reflexivity|]. split; [exact Hf|]. split.
  - intros Hlaw. specialize (Hk Hlaw). rewrite Hl, length_seq. lia.
  - intros Hall. unfold MultiCam.cleanup_occluders. simpl.
    rewrite filter_none.
    + split; [reflexivity|]. simpl.
      eapply Forall_impl; [exact Hf|]. intros o Ho. apply Ho.
    + eapply Forall_impl; [exact Hall|]. intros o Ho. simpl.
      unfold named_occluder in Ho. now rewrite Ho.
Qed.

Section CameraLoop.
Context `{Engine}.

Lemma multicam_keypoints_pass_some (cam : Camera) (s : MultiCam.Scene) :
  is_Some (MultiCam.keypoints_pass cam s) <->
  Forall (fun p : Obj * Obj => (4 <= length (vertices p.1))%nat)
         (List.filter shown (MultiCam.pairs s)).
Proof.
  unfold MultiCam.keypoints_pass. rewrite mapM_is_Some.
  apply Forall_iff. intros p. simpl. apply multicam_window_keypoints_some.
Qed.

Lemma camera_pass_keeps {Image} (render : MultiCam.Scene -> Image)
      (f ci : nat) (cam : Camera) (s : MultiCam.Scene) :
  let r := MultiCam.camera_pass render f ci cam s in
  MultiCam.pairs r.1 = MultiCam.pairs s /\
  MultiCam.camera r.1 = (ci - 1)%nat /\
  MultiCam.out_kpt r.2
  = MultiCam.mkPayload ("img_" +:+ MultiCam.stem ci f +:+ ".png")
                       ("mask_" +:+ MultiCam.stem ci f +:+ ".png")
                       MultiCam.IMG_RES ("Camera" +:+ pretty ci)
    <$> MultiCam.keypoints_pass cam s.
Proof. repeat split. Qed.

Lemma camera_loop_outputs {Image} (render : MultiCam.Scene -> Image) (f : nat)
      (cs : list Camera) :
  forall (ci : nat) (s : MultiCam.Scene),
    Forall (fun p : Obj * Obj => (4 <= length (vertices p.1))%nat)
           (List.filter shown (MultiCam.pairs s)) ->
    let r := MultiCam.camera_loop render f ci cs s in
    MultiCam.pairs r.1 = MultiCam.pairs s /\
    length r.2 = length cs /\
    (forall k o, r.2 !! k = Some o ->
       exists p recs,
         MultiCam.out_kpt o = Some p /\
         MultiCam.kp_camera p = "Camera" +:+ pretty (ci + k)%nat /\
         MultiCam.kp_objects p = recs /\
         Forall2 (fun (q : Obj * Obj) r =>
                    MultiCam.object_name r = name q.1 /\
                    length (MultiCam.keypoints r) = 4%nat /\
                    Forall (in_image 640 648) (MultiCam.keypoints r))
                 (List.filter shown (MultiCam.pairs s)) recs).
Proof.
  induction cs as [|cam cs IH]; intros ci s Hq.
  - simpl. repeat split. intros k o Hk. now rewrite lookup_nil in Hk.
  - cbv zeta. cbn [MultiCam.camera_loop].
    destruct (camera_pass_keeps render f ci cam s) as (Hp & _ & Hk).
    destruct (MultiCam.camera_pass render f ci cam s) as [s1 o1].
    cbn [fst snd] in Hp, Hk.
    destruct (proj2 (multicam_keypoints_pass_some cam s) Hq) as [recs Hrecs].
    rewrite Hrecs in Hk. simpl in Hk. rewrite Hk.
    rewrite <- Hp in Hq. destruct (IH (S ci) s1 Hq) as (Hp2 & Hl2 & Hk2).
    destruct (MultiCam.camera_loop render f (S ci) cs s1) as [s2 os].
    cbn [fst snd] in *. split; [congruence|]. split; [simpl; now rewrite Hl2|].
    intros [|k] o Ho; simpl in Ho.
    + injection Ho as <-. eexists _, recs. split; [exact Hk|].
      simpl. rewrite Nat.add_0_r. split; [reflexivity|]. split; [reflexivity|].
      unfold MultiCam.keypoints_pass in Hrecs. apply mapM_Some in Hrecs.
      eapply Forall2_impl; [exact Hrecs|]. intros q r Hr. simpl in Hr.
      destruct (multicam_window_keypoints_four _ _ _ Hr) as [Hn H4].
      split; [exact Hn|]. split; [exact H4|].
      eapply multicam_keypoints_in_image, Hr.
    + destruct (Hk2 k o Ho) as (p & recs2 & Hpo & Hcam & Hobj & Hf2).
      exists p, recs2. rewrite Hp in Hf2.
      replace (ci + S k)%nat with (S ci + k)%nat by lia. auto.
Qed.

End CameraLoop.

(** X20.  When the RGB window of every shown pair has four vertices or
    more, the camera loop of the multi-camera script raises nowhere: it
    writes one output per camera, in order, the output for camera number
    [ci] labelled [Camera<ci>]; each keypoint file lists the shown pairs in
    pool order, a record per pair under the name of its RGB window, with
    four pixels inside the image; and the loop leaves the window pairs as
    they were. *)
Theorem camera_loop_writes_every_camera
        (E : Engine) (Image : Type) (render : MultiCam.Scene -> Image)
        (f : nat) (s : MultiCam.Scene) :
  Forall (fun p : Obj * Obj => (4 <= length (vertices p.1))%nat)
         (List.filter shown (MultiCam.pairs s)) ->
  let r := MultiCam.camera_loop render f 1 (MultiCam.cams s) s in
  MultiCam.pairs r.1 = MultiCam.pairs s /\
  length r.2 = length (MultiCam.cams s) /\
  (forall k o, r.2 !! k = Some o ->
     exists p recs,
       MultiCam.out_kpt o = Some p /\
       MultiCam.kp_camera p = "Camera" +:+ pretty (1 + k)%nat /\
       MultiCam.kp_objects p = recs /\
       Forall2 (fun (q : Obj * Obj) r =>
                  MultiCam.object_name r = name q.1 /\
                  length (MultiCam.keypoints r) = 4%nat /\
                  Forall (in_image 640 648) (MultiCam.keypoints r))
               (List.filter shown (MultiCam.pairs s)) recs).
Proof. intros Hq. apply camera_loop_outputs, Hq. Qed.

Lemma camera_loop_writes_every_camera_witness :
  length (@MultiCam.camera_loop Demo.ortho unit (fun _ => tt) 1 1
            (MultiCam.cams shown_scene) shown_scene).2 = 1%nat.
Proof.
  apply (camera_loop_writes_every_camera Demo.ortho unit (fun _ => tt) 1
           shown_scene).
  repeat constructor.
Defined.

(* ================================================================== *)
(** * The corner ordering does not depend on the order of its input *)
(* ================================================================== *)

Section SortedUnique.
Context {A K : Type} (leb : K -> K -> bool) (key : A -> K).
Hypothesis leb_total : forall a b, leb a b = true \/ leb b a = true.
Hypothesis leb_trans : forall a b c, leb a b = true -> leb b c = true -> leb a c = true.
Hypothesis key_antisym :
  forall x y, leb (key x) (key y) = true -> leb (key y) (key x) = true -> x = y.

Lemma strongly_sorted_unique (l1 l2 : list A) :
  Permutation l1 l2 ->
  StronglySorted (fun x y => leb (key x) (key y) = true) l1 ->
  StronglySorted (fun x y => leb (key x) (key y) = true) l2 ->
  l1 = l2.
Proof.
  revert l2. induction l1 as [|x l1 IH]; intros l2 Hp H1 H2.
  - apply Permutation_nil_l in Hp. now subst.
  - destruct l2 as [|y l2]; [now apply Permutation_nil_r in Hp|].
    inversion H1 as [|? ? Hs1 Hx]; subst. inversion H2 as [|? ? Hs2 Hy]; subst.
    assert (Hxy : x = y).
    { assert (Hyin : y ∈ x :: l1) by (rewrite Hp; apply elem_of_cons; auto).
      assert (Hxin : x ∈ y :: l2) by (rewrite <- Hp; apply elem_of_cons; auto).
      apply elem_of_cons in Hyin, Hxin.
      destruct Hyin as [->|Hyin]; [reflexivity|].
      destruct Hxin as [->|Hxin]; [reflexivity|].
      rewrite Forall_forall in Hx, Hy.
      apply key_antisym; [apply Hx, Hyin|apply Hy, Hxin]. }
    subst y. f_equal. apply IH; [|assumption..].
    eapply Permutation_cons_inv, Hp.
Qed.

Lemma sorted_permutation_eq (l1 l2 : list A) :
  Permutation l1 l2 -> sorted leb key l1 = sorted leb key l2.
Proof.
  intros Hp. apply strongly_sorted_unique.
  - rewrite !sorted_perm. exact Hp.
  - apply sorted_ordered; assumption.
  - apply sorted_ordered; assumption.
Qed.

End SortedUnique.

Lemma corner_key_antisym (p q : Px) :
  pair_leb ((- p.2)%Z, p.1) ((- q.2)%Z, q.1) = true ->
  pair_leb ((- q.2)%Z, q.1) ((- p.2)%Z, p.1) = true -> p = q.
Proof.
  unfold pair_leb. simpl. destruct p as [px py], q as [qx qy]. simpl.
  destruct (Z.ltb_spec (- py) (- qy)), (Z.ltb_spec (- qy) (- py)),
           (Z.eqb_spec (- py) (- qy)), (Z.eqb_spec (- qy) (- py)),
           (Z.leb_spec px qx), (Z.leb_spec qx px);
    simpl; intros; try discriminate; f_equal; lia.
Qed.

(** X4.  The result of [order_tl_tr_br_bl] is a function of the points, not
    of the order they come in: two lists with the same points, in whatever
    order the mesh lists the corners, get the same answer (the same four
    pixels in the same positions, or the same failure). *)
Theorem corner_order_ignores_input_order (l l' : list Px) :
  Permutation l l' -> order_tl_tr_br_bl l = order_tl_tr_br_bl l'.
Proof.
  intros Hp. unfold order_tl_tr_br_bl.
  rewrite (sorted_permutation_eq pair_leb (fun p : Px => ((- p.2)%Z, p.1))
             pair_leb_total pair_leb_trans corner_key_antisym l l' Hp).
  reflexivity.
Qed.

Lemma corner_order_ignores_input_order_witness :
  order_tl_tr_br_bl [(100, 200); (200, 200); (100, 100); (200, 100)]%Z
  = order_tl_tr_br_bl [(200, 100); (100, 200); (200, 200); (100, 100)]%Z.
Proof.
  apply (corner_order_ignores_input_order
           [(100, 200); (200, 200); (100, 100); (200, 100)]%Z
           [(200, 100); (100, 200); (200, 200); (100, 100)]%Z).
  symmetry.
  apply (Permutation_cons_append [(100, 200); (200, 200); (100, 100)]%Z
                                 (200, 100)%Z).
Defined.

(** X21.  On any four points [order_tl_tr_br_bl] returns the four points it
    was given, the two of largest [y] first; within this first pair [x]
    ascends, within the second pair [x] descends. *)
Theorem corner_order_on_four_points (a b c d : Px) :
  exists out, order_tl_tr_br_bl [a; b; c; d] = Some out /\
              largest_y_first out /\ Permutation out [a; b; c; d].
Proof. apply order_largest_y_first. Qed.

(* ================================================================== *)
(** * The RGB-pass configuration *)
(* ================================================================== *)

(** X22.  Entering the RGB pass puts the RGB material back on every visible
    window, whatever the previous frame's MASK pass left there, turns the
    transparent film and RGBA output on, and touches neither lights nor
    occluders.  The no-background script draws no random number for it and
    leaves the compositor alone; the with-background script switches
    compositing on and, when it found background files, sets the
    compositor's image to one of them. *)
Theorem rgb_pass_configuration
        (E : Engine) (G : Type) (P : PRNG G)
        (script : Single.Script) (f : nat) (vis : list nat)
        (s : Single.Scene) (g : G) :
  let s1 := (Single.rgb_pass script f vis s g).1 in
  (forall i w, i ∈ vis -> Single.coll_board s1 !! i = Some w ->
               materials w = [Window_RGB_EmitTransp]) /\
  (forall i, i ∉ vis -> Single.coll_board s1 !! i = Single.coll_board s !! i) /\
  Single.film_transparent s1 = true /\ Single.color_mode s1 = Single.RGBA /\
  Single.coll_occluder s1 = Single.coll_occluder s /\
  Single.coll_lights s1 = Single.coll_lights s /\
  Single.filepath s1 = "images/img_" +:+ Single.fmt04 f +:+ ".png" /\
  match script with
  | Single.NoBackground =>
      (Single.rgb_pass script f vis s g).2 = g /\
      Single.use_compositing s1 = Single.use_compositing s /\
      Single.bg_image s1 = Single.bg_image s
  | Single.WithBackground bg_files =>
      Single.use_compositing s1 = true /\
      match bg_files with
      | [] => (Single.rgb_pass script f vis s g).2 = g /\
              Single.bg_image s1 = Single.bg_image s
      | _ => exists path, path ∈ bg_files /\ Single.bg_image s1 = Some path
      end
  end.
Proof.
  cbv zeta.
  pose proof (rgb_pass_board script f vis s g) as Hb.
  destruct (rgb_pass_rest script f vis s g) as (_ & Ho & Hl).
  split; [|split].
  - intros i w Hi Hw. rewrite Hb, swap_materials_lookup in Hw.
    rewrite decide_True in Hw by assumption.
    destruct (Single.coll_board s !! i); [|discriminate].
    simpl in Hw. injection Hw as <-. reflexivity.
  - intros i Hi. rewrite Hb, swap_materials_lookup.
    now rewrite decide_False by assumption.
  - clear Hb Ho Hl. unfold Single.rgb_pass. run_state.
    destruct script as [|bg]; [repeat split|].
    destruct bg as [|p bg]; [repeat split|].
    assert (Hpath : forall k, nth k (p :: bg) p ∈ p :: bg).
    { intros k.
      destruct (Nat.lt_ge_cases k (length (p :: bg))) as [Hlt|Hge].
      - apply list_elem_of_In, nth_In, Hlt.
      - rewrite nth_overflow by exact Hge. apply elem_of_cons. auto. }
    unfold choice. run_state.
    destruct (randbelow (Z.of_nat (length (p :: bg))) g) as [i g1].
    specialize (Hpath (Z.to_nat i)).
    set (path := nth (Z.to_nat i) (p :: bg) p) in *. clearbody path.
    simpl. repeat split. exists path. split; [exact Hpath|reflexivity].
Qed.
